(** * crypto-tweet-bot: the anti-repetition content-selection engine

    A shallow embedding of

      - [helpers/content_tracker.py]  (class [ContentTracker]),
      - [agents/agent.py]             ([generate_tweet]),
      - [main.py]                     ([generate_and_post_tweet]),

    followed by the properties of the engine that hold on that code, and
    the inputs on which documented behaviour and code part ways.

    Conventions of the embedding.

      - A Python [str] is a [string], read as the sequence of its code
        points; the model covers texts whose code points are below 256,
        on which [str.lower], [str.split] and [str.strip] are written out
        exactly as CPython computes them.
      - A [dict] is an association list in insertion order, a [set] of
        strings is a [gset string].  A loop over a set whose outcome does
        not depend on the order goes through [elements]; [list(s)], whose
        order the retry loop follows, is asked from the surroundings.
      - A naive [datetime] is a number of microseconds ([Z]); a
        [timedelta] is a difference of two of them.  [isoformat] followed
        by [fromisoformat] is the identity on those, so the store keeps
        the number itself.
      - Python exceptions are the [Raise] results of a state-and-error
        monad; a raising call keeps the state it had reached.
      - The collaborators (clock, digest, generation, market data, social
        platform) are the fields of a [Runtime]; every property holds for
        all of them.  Logging is left out. *)

From Stdlib Require Import ZArith QArith Ascii String List Lia.
From stdpp Require Import base gmap strings list.

Local Open Scope Z_scope.

(* ===================================================================== *)
(** * Python strings *)
(* ===================================================================== *)

Module PyStr.

(** Code point of a character. *)
Definition ord (c : ascii) : N := N_of_ascii c.

(** [str.lower] on one code point below 256: [A-Z] and the Latin-1
    capitals U+00C0..U+00DE (U+00D7, the multiplication sign, apart). *)
Definition lower_char (c : ascii) : ascii :=
  let n := ord c in
  if ((65 <=? n) && (n <=? 90))%N
     || ((192 <=? n) && (n <=? 222) && negb (n =? 215))%N
  then ascii_of_N (n + 32)
  else c.

(** [s.lower()] *)
Fixpoint lower (s : string) : string :=
  match s with
  | EmptyString => EmptyString
  | String c s' => String (lower_char c) (lower s')
  end.

(** [c.isspace()] for a code point below 256: TAB..CR, FS..US, SPACE,
    NEL and NBSP. *)
Definition isspace (c : ascii) : bool :=
  let n := ord c in
  (((9 <=? n) && (n <=? 13)) || ((28 <=? n) && (n <=? 32))
   || (n =? 133) || (n =? 160))%N.

(** [s.startswith(p)] *)
Fixpoint startswith (s p : string) {struct p} : bool :=
  match p, s with
  | EmptyString, _ => true
  | String a p', String b s' => if Ascii.eqb a b then startswith s' p' else false
  | String _ _, EmptyString => false
  end.

(** [p in s] *)
Fixpoint str_in (p s : string) : bool :=
  startswith s p ||
  match s with
  | EmptyString => false
  | String _ s' => str_in p s'
  end.

(** [s.split()]: the maximal runs of non-whitespace characters, in
    order.  [cur] is the word being read, if one has been started. *)
Fixpoint split_from (cur : option string) (s : string) : list string :=
  match s with
  | EmptyString =>
      match cur with Some w => [w] | None => [] end
  | String c s' =>
      if isspace c then
        match cur with
        | Some w => w :: split_from None s'
        | None => split_from None s'
        end
      else
        split_from (Some (match cur with
                          | Some w => w +:+ String c EmptyString
                          | None => String c EmptyString
                          end)) s'
  end.

Definition split (s : string) : list string := split_from None s.

(** [s.split('\n')]: never empty, an empty [s] gives one empty line. *)
Fixpoint split_lines (s : string) : list string :=
  match s with
  | EmptyString => [EmptyString]
  | String c s' =>
      if Ascii.eqb c "010"%char then EmptyString :: split_lines s'
      else match split_lines s' with
           | l :: ls => String c l :: ls
           | [] => [String c EmptyString]
           end
  end.

(** Drop the first [n] characters. *)
Fixpoint drop_chars (n : nat) (s : string) : string :=
  match n, s with
  | O, _ => s
  | S n', String _ s' => drop_chars n' s'
  | S _, EmptyString => EmptyString
  end.

(** [s.replace(old, "")] for a non-empty [old]: every occurrence of
    [old], scanning from the left and never overlapping, is removed.
    [fuel] bounds the scan; [String.length s] is always enough. *)
Fixpoint remove_all_fuel (fuel : nat) (old s : string) : string :=
  match fuel with
  | O => s
  | S fuel' =>
      match s with
      | EmptyString => EmptyString
      | String c s' =>
          if startswith s old
          then remove_all_fuel fuel' old (drop_chars (String.length old) s)
          else String c (remove_all_fuel fuel' old s')
      end
  end.

Definition remove_all (old s : string) : string :=
  remove_all_fuel (String.length s) old s.

(** [s.lstrip()], [s.rstrip()], [s.strip()] *)
Fixpoint lstrip (s : string) : string :=
  match s with
  | EmptyString => EmptyString
  | String c s' => if isspace c then lstrip s' else s
  end.

Fixpoint rstrip (s : string) : string :=
  match s with
  | EmptyString => EmptyString
  | String c s' =>
      match rstrip s' with
      | EmptyString => if isspace c then EmptyString else String c EmptyString
      | r => String c r
      end
  end.

Definition strip (s : string) : string := rstrip (lstrip s).

(** [bool(s)]: a string is truthy when it is not empty. *)
Definition truthy (s : string) : bool :=
  match s with EmptyString => false | _ => true end.

(** [s.upper()] is used by the source only inside prompt text, which the
    model does not build. *)

End PyStr.

(* ===================================================================== *)
(** * Exceptions, and the monad of state with exceptions *)
(* ===================================================================== *)

(** The exception classes the engine can meet.  [APIError] stands for
    whatever a network collaborator raises. *)
Inductive exn : Type :=
| IndexError
| KeyError
| ZeroDivisionError
| OSError
| APIError.

Inductive result (A : Type) : Type :=
| Ok (a : A)
| Raise (e : exn).
Arguments Ok {A} a.
Arguments Raise {A} e.

(** A computation over a state [S]: it ends with a value or an exception,
    and in both cases with the state it has reached. *)
Definition M (S A : Type) : Type := S → result A * S.

Definition ret {S A} (a : A) : M S A := λ s, (Ok a, s).

Definition raise {S A} (e : exn) : M S A := λ s, (Raise e, s).

Definition bind {S A B} (m : M S A) (k : A → M S B) : M S B :=
  λ s, match m s with
       | (Ok a, s') => k a s'
       | (Raise e, s') => (Raise e, s')
       end.

Definition gets {S A} (f : S → A) : M S A := λ s, (Ok (f s), s).

Definition modify {S} (f : S → S) : M S () := λ s, (Ok (), f s).

(** [try: m  except Exception: h] *)
Definition try_except {S A} (m : M S A) (h : exn → M S A) : M S A :=
  λ s, match m s with
       | (Ok a, s') => (Ok a, s')
       | (Raise e, s') => h e s'
       end.

(** A pure step that may raise. *)
Definition lift_result {S A} (r : result A) : M S A := λ s, (r, s).

Notation "x <~ c ;; k" := (bind c (λ x, k))
  (at level 100, c at next level, right associativity).
Notation "c ;;; k" := (bind c (λ _, k))
  (at level 100, right associativity).

(** [for x in l: body x], where the body only acts on the state. *)
Fixpoint for_each {S A} (l : list A) (body : A → M S ()) : M S () :=
  match l with
  | [] => ret ()
  | x :: l' => body x ;;; for_each l' body
  end.

(** [[x for x in l if keep x]], where the test acts on the state. *)
Fixpoint filter_m {S A} (keep : A → M S bool) (l : list A) : M S (list A) :=
  match l with
  | [] => ret []
  | x :: l' =>
      b <~ keep x ;;
      rest <~ filter_m keep l' ;;
      ret (if b then x :: rest else rest)
  end.

(* ===================================================================== *)
(** * Dictionaries *)
(* ===================================================================== *)

Module Dict.

(** A [dict] with [str] keys, in insertion order. *)
Definition t (V : Type) : Type := list (string * V).

Definition empty {V} : t V := [].

(** [d.get(k)] *)
Fixpoint lookup {V} (k : string) (d : t V) : option V :=
  match d with
  | [] => None
  | (k', v) :: d' => if String.eqb k k' then Some v else lookup k d'
  end.

(** [d[k] = v]: a present key keeps its place, a new one goes last. *)
Fixpoint setitem {V} (k : string) (v : V) (d : t V) : t V :=
  match d with
  | [] => [(k, v)]
  | (k', v') :: d' =>
      if String.eqb k k' then (k, v) :: d' else (k', v') :: setitem k v d'
  end.

(** [d.keys()], [d.values()] *)
Definition keys {V} (d : t V) : list string := map fst d.
Definition values {V} (d : t V) : list V := map snd d.

(** [{k: v for k, v in d.items() if keep v}] *)
Definition filter_values {V} (keep : V → bool) (d : t V) : t V :=
  List.filter (λ kv, keep (snd kv)) d.

End Dict.

(* ===================================================================== *)
(** * Data model *)
(* ===================================================================== *)

(** An article of the summaries archive: keys ['title'], ['link'] and
    ['summary'].  Every article the pipeline handles carries the three
    (the archive writes them together), so [article.get('summary', '')]
    is the field itself. *)
Record Article : Type := {
  a_title : string;
  a_link : string;
  a_summary : string;
}.

(** A social post fetched for context: ['text'], ['username'], ['likes'],
    ['retweets']. *)
Record SocialTweet : Type := {
  st_text : string;
  st_username : string;
  st_likes : Z;
  st_retweets : Z;
}.

(** A trending pool, as far as the engine reads it.  The numeric market
    fields only reach prompt text and archive entries; they are left out,
    and formatting them is taken not to raise. *)
Record Pool : Type := {
  p_name : string;
  p_base_token : string;
  p_quote_token : string;
}.

(** Values of [tracking_data['article_hashes']]. *)
Record ArticleRecord : Type := {
  ar_title : string;
  ar_url : string;
  ar_summary : string;
  ar_timestamp : Z;
}.

(** Values of [tracking_data['token_mentions']]. *)
Record TokenMention : Type := {
  tm_last_mention : Z;
  tm_mention_count : Z;
}.

(** Values of [tracking_data['generated_tweets']]. *)
Record TweetRecord : Type := {
  tr_text : string;
  tr_timestamp : Z;
  tr_sources : list Article;
}.

(** [ContentTracker.tracking_data] *)
Record TrackingData : Type := {
  article_hashes : Dict.t ArticleRecord;
  token_mentions : Dict.t TokenMention;
  generated_tweets : Dict.t TweetRecord;
  topic_clusters : Dict.t ();
}.

(** An entry of the tweets archive, [tweet_data] of [main.py]. *)
Record TweetData : Type := {
  td_timestamp : Z;
  td_tweet : string;
  td_reasoning : string;
  td_posted_to_twitter : bool;
  td_source_articles : list Article;
  td_market_context : list Pool;
}.

(** The three JSON files.  [None] is a file that [load_archive] reads as
    [{}]: missing or not decodable. *)
Record Disk : Type := {
  content_tracking_json : option TrackingData;
  generated_tweets_json : option (list TweetData);
  article_summaries_json : option (list Article);
  writable : bool;
}.

(** What a run can read and change outside its own objects: the files, the
    posts published so far, and how often the clock has been read. *)
Record World : Type := {
  disk : Disk;
  posted : list string;
  ticks : nat;
}.

(** What the surroundings answer during a run. *)
Record Runtime : Type := {
  (** the value of the [k]-th [datetime.now()] *)
  clock : nat → Z;
  (** [hashlib.md5(b).hexdigest()], on the text whose encoding [b] is *)
  md5_hexdigest : string → string;
  (** the order in which [list(s)] enumerates a set of strings *)
  set_iter : gset string → list string;
  (** [client.messages.create(...)] then [message.content[0].text], at a
      given attempt, for a focus category and the articles of the prompt *)
  claude : nat → string → list Article → result string;
  (** [gecko_terminal_api.get_trending_pools()], which returns [[]]
      rather than raise *)
  get_trending_pools : list Pool;
  (** [twitter_api.fetch_recent_tweets()] *)
  fetch_recent_tweets : result (list SocialTweet);
  (** [twitter_api.post_tweet(text)], which returns [False] rather than
      raise *)
  post_tweet : string → bool;
}.

(** A tracker object at work: its [tracking_data], and the world. *)
Record TrackerSt : Type := {
  tracking_data : TrackingData;
  world : World;
}.

Definition set_disk (d : Disk) (w : World) : World :=
  {| disk := d; posted := posted w; ticks := ticks w |}.

Definition set_tracking_data (td : TrackingData) (s : TrackerSt) : TrackerSt :=
  {| tracking_data := td; world := world s |}.

Definition set_world (w : World) (s : TrackerSt) : TrackerSt :=
  {| tracking_data := tracking_data s; world := w |}.

(** [timedelta(hours=h)], [timedelta(days=d)] *)
Definition hours (h : Z) : Z := h * 3600 * 1000000.
Definition days (d : Z) : Z := d * 24 * 3600 * 1000000.

(* ===================================================================== *)
(** * [helpers/content_tracker.py] *)
(* ===================================================================== *)

Module ContentTracker.

Import PyStr.

(** [ContentTracker.CATEGORIES] *)
Definition CATEGORIES : Dict.t (list string) :=
  [ ("price", ["price"; "surge"; "$"; "rally"; "market"; "ath"; "high";
               "low"; "dump"; "pump"]);
    ("innovation", ["launch"; "update"; "protocol"; "tech"; "scaling";
                    "develop"; "release"]);
    ("adoption", ["adopt"; "user"; "integration"; "partnership";
                  "mainstream"; "institutional"]);
    ("regulation", ["regulation"; "law"; "compliance"; "legal"; "license";
                    "govern"]);
    ("security", ["hack"; "scam"; "security"; "protect"; "risk";
                  "vulnerability"]);
    ("defi", ["defi"; "yield"; "stake"; "liquidity"; "amm"; "swap"]);
    ("infrastructure", ["layer2"; "scaling"; "network"; "chain"; "bridge";
                        "protocol"]);
    ("social", ["community"; "governance"; "dao"; "vote"; "proposal"]) ]%string.

(** The tracking data of a tracker that found no archive. *)
Definition empty_tracking_data : TrackingData :=
  {| article_hashes := Dict.empty;
     token_mentions := Dict.empty;
     generated_tweets := Dict.empty;
     topic_clusters := Dict.empty |}.

(** [ContentTracker()]: [__init__] with the default archive file. *)
Definition __init__ (d : Disk) : TrackingData :=
  match content_tracking_json d with
  | Some td => td
  | None => empty_tracking_data
  end.

(** [any(keyword in text_lower for keyword in keywords)] *)
Definition any_keyword_in (keywords : list string) (text_lower : string) : bool :=
  existsb (λ keyword, str_in keyword text_lower) keywords.

(** [_categorize_content(text)] *)
Definition _categorize_content (text : string) : gset string :=
  let text_lower := lower text in
  fold_left
    (λ (categories : gset string) (item : string * list string),
       let '(category, keywords) := item in
       if any_keyword_in keywords text_lower
       then categories ∪ {[ category ]}
       else categories)
    CATEGORIES ∅.

Section Methods.

Context (rt : Runtime).

(** [datetime.now()] *)
Definition datetime_now : M TrackerSt Z :=
  λ s,
    let w := world s in
    (Ok (clock rt (ticks w)),
     set_world {| disk := disk w; posted := posted w; ticks := S (ticks w) |} s).

(** [_generate_content_hash(content)] *)
Definition _generate_content_hash (content : string) : string :=
  md5_hexdigest rt (lower content).

(** [is_article_processed(article)] *)
Definition is_article_processed (article : Article) : M TrackerSt bool :=
  let content_hash :=
    _generate_content_hash (a_title article +:+ a_summary article) in
  hashes <~ gets (λ s, article_hashes (tracking_data s)) ;;
  match Dict.lookup content_hash hashes with
  | Some record =>
      let stored_time := ar_timestamp record in
      now <~ datetime_now ;;
      if now - stored_time <? hours 48 then ret true else ret false
  | None => ret false
  end.

(** The loop of [is_topic_overused] over the stored tweets: one more
    use for every category of every tweet newer than the cutoff.
    Every category of a tweet is a key of [category_counts]. *)
Definition count_categories (recent_cutoff : Z) (tweets : list TweetRecord)
    (category_counts : Dict.t Z) : Dict.t Z :=
  fold_left
    (λ counts tweet,
       if recent_cutoff <? tr_timestamp tweet then
         fold_left
           (λ counts cat,
              Dict.setitem cat (default 0 (Dict.lookup cat counts) + 1) counts)
           (elements (_categorize_content (tr_text tweet))) counts
       else counts)
    tweets category_counts.

(** [is_topic_overused(article)] *)
Definition is_topic_overused (article : Article) : M TrackerSt bool :=
  let article_categories :=
    _categorize_content (a_title article +:+ " " +:+ a_summary article) in
  now <~ datetime_now ;;
  let recent_cutoff := now - hours 24 in
  let category_counts := map (λ cat, (cat, 0)) (Dict.keys CATEGORIES) in
  tweets <~ gets (λ s, Dict.values (generated_tweets (tracking_data s))) ;;
  let category_counts := count_categories recent_cutoff tweets category_counts in
  ret (existsb (λ cat, 2 <=? default 0 (Dict.lookup cat category_counts))
         (elements article_categories)).

(** The loop of [get_fresh_categories]. *)
Definition used_categories (recent_cutoff : Z) (tweets : list TweetRecord)
    : gset string :=
  fold_left
    (λ (used : gset string) tweet,
       if recent_cutoff <? tr_timestamp tweet
       then used ∪ _categorize_content (tr_text tweet)
       else used)
    tweets ∅.

(** [get_fresh_categories()] *)
Definition get_fresh_categories : M TrackerSt (gset string) :=
  now <~ datetime_now ;;
  let recent_cutoff := now - hours 24 in
  tweets <~ gets (λ s, Dict.values (generated_tweets (tracking_data s))) ;;
  ret (list_to_set (Dict.keys CATEGORIES) ∖ used_categories recent_cutoff tweets).

(** [is_token_recently_mentioned(token, hours)] *)
Definition is_token_recently_mentioned (token : string) (hours_ : Z)
    : M TrackerSt bool :=
  mentions <~ gets (λ s, token_mentions (tracking_data s)) ;;
  match Dict.lookup token mentions with
  | Some mention =>
      now <~ datetime_now ;;
      ret (now - tm_last_mention mention <? hours hours_)
  | None => ret false
  end.

(** [set(text.lower().split())] *)
Definition token_set (text : string) : gset string :=
  list_to_set (split (lower text)).

(** [len(a & b) / len(a | b)].  The quotient of two [int]s is kept as
    the exact rational: it is compared with the threshold only, and
    rounding it to a float changes no comparison with 0.7 for sets of
    fewer than 2^49 words. *)
Definition jaccard (a b : gset string) : result Q :=
  match size (a ∪ b) with
  | O => Raise ZeroDivisionError
  | S n => Ok (Z.of_nat (size (a ∩ b)) # Pos.of_succ_nat n)
  end.

(** The loop of [is_tweet_similar] over the stored tweets. *)
Fixpoint similar_to_any (tweet_tokens : gset string) (recent_cutoff : Z)
    (similarity_threshold : Q) (stored : list TweetRecord) : result bool :=
  match stored with
  | [] => Ok false
  | stored_tweet :: rest =>
      if tr_timestamp stored_tweet <? recent_cutoff
      then similar_to_any tweet_tokens recent_cutoff similarity_threshold rest
      else
        let stored_tokens := token_set (tr_text stored_tweet) in
        match jaccard tweet_tokens stored_tokens with
        | Raise e => Raise e
        | Ok similarity =>
            if negb (Qle_bool similarity similarity_threshold)
            then Ok true
            else similar_to_any tweet_tokens recent_cutoff
                   similarity_threshold rest
        end
  end.

(** [is_tweet_similar(tweet_text, similarity_threshold)] *)
Definition is_tweet_similar (tweet_text : string) (similarity_threshold : Q)
    : M TrackerSt bool :=
  let tweet_tokens := token_set tweet_text in
  now <~ datetime_now ;;
  let recent_cutoff := now - hours 48 in
  tweets <~ gets (λ s, Dict.values (generated_tweets (tracking_data s))) ;;
  lift_result
    (similar_to_any tweet_tokens recent_cutoff similarity_threshold tweets).

(** The default [similarity_threshold=0.7]. *)
Definition default_threshold : Q := 7 # 10.

(** [save_archive(data, archive_file)] for the tracking file. *)
Definition save_archive_tracking (data : TrackingData) : M TrackerSt () :=
  λ s,
    let w := world s in
    let d := disk w in
    if writable d then
      (Ok (),
       set_world
         (set_disk {| content_tracking_json := Some data;
                      generated_tweets_json := generated_tweets_json d;
                      article_summaries_json := article_summaries_json d;
                      writable := writable d |} w) s)
    else (Raise OSError, s).

(** [_save_tracking_data()]: a failing write is logged and dropped. *)
Definition _save_tracking_data : M TrackerSt () :=
  data <~ gets tracking_data ;;
  try_except (save_archive_tracking data) (λ _, ret ()).

(** [track_article(article)] *)
Definition track_article (article : Article) : M TrackerSt () :=
  let content_hash :=
    _generate_content_hash (a_title article +:+ a_summary article) in
  now <~ datetime_now ;;
  modify (λ s,
    let td := tracking_data s in
    set_tracking_data
      {| article_hashes :=
           Dict.setitem content_hash
             {| ar_title := a_title article;
                ar_url := a_link article;
                ar_summary := a_summary article;
                ar_timestamp := now |}
             (article_hashes td);
         token_mentions := token_mentions td;
         generated_tweets := generated_tweets td;
         topic_clusters := topic_clusters td |} s) ;;;
  _save_tracking_data.

(** [track_token_mention(token)] *)
Definition track_token_mention (token : string) : M TrackerSt () :=
  now <~ datetime_now ;;
  modify (λ s,
    let td := tracking_data s in
    let mention_count :=
      match Dict.lookup token (token_mentions td) with
      | Some mention => tm_mention_count mention
      | None => 0
      end in
    set_tracking_data
      {| article_hashes := article_hashes td;
         token_mentions :=
           Dict.setitem token
             {| tm_last_mention := now;
                tm_mention_count := mention_count + 1 |}
             (token_mentions td);
         generated_tweets := generated_tweets td;
         topic_clusters := topic_clusters td |} s) ;;;
  _save_tracking_data.

(** [track_generated_tweet(tweet_text, source_articles)] *)
Definition track_generated_tweet (tweet_text : string)
    (source_articles : list Article) : M TrackerSt () :=
  let tweet_hash := _generate_content_hash tweet_text in
  now <~ datetime_now ;;
  modify (λ s,
    let td := tracking_data s in
    set_tracking_data
      {| article_hashes := article_hashes td;
         token_mentions := token_mentions td;
         generated_tweets :=
           Dict.setitem tweet_hash
             {| tr_text := tweet_text;
                tr_timestamp := now;
                tr_sources := source_articles |}
             (generated_tweets td);
         topic_clusters := topic_clusters td |} s) ;;;
  _save_tracking_data.

(** [cleanup_old_data(days)] *)
Definition cleanup_old_data (days_ : Z) : M TrackerSt () :=
  now <~ datetime_now ;;
  let cutoff := now - days days_ in
  modify (λ s,
    let td := tracking_data s in
    set_tracking_data
      {| article_hashes :=
           Dict.filter_values (λ v, cutoff <? ar_timestamp v) (article_hashes td);
         token_mentions :=
           Dict.filter_values (λ v, cutoff <? tm_last_mention v) (token_mentions td);
         generated_tweets :=
           Dict.filter_values (λ v, cutoff <? tr_timestamp v) (generated_tweets td);
         topic_clusters := topic_clusters td |} s) ;;;
  _save_tracking_data.

End Methods.

End ContentTracker.

(* ===================================================================== *)
(** * [agents/agent.py]: [generate_tweet] *)
(* ===================================================================== *)

Module Agent.

Import PyStr ContentTracker.

(** [sorted(l, key=key, reverse=True)]: descending and stable, elements
    with equal keys keep their order. *)
Fixpoint insert_desc {A} (key : A → Z) (x : A) (l : list A) : list A :=
  match l with
  | [] => [x]
  | y :: l' => if key x <? key y then y :: insert_desc key x l' else x :: l
  end.

Definition sorted_desc {A} (key : A → Z) (l : list A) : list A :=
  fold_right (insert_desc key) [] l.

(** [l[-n:]] *)
Definition last_n {A} (n : nat) (l : list A) : list A :=
  drop (length l - n) l.

(** [engaged_tweets[:5]], which is also [high_engagement_tweets]. *)
Definition top_engaged (tweets : list SocialTweet) : list SocialTweet :=
  take 5 (sorted_desc (λ x, st_likes x + st_retweets x) tweets).

(** [social_themes]: for every category, the number of top engaged
    tweets one of whose keywords occurs in.  An empty [tweets] leaves it
    empty. *)
Definition social_themes (tweets : list SocialTweet) : Dict.t Z :=
  fold_left
    (λ themes tweet,
       let text := lower (st_text tweet) in
       fold_left
         (λ themes (item : string * list string),
            let '(category, keywords) := item in
            if any_keyword_in keywords text
            then Dict.setitem category
                   (default 0 (Dict.lookup category themes) + 1) themes
            else themes)
         CATEGORIES themes)
    (top_engaged tweets) Dict.empty.

(** [recent_patterns] *)
Record RecentPatterns : Type := {
  rp_tokens : gset string;
  rp_phrases : gset string;
  rp_themes : gset string;
}.

Definition no_patterns : RecentPatterns :=
  {| rp_tokens := ∅; rp_phrases := ∅; rp_themes := ∅ |}.

Definition TRACKED_TOKENS : list string :=
  ["Bitcoin"; "BTC"; "ETH"; "Ethereum"; "SOL"; "Solana"]%string.

Definition PRICE_WORDS : list string :=
  ["price"; "$"; "ath"; "high"; "low"]%string.

(** The tokens one archived post adds to [recent_patterns['tokens']]. *)
Definition add_tokens (text : string) (tokens : gset string) : gset string :=
  fold_left
    (λ (acc : gset string) token,
       if str_in (lower token) (lower text) then acc ∪ {[ token ]} else acc)
    TRACKED_TOKENS tokens.

(** One turn of [for tweet in last_5_tweets].  [tweet['tweet'].split()[0]]
    raises [IndexError] on a text without any word. *)
Definition add_patterns (rp : RecentPatterns) (tweet : TweetData)
    : result RecentPatterns :=
  let text := td_tweet tweet in
  let tokens := add_tokens text (rp_tokens rp) in
  match split text with
  | [] => Raise IndexError
  | first_word :: _ =>
      let tweet_start := lower first_word in
      Ok {| rp_tokens := tokens;
            rp_phrases := rp_phrases rp ∪ {[ tweet_start ]};
            rp_themes :=
              if existsb (λ price_word, str_in price_word (lower text)) PRICE_WORDS
              then rp_themes rp ∪ {[ "price"%string ]}
              else rp_themes rp |}
  end.

(** The patterns to avoid, from [previous_tweets[-5:]]. *)
Definition recent_patterns (previous_tweets : list TweetData)
    : result RecentPatterns :=
  fold_left
    (λ acc tweet,
       match acc with
       | Ok rp => add_patterns rp tweet
       | Raise e => Raise e
       end)
    (last_n 5 previous_tweets) (Ok no_patterns).

(** [any(token.lower() in text.lower() for token in recent_patterns['tokens'])] *)
Definition mentions_recent_token (rp : RecentPatterns) (text : string) : bool :=
  existsb (λ token, str_in (lower token) (lower text)) (elements (rp_tokens rp)).

(** The articles kept for a focus category. *)
Definition filter_articles (focus_category : string) (rp : RecentPatterns)
    (articles : list Article) : list Article :=
  List.filter
    (λ article,
       let categories :=
         _categorize_content (a_title article +:+ " " +:+ a_summary article) in
       bool_decide (focus_category ∈ categories)
       && negb (mentions_recent_token rp (a_title article)))
    articles.

(** The two labelled lines of a response: [(reasoning, tweet_text)].  A
    later line with the same label replaces an earlier one. *)
Definition parse_response (response : string) : string * string :=
  fold_left
    (λ (acc : string * string) line,
       let '(reasoning, tweet_text) := acc in
       if startswith line "REASONING: "
       then (remove_all "REASONING: " line, tweet_text)
       else if startswith line "TWEET: "
       then (reasoning, remove_all "TWEET: " line)
       else (reasoning, tweet_text))
    (split_lines response) (EmptyString, EmptyString).

(** [any(f(x) for x in l)] where [f] may raise. *)
Fixpoint any_result {A} (f : A → result bool) (l : list A) : result bool :=
  match l with
  | [] => Ok false
  | x :: l' =>
      match f x with
      | Ok true => Ok true
      | Ok false => any_result f l'
      | Raise e => Raise e
      end
  end.

(** [any(phrase in tweet_text.lower().split()[0] for phrase in phrases)] *)
Definition uses_recent_phrase (rp : RecentPatterns) (tweet_text : string)
    : result bool :=
  any_result
    (λ phrase,
       match split (lower tweet_text) with
       | [] => Raise IndexError
       | first_word :: _ => Ok (str_in phrase first_word)
       end)
    (elements (rp_phrases rp)).

(** How one turn of the retry loop ends: [continue] (or the end of the
    body) with the categories tried so far, or [return]. *)
Inductive step : Type :=
| Continue (tried_categories : gset string)
| Return (value : option (string * string)).

Definition max_retries : nat := 3.

Section GenerateTweet.

Context (rt : Runtime).
Context (articles : list Article).
Context (previous_tweets : list TweetData).
Context (fresh_categories : list string).

(** The [try] block of one attempt, after the prompt has been built. *)
Definition generate_and_validate (attempt : nat) (focus_category : string)
    (filtered_articles : list Article) (rp : RecentPatterns)
    (tried_categories : gset string) : M TrackerSt step :=
  try_except
    (response <~ lift_result
                   (claude rt attempt focus_category (take 3 filtered_articles)) ;;
     let '(reasoning, tweet_text) := parse_response response in
     if truthy tweet_text then
       repeats <~ lift_result (uses_recent_phrase rp tweet_text) ;;
       if repeats : bool then ret (Continue tried_categories)
       else if mentions_recent_token rp tweet_text
       then ret (Continue tried_categories)
       else ret (Return (Some (strip tweet_text, strip reasoning)))
     else ret (Continue tried_categories))
    (λ _, ret (Continue tried_categories)).

(** The body of [for attempt in range(max_retries)]. *)
Definition attempt_body (attempt : nat) (tried_categories : gset string)
    : M TrackerSt step :=
  rp <~ lift_result (recent_patterns previous_tweets) ;;
  let available_categories :=
    List.filter (λ cat, negb (bool_decide (cat ∈ tried_categories)))
      fresh_categories in
  match available_categories with
  | [] => ret (Return None)
  | focus_category :: _ =>
      let tried_categories := tried_categories ∪ {[ focus_category ]} in
      let filtered_articles := filter_articles focus_category rp articles in
      match filtered_articles with
      | [] => ret (Continue tried_categories)
      | _ :: _ =>
          generate_and_validate attempt focus_category filtered_articles rp
            tried_categories
      end
  end.

(** [n] more turns of the loop, from turn [attempt] on, then the
    [return None] that follows the loop. *)
Fixpoint retry_loop (n attempt : nat) (tried_categories : gset string)
    : M TrackerSt (option (string * string)) :=
  match n with
  | O => ret None
  | S n' =>
      outcome <~ attempt_body attempt tried_categories ;;
      match outcome with
      | Return value => ret value
      | Continue tried_categories' => retry_loop n' (S attempt) tried_categories'
      end
  end.

End GenerateTweet.

(** [fresh_categories], in the order in which the loop tries them. *)
Definition prioritized_categories (rt : Runtime) (tweets : list SocialTweet)
    (fresh : gset string) : list string :=
  let fresh_categories := set_iter rt fresh in
  let themes := social_themes tweets in
  match themes with
  | [] => fresh_categories
  | _ :: _ =>
      sorted_desc (λ x, default 0 (Dict.lookup x themes)) fresh_categories
  end.

(** [generate_tweet], once its tracker has been built: the tracker is
    the [tracking_data] of the state. *)
Definition generate_tweet_run (rt : Runtime) (articles : list Article)
    (tweets : list SocialTweet) (trending_pools : list Pool)
    : M TrackerSt (option (string * string)) :=
  previous_tweets <~ gets (λ s, default [] (generated_tweets_json (disk (world s)))) ;;
  fresh <~ get_fresh_categories rt ;;
  let fresh_categories := prioritized_categories rt tweets fresh in
  retry_loop rt articles previous_tweets fresh_categories max_retries 0 ∅.

(** [generate_tweet(articles, tweets, trending_pools, api_key)].  The
    prompt is text for the generation collaborator alone and is not
    built (building it from articles that carry a summary and from pools
    with numeric fields does not raise); [trending_pools] only goes into
    it. *)
Definition generate_tweet (rt : Runtime) (articles : list Article)
    (tweets : list SocialTweet) (trending_pools : list Pool)
    : M World (option (string * string)) :=
  λ w,
    let content_tracker := __init__ (disk w) in
    let '(r, s) := generate_tweet_run rt articles tweets trending_pools
                     {| tracking_data := content_tracker; world := w |} in
    (r, world s).

End Agent.

(* ===================================================================== *)
(** * [main.py]: [generate_and_post_tweet] *)
(* ===================================================================== *)

Module Main.

Import PyStr ContentTracker Agent.

Section GenerateAndPost.

Context (rt : Runtime).

(** A call that acts on the world only, made while a tracker is at work. *)
Definition in_world {A} (m : M World A) : M TrackerSt A :=
  λ s, let '(r, w) := m (world s) in (r, set_world w s).

(** [summaries_archive['items']] filtered by [is_article_processed]. *)
Definition available_articles : M TrackerSt (list Article) :=
  summaries <~ gets (λ s, article_summaries_json (disk (world s))) ;;
  match summaries with
  | None => raise KeyError
  | Some items =>
      filter_m
        (λ article,
           processed <~ is_article_processed rt article ;;
           ret (negb processed))
        items
  end.

(** The pools neither token of which was mentioned in the last 24 hours. *)
Definition filtered_pools (trending_pools : list Pool) : M TrackerSt (list Pool) :=
  filter_m
    (λ pool,
       base <~ is_token_recently_mentioned rt (p_base_token pool) 24 ;;
       if base : bool then ret false
       else
         quote <~ is_token_recently_mentioned rt (p_quote_token pool) 24 ;;
         ret (negb quote))
    trending_pools.

(** [await twitter_api.post_tweet(tweet_text)] *)
Definition twitter_post (tweet_text : string) : M TrackerSt bool :=
  λ s,
    if post_tweet rt tweet_text then
      let w := world s in
      (Ok true,
       set_world {| disk := disk w;
                    posted := posted w ++ [tweet_text];
                    ticks := ticks w |} s)
    else (Ok false, s).

(** The three tracking loops that follow a successful post. *)
Definition track_content (tweet_text : string) (articles : list Article)
    (pools : list Pool) : M TrackerSt () :=
  for_each articles (track_article rt) ;;;
  for_each pools
    (λ pool,
       track_token_mention rt (p_base_token pool) ;;;
       track_token_mention rt (p_quote_token pool)) ;;;
  track_generated_tweet rt tweet_text articles.

(** [tweets_archive['tweets'].append(tweet_data)] and [save_archive]. *)
Definition append_to_archive (tweet_data : TweetData) : M TrackerSt () :=
  λ s,
    let w := world s in
    let d := disk w in
    match generated_tweets_json d with
    | None => (Raise KeyError, s)
    | Some tweets =>
        if writable d then
          (Ok (),
           set_world
             (set_disk {| content_tracking_json := content_tracking_json d;
                          generated_tweets_json := Some (tweets ++ [tweet_data]);
                          article_summaries_json := article_summaries_json d;
                          writable := writable d |} w) s)
        else (Raise OSError, s)
    end.

(** What follows a generated [(tweet_text, reasoning)]: the similarity
    check, the post, the tracking and the archive. *)
Definition check_and_publish (articles : list Article) (pools : list Pool)
    (tweet_text reasoning : string) : M TrackerSt (option TweetData) :=
  similar <~ is_tweet_similar rt tweet_text default_threshold ;;
  if similar : bool then ret None
  else
    now <~ datetime_now rt ;;
    success <~ twitter_post tweet_text ;;
    (if success : bool then track_content tweet_text articles pools else ret ()) ;;;
    let tweet_data :=
      {| td_timestamp := now;
         td_tweet := tweet_text;
         td_reasoning := reasoning;
         td_posted_to_twitter := success;
         td_source_articles := articles;
         td_market_context := pools |} in
    append_to_archive tweet_data ;;;
    ret (Some tweet_data).

(** The body of the [try] of [generate_and_post_tweet]. *)
Definition generate_and_post_tweet_body : M TrackerSt (option TweetData) :=
  available <~ available_articles ;;
  match available with
  | [] => ret None
  | _ :: _ =>
      pools <~ filtered_pools (get_trending_pools rt) ;;
      tweets <~ lift_result (fetch_recent_tweets rt) ;;
      result <~ in_world
                  (generate_tweet rt (take 5 available) tweets (take 5 pools)) ;;
      match result with
      | None => ret None
      | Some (tweet_text, reasoning) =>
          check_and_publish (take 5 available) (take 5 pools) tweet_text reasoning
      end
  end.

(** [generate_and_post_tweet()]: any exception ends the run with [None]. *)
Definition generate_and_post_tweet : M World (option TweetData) :=
  λ w,
    let content_tracker := __init__ (disk w) in
    let '(r, s) :=
      try_except generate_and_post_tweet_body (λ _, ret None)
        {| tracking_data := content_tracker; world := w |} in
    (r, world s).

End GenerateAndPost.

End Main.

(* ===================================================================== *)
(** * [helpers/twitter_helpers.py]: requests with retries, [post_tweet] *)
(* ===================================================================== *)

Module TwitterAPI.

(** What one call of a request function does: it returns, or it raises
    one of the exceptions that [_make_twitter_request] tells apart.
    [ConnectionError] stands for the three classes of its first
    [except] clause ([ConnectionError], [ProtocolError], [Timeout]),
    [OtherError] for every other exception. *)
Inductive attempt_outcome (V : Type) : Type :=
| Returns (v : V)
| ConnectionError
| TooManyRequests
| TwitterServerError
| OtherError.
Arguments Returns {V} v.
Arguments ConnectionError {V}.
Arguments TooManyRequests {V}.
Arguments TwitterServerError {V}.
Arguments OtherError {V}.

(** How [_make_twitter_request] ends: with the value of a call, with
    [None] when the loop runs out, or with the exception it lets
    through. *)
Inductive request_result (V : Type) : Type :=
| Value (v : V)
| NoValue
| RaisesConnectionError
| RaisesOtherError.
Arguments Value {V} v.
Arguments NoValue {V}.
Arguments RaisesConnectionError {V}.
Arguments RaisesOtherError {V}.

(** The loop of [_make_twitter_request]: [remaining] more turns, from
    turn [attempt] on.  [request attempt] is what the call made in
    that turn does; [slept] adds up the seconds of [time.sleep]. *)
Fixpoint request_loop {V} (max_retries : nat) (retry_delay : Z)
    (request : nat → attempt_outcome V) (remaining attempt : nat) (slept : Z)
    : request_result V * Z :=
  match remaining with
  | O => (NoValue, slept)
  | S remaining' =>
      match request attempt with
      | Returns v => (Value v, slept)
      | ConnectionError =>
          if Nat.eqb attempt (max_retries - 1) then (RaisesConnectionError, slept)
          else request_loop max_retries retry_delay request remaining' (S attempt)
                 (slept + retry_delay * (Z.of_nat attempt + 1))
      | TooManyRequests =>
          request_loop max_retries retry_delay request remaining' (S attempt)
            (slept + 60)
      | TwitterServerError =>
          request_loop max_retries retry_delay request remaining' (S attempt)
            (slept + 30)
      | OtherError => (RaisesOtherError, slept)
      end
  end.

(** [_make_twitter_request(request_func)] *)
Definition _make_twitter_request {V} (max_retries : nat) (retry_delay : Z)
    (request : nat → attempt_outcome V) : request_result V * Z :=
  request_loop max_retries retry_delay request max_retries 0 0.

(** [self.max_retries], [self.retry_delay] *)
Definition max_retries : nat := 3.
Definition retry_delay : Z := 5.

(** [post_tweet(tweet_text)].  A response of [create_tweet] is [true]
    when it passes the test of the source (it has a [data] dictionary
    with an ['id']); what [get_me] returns is the user name under
    [me.data], if there is one.  Every exception ends in [False]: those
    that the requests let through, and the [AttributeError] of
    [me.data.username] on a [None]. *)
Definition post_tweet (is_configured : bool)
    (create_tweet : nat → attempt_outcome bool)
    (get_me : nat → attempt_outcome (option string)) : bool :=
  if negb is_configured then false
  else
    match fst (_make_twitter_request max_retries retry_delay create_tweet) with
    | Value true =>
        match fst (_make_twitter_request max_retries retry_delay get_me) with
        | Value (Some username) => true
        | _ => false
        end
    | _ => false
    end.

End TwitterAPI.

(* ===================================================================== *)
(** * [agents/agent.py]: [fetch_crypto_news], [fetch_and_generate_summaries] *)
(* ===================================================================== *)

Module Summaries.

Import PyStr.

(** An article as [fetch_crypto_news] returns it. *)
Record NewsItem : Type := {
  n_title : string;
  n_link : string;
  n_published : string;
  n_content : string;
}.

(** An entry of the parsed feed, with the attributes that
    [fetch_crypto_news] reads; an attribute that is not there is [None]. *)
Record FeedEntry : Type := {
  e_published : option string;
  e_updated : option string;
  e_title : option string;
  e_link : option string;
  e_content : option string;
  e_summary : option string;
}.

(** [entry.get('published') or entry.get('updated')] *)
Definition published_time (entry : FeedEntry) : option string :=
  match e_published entry with
  | Some published =>
      if truthy published then Some published else e_updated entry
  | None => e_updated entry
  end.

(** The loop of [fetch_crypto_news] from entry number [i] on, with the
    items and the titles collected so far.  [clean_html] is the function
    of that name; [is_within_last_24_hours i published] is its answer
    for entry [i], which depends on the time of the call.  [None] is an
    exception: reading [entry.title] or [entry.link] of an entry without
    it. *)
Fixpoint collect_news (clean_html : string → string)
    (is_within_last_24_hours : nat → string → bool)
    (i : nat) (entries : list FeedEntry)
    (news_items : list NewsItem) (seen_titles : gset string)
    : option (list NewsItem) :=
  match entries with
  | [] => Some news_items
  | entry :: rest =>
      let skip :=
        collect_news clean_html is_within_last_24_hours (S i) rest
          news_items seen_titles in
      match published_time entry with
      | None => skip
      | Some published =>
          if negb (truthy published) then skip
          else if negb (is_within_last_24_hours i published) then skip
          else
            match e_title entry with
            | None => None
            | Some raw_title =>
                let title := clean_html raw_title in
                if bool_decide (title ∈ seen_titles) then skip
                else
                  let content :=
                    match e_content entry, e_summary entry with
                    | Some value, _ => clean_html value
                    | None, Some summary => clean_html summary
                    | None, None => EmptyString
                    end in
                  match e_link entry with
                  | None => None
                  | Some link =>
                      collect_news clean_html is_within_last_24_hours (S i)
                        rest
                        (news_items
                         ++ [{| n_title := title;
                                n_link := link;
                                n_published := published;
                                n_content := content |}])
                        ({[ title ]} ∪ seen_titles)
                  end
            end
      end
  end.

(** [fetch_crypto_news()], for the entries of the parsed feed ([None]
    when parsing raises).  Every exception ends in an empty list. *)
Definition fetch_crypto_news (clean_html : string → string)
    (is_within_last_24_hours : nat → string → bool)
    (feed : option (list FeedEntry)) : list NewsItem :=
  match feed with
  | None => []
  | Some [] => []
  | Some entries =>
      match collect_news clean_html is_within_last_24_hours 0 entries [] ∅ with
      | Some news_items => news_items
      | None => []
      end
  end.

(** An entry of [summaries_archive['items']]. *)
Record SummaryItem : Type := {
  s_title : string;
  s_link : string;
  s_published : string;
  s_summary : string;
}.

(** The summaries archive: ['processed_urls'] and ['items']. *)
Record SummariesArchive : Type := {
  processed_urls : list string;
  items : list SummaryItem;
}.

(** The summaries file, [None] when [load_archive] reads it as [{}],
    and whether it can be written. *)
Record SummariesDisk : Type := {
  summaries_json : option SummariesArchive;
  summaries_writable : bool;
}.

(** [link in processed_urls] *)
Definition url_in (link : string) (urls : list string) : bool :=
  existsb (String.eqb link) urls.

(** One turn of the loop over the unprocessed articles.  [summary] is
    what [generate_summary] returned: [None] after an exception, and an
    empty text is as good as none. *)
Definition summarise_one (summary : option string)
    (archive : SummariesArchive) (article : NewsItem) : SummariesArchive :=
  match summary with
  | Some summary =>
      if truthy summary then
        {| processed_urls := processed_urls archive ++ [n_link article];
           items := items archive
                    ++ [{| s_title := n_title article;
                           s_link := n_link article;
                           s_published := n_published article;
                           s_summary := summary |}] |}
      else archive
  | None => archive
  end.

(** The loop itself.  [generate_summary i article] is the answer to the
    [i]-th call of this run, made for [article]. *)
Fixpoint summarise_from (generate_summary : nat → NewsItem → option string)
    (i : nat) (unprocessed_news : list NewsItem) (archive : SummariesArchive)
    : SummariesArchive :=
  match unprocessed_news with
  | [] => archive
  | article :: rest =>
      summarise_from generate_summary (S i) rest
        (summarise_one (generate_summary i article) archive article)
  end.

(** [fetch_and_generate_summaries()], for what [fetch_crypto_news()]
    returned and what [generate_summary] answers.  Reading ['items'] of
    an archive without it raises in the first log line. *)
Definition fetch_and_generate_summaries (all_news : list NewsItem)
    (generate_summary : nat → NewsItem → option string)
    : M SummariesDisk bool :=
  loaded <~ gets summaries_json ;;
  match loaded with
  | None => raise KeyError
  | Some summaries_archive =>
      match all_news with
      | [] => ret false
      | _ :: _ =>
          let unprocessed_news :=
            List.filter
              (λ article,
                 negb (url_in (n_link article) (processed_urls summaries_archive)))
              all_news in
          match unprocessed_news with
          | [] => ret false
          | _ :: _ =>
              let summaries_archive :=
                summarise_from generate_summary 0 unprocessed_news
                  summaries_archive in
              writable <~ gets summaries_writable ;;
              if writable : bool then
                modify (λ d, {| summaries_json := Some summaries_archive;
                                summaries_writable := summaries_writable d |}) ;;;
                ret true
              else raise OSError
          end
      end
  end.

End Summaries.

(* ===================================================================== *)
(** * [helpers/tweets_cache.py]: the cache of fetched posts *)
(* ===================================================================== *)

Module TweetCache.

(** A cached post, as far as the cache reads it: ['id'] and
    ['created_at'], an ISO text.  The other keys are carried along. *)
Record CachedTweet : Type := {
  ct_id : Z;
  ct_username : string;
  ct_text : string;
  ct_created_at : string;
  ct_likes : Z;
  ct_retweets : Z;
}.

(** [self.cache], the cache file ([None] when there is none or it does
    not parse), and whether the file can be written. *)
Record CacheSt : Type := {
  cache : Dict.t (list CachedTweet);
  cache_file : option (Dict.t (list CachedTweet));
  cache_writable : bool;
}.

Definition set_cache (c : Dict.t (list CachedTweet)) (st : CacheSt) : CacheSt :=
  {| cache := c; cache_file := cache_file st;
     cache_writable := cache_writable st |}.

(** [_load_cache()] *)
Definition _load_cache : M CacheSt () :=
  modify (λ st, set_cache (match cache_file st with
                           | Some c => c
                           | None => Dict.empty
                           end) st).

(** [_save_cache()] *)
Definition _save_cache : M CacheSt () :=
  writable <~ gets cache_writable ;;
  if writable : bool then
    modify (λ st, {| cache := cache st; cache_file := Some (cache st);
                     cache_writable := cache_writable st |})
  else raise OSError.

(** [sorted(l, key=lambda x: x['created_at'], reverse=True)]: newest
    first by the order of [str], and stable. *)
Fixpoint insert_newest (x : CachedTweet) (l : list CachedTweet)
    : list CachedTweet :=
  match l with
  | [] => [x]
  | y :: l' =>
      if String.ltb (ct_created_at x) (ct_created_at y)
      then y :: insert_newest x l' else x :: l
  end.

Definition sorted_newest (l : list CachedTweet) : list CachedTweet :=
  fold_right insert_newest [] l.

(** [tweet['id'] in existing_ids] *)
Definition id_in (i : Z) (ids : list Z) : bool := existsb (Z.eqb i) ids.

(** [self.cache[username]], which is there when it is read. *)
Definition cached (username : string) (c : Dict.t (list CachedTweet))
    : list CachedTweet :=
  match Dict.lookup username c with
  | Some l => l
  | None => []
  end.

(** [update_user_tweets(username, new_tweets)] *)
Definition update_user_tweets (username : string)
    (new_tweets : list CachedTweet) : M CacheSt () :=
  present <~ gets (λ st, Dict.lookup username (cache st)) ;;
  match present with
  | None => modify (λ st, set_cache (Dict.setitem username [] (cache st)) st)
  | Some _ => ret ()
  end ;;;
  current <~ gets (λ st, cached username (cache st)) ;;
  let existing_ids := map ct_id current in
  let current :=
    current
    ++ List.filter (λ tweet, negb (id_in (ct_id tweet) existing_ids))
         new_tweets in
  modify (λ st, set_cache
                  (Dict.setitem username (take 10 (sorted_newest current))
                     (cache st)) st) ;;;
  _save_cache.

End TweetCache.

(* ===================================================================== *)
(** * Vocabulary of the properties *)
(* ===================================================================== *)

Import PyStr ContentTracker Agent Main.

(** The part of a tracker state that is a store: the tracker's own data,
    the files, and the published posts.  The clock is not part of it. *)
Definition store (s : TrackerSt) : TrackingData * Disk * list string :=
  (tracking_data s, disk (world s), posted (world s)).

(** [keyword] occurs in [text] when case is ignored. *)
Definition occurs_ci (keyword text : string) : Prop :=
  ∃ pre post, lower text = pre +:+ lower keyword +:+ post.

(** The loop over the archived posts, from any patterns on. *)
Definition patterns_from (acc : result RecentPatterns) (tweets : list TweetData)
    : result RecentPatterns :=
  fold_left
    (λ acc tweet,
       match acc with
       | Ok rp => add_patterns rp tweet
       | Raise e => Raise e
       end)
    tweets acc.

(** A draft that the loop returns: it was generated at turn [attempt]
    for the first untried fresh category, its post-text line is not empty,
    and neither pattern check fired. *)
Definition accepted (rt : Runtime) (articles : list Article) (rp : RecentPatterns)
    (fresh_categories : list string) (attempt : nat) (tried : gset string)
    (tweet reasoning : string) : Prop :=
  ∃ focus rest response reasoning_line tweet_line,
    List.filter (λ cat, negb (bool_decide (cat ∈ tried))) fresh_categories
    = focus :: rest
    ∧ claude rt attempt focus (take 3 (filter_articles focus rp articles))
      = Ok response
    ∧ parse_response response = (reasoning_line, tweet_line)
    ∧ tweet_line ≠ EmptyString
    ∧ uses_recent_phrase rp tweet_line = Ok false
    ∧ mentions_recent_token rp tweet_line = false
    ∧ tweet = strip tweet_line
    ∧ reasoning = strip reasoning_line.

(** A computation that leaves the store as it found it, and one that
    publishes nothing. *)
Definition keeps_store {A} (m : M TrackerSt A) : Prop :=
  ∀ s, store (snd (m s)) = store s.

Definition keeps_posted {A} (m : M TrackerSt A) : Prop :=
  ∀ s, posted (world (snd (m s))) = posted (world s).

(** The Similarity Guard, asked at some reading [k] of the clock on the
    tracking data that a run loads from the files of [w], answers that
    [tweet_text] is not too similar. *)
Definition let_through (rt : Runtime) (w : World) (tweet_text : string) : Prop :=
  ∃ k, similar_to_any (token_set tweet_text) (clock rt k - hours 48)
         default_threshold
         (Dict.values (generated_tweets (__init__ (disk w))))
       = Ok false.

(** ** Scenarios *)

Module Scenario.

(** Surroundings in which the clock stands at [now], the generation
    collaborator always answers [reply], no pool is trending, no social
    post is cached and every post is published.  The digest is replaced
    by the text itself, which keeps distinct texts apart as the digest
    does in practice. *)
Definition runtime (now : Z) (reply : result string) : Runtime :=
  {| clock := λ _, now;
     md5_hexdigest := λ text, text;
     set_iter := elements;
     claude := λ _ _ _, reply;
     get_trending_pools := [];
     fetch_recent_tweets := Ok [];
     post_tweet := λ _, true |}.

(** The same surroundings, where no post gets published. *)
Definition offline_runtime (now : Z) (reply : result string) : Runtime :=
  {| clock := λ _, now;
     md5_hexdigest := λ text, text;
     set_iter := elements;
     claude := λ _ _ _, reply;
     get_trending_pools := [];
     fetch_recent_tweets := Ok [];
     post_tweet := λ _, false |}.

Definition world_of (tracking : option TrackingData)
    (archive : option (list TweetData)) (summaries : option (list Article)) : World :=
  {| disk := {| content_tracking_json := tracking;
                generated_tweets_json := archive;
                article_summaries_json := summaries;
                writable := true |};
     posted := [];
     ticks := 0 |}.

(** Tracking data that holds generated posts only. *)
Definition tracking_of (tweets : Dict.t TweetRecord) : TrackingData :=
  {| article_hashes := Dict.empty;
     token_mentions := Dict.empty;
     generated_tweets := tweets;
     topic_clusters := Dict.empty |}.

Definition archived (text : string) : TweetData :=
  {| td_timestamp := 0;
     td_tweet := text;
     td_reasoning := EmptyString;
     td_posted_to_twitter := true;
     td_source_articles := [];
     td_market_context := [] |}.

(** A response with both labelled lines. *)
Definition response_of (reasoning tweet : string) : string :=
  "REASONING: " +:+ reasoning +:+ String "010"%char ("TWEET: " +:+ tweet).

(** An article in which a keyword of each of the eight categories
    occurs: it is a candidate whatever category the loop tries first. *)
Definition broad_article : Article :=
  {| a_title := "price launch adopt law hack defi chain dao";
     a_link := "https://example.org/broad";
     a_summary := "summary" |}.

(** A post tracked 30 hours ago: too old to make its categories stale,
    recent enough for the Similarity Guard. *)
Definition pumped : string := "the market pumped hard today".

Definition thirty_hours_ago : TrackingData :=
  tracking_of
    [(pumped, {| tr_text := pumped; tr_timestamp := - hours 30; tr_sources := [] |})].

Definition echo_runtime : Runtime :=
  runtime 0 (Ok (response_of "momentum" pumped)).

Definition echo_world : World :=
  world_of (Some thirty_hours_ago) None (Some [broad_article]).

(** A tracker whose only stored post has an empty text. *)
Definition blank_post : TweetRecord :=
  {| tr_text := EmptyString; tr_timestamp := 0; tr_sources := [] |}.

Definition blank_tracker : TrackerSt :=
  {| tracking_data := tracking_of [(EmptyString, blank_post)];
     world := world_of None None None |}.

(** An archive whose last post has an empty text. *)
Definition blank_archive_world : World :=
  world_of None (Some [archived "Layer2 fees fall again"; archived EmptyString])
    (Some [broad_article]).

(** A first run: the files have just been initialised, and the
    collaborator answers with a post-text line that holds one blank. *)
Definition first_run_world : World :=
  world_of None (Some []) (Some [broad_article]).

Definition blank_reply_runtime : Runtime :=
  offline_runtime 0 (Ok "TWEET:  ").

(** An archive with two posts that open with "Bitcoin", and a draft that
    does too. *)
Definition bitcoin_archive : list TweetData :=
  [archived "Bitcoin miners expand in Texas";
   archived "Bitcoin adoption climbs in Nigeria"].

Definition bitcoin_patterns : RecentPatterns :=
  {| rp_tokens := {[ "Bitcoin"%string ]};
     rp_phrases := {[ "bitcoin"%string ]};
     rp_themes := ∅ |}.

Definition bitcoin_runtime : Runtime :=
  runtime 0 (Ok (response_of "again" "Bitcoin wallets reach a new record")).

Definition bitcoin_state : TrackerSt :=
  {| tracking_data := empty_tracking_data;
     world := world_of None (Some bitcoin_archive) (Some [broad_article]) |}.

(** An archive whose last post mentions ETH, and an article about ETH. *)
Definition eth_archive : list TweetData :=
  [archived "Staking on ETH keeps growing"].

Definition eth_patterns : RecentPatterns :=
  {| rp_tokens := {[ "ETH"%string ]};
     rp_phrases := {[ "staking"%string ]};
     rp_themes := ∅ |}.

Definition eth_article : Article :=
  {| a_title := "ETH developers launch a new client";
     a_link := "https://example.org/eth";
     a_summary := "A release for the network" |}.


End Scenario.

(** ** Vocabulary of the further properties *)

(** The files after [save_archive] was tried with the tracking data [td]:
    the tracking file holds [td] when the disk can be written, and is
    what it was otherwise. *)
Definition saved (td : TrackingData) (d : Disk) : Disk :=
  if writable d then
    {| content_tracking_json := Some td;
       generated_tweets_json := generated_tweets_json d;
       article_summaries_json := article_summaries_json d;
       writable := writable d |}
  else d.

(** The data of a tracker after [track_token_mention(token)] at [now]. *)
Definition with_mention (token : string) (now : Z) (td : TrackingData)
    : TrackingData :=
  {| article_hashes := article_hashes td;
     token_mentions :=
       Dict.setitem token
         {| tm_last_mention := now;
            tm_mention_count :=
              match Dict.lookup token (token_mentions td) with
              | Some mention => tm_mention_count mention
              | None => 0
              end + 1 |}
         (token_mentions td);
     generated_tweets := generated_tweets td;
     topic_clusters := topic_clusters td |}.

(** The number of mentions on record for a token, 0 without a record. *)
Definition mention_count (token : string) (td : TrackingData) : Z :=
  match Dict.lookup token (token_mentions td) with
  | Some mention => tm_mention_count mention
  | None => 0
  end.

(** The data of a tracker after [track_generated_tweet(text, sources)]. *)
Definition with_tweet (key text : string) (sources : list Article) (now : Z)
    (td : TrackingData) : TrackingData :=
  {| article_hashes := article_hashes td;
     token_mentions := token_mentions td;
     generated_tweets :=
       Dict.setitem key
         {| tr_text := text; tr_timestamp := now; tr_sources := sources |}
         (generated_tweets td);
     topic_clusters := topic_clusters td |}.

(** The data of a tracker after [cleanup_old_data] with a cutoff. *)
Definition cleaned (cutoff : Z) (td : TrackingData) : TrackingData :=
  {| article_hashes :=
       Dict.filter_values (λ v, cutoff <? ar_timestamp v) (article_hashes td);
     token_mentions :=
       Dict.filter_values (λ v, cutoff <? tm_last_mention v) (token_mentions td);
     generated_tweets :=
       Dict.filter_values (λ v, cutoff <? tr_timestamp v) (generated_tweets td);
     topic_clusters := topic_clusters td |}.

(** [|a ∩ b| / |a ∪ b| > threshold], without the quotient. *)
Definition closer_than (threshold : Q) (a b : gset string) : Prop :=
  Qnum threshold * Z.of_nat (size (a ∪ b))
  < Z.of_nat (size (a ∩ b)) * Z.pos (Qden threshold).

(** The number of stored posts newer than [recent_cutoff] one of whose
    categories is [cat]. *)
Definition recent_uses (recent_cutoff : Z) (tweets : list TweetRecord)
    (cat : string) : nat :=
  length
    (List.filter
       (λ tweet, (recent_cutoff <? tr_timestamp tweet)
                 && bool_decide (cat ∈ _categorize_content (tr_text tweet)))
       tweets).

(** [category_counts[cat]], 0 for a category without a count. *)
Definition tally (cat : string) (counts : Dict.t Z) : Z :=
  default 0 (Dict.lookup cat counts).

(** The line feed, and the layout of a response that the instructions
    to the generation collaborator ask for: the reasoning on a line that
    starts with "REASONING: ", then the post on a line that starts with
    "TWEET: ". *)
Definition newline : string := String "010"%char EmptyString.

Definition labelled_response (reasoning tweet : string) : string :=
  ("REASONING: " +:+ reasoning) +:+ newline +:+ ("TWEET: " +:+ tweet).

(** A list in descending order of [key]. *)
Fixpoint descending {A} (key : A → Z) (l : list A) : Prop :=
  match l with
  | [] => True
  | x :: l' => Forall (λ y, key y <= key x) l' ∧ descending key l'
  end.

(** A tracking step: it ends without an exception and leaves the tweets
    archive, the state of the disk and the published posts alone. *)
Definition tracking_step (m : M TrackerSt ()) : Prop :=
  ∀ s, fst (m s) = Ok ()
       ∧ generated_tweets_json (disk (world (snd (m s))))
         = generated_tweets_json (disk (world s))
       ∧ writable (disk (world (snd (m s)))) = writable (disk (world s))
       ∧ posted (world (snd (m s))) = posted (world s).


(** *** Requests, the news feed, the summaries archive, the cache of posts *)

(** An answer to one attempt after which [_make_twitter_request] tries
    again, unless it was the last attempt. *)
Definition retried {V} (o : TwitterAPI.attempt_outcome V) : bool :=
  match o with
  | TwitterAPI.ConnectionError
  | TwitterAPI.TooManyRequests
  | TwitterAPI.TwitterServerError => true
  | _ => false
  end.

(** Attempt [k] is made: every attempt before it was tried again. *)
Definition reached {V} (request : nat → TwitterAPI.attempt_outcome V)
    (k : nat) : Prop :=
  ∀ j, (j < k)%nat → retried (request j) = true.

(** The attempt that settles a request, and how: the first one that is
    not tried again. *)
Definition settles {V} (max_retries : nat)
    (request : nat → TwitterAPI.attempt_outcome V)
    (k : nat) (o : TwitterAPI.attempt_outcome V) : Prop :=
  (k < max_retries)%nat ∧ reached request k ∧ request k = o
  ∧ (retried o = true → S k = max_retries ∧ o = TwitterAPI.ConnectionError).


(** The entry that [fetch_and_generate_summaries] archives for an
    article and its summary. *)
Definition summary_item (article : Summaries.NewsItem) (summary : string)
    : Summaries.SummaryItem :=
  {| Summaries.s_title := Summaries.n_title article;
     Summaries.s_link := Summaries.n_link article;
     Summaries.s_published := Summaries.n_published article;
     Summaries.s_summary := summary |}.

(** The two lists of a summaries archive go in step: the processed
    links are the links of the items, in order. *)
Definition in_step (archive : Summaries.SummariesArchive) : Prop :=
  map Summaries.s_link (Summaries.items archive)
  = Summaries.processed_urls archive.

(** An entry that a run may add to the archive [archive] from the feed
    [all_news]: made from an article of the feed whose link was not
    processed, with a summary that is not empty. *)
Definition fresh_item (all_news : list Summaries.NewsItem)
    (archive : Summaries.SummariesArchive) (item : Summaries.SummaryItem)
    : Prop :=
  ∃ article summary,
    article ∈ all_news
    ∧ Summaries.url_in (Summaries.n_link article)
        (Summaries.processed_urls archive) = false
    ∧ PyStr.truthy summary = true
    ∧ item = summary_item article summary.

(** A feed of two articles, a summariser that answers every call, one
    that answers none, and the archive of a first start. *)
Module Feed.

Definition story (title link : string) : Summaries.NewsItem :=
  {| Summaries.n_title := title;
     Summaries.n_link := link;
     Summaries.n_published := "Tue, 03 Nov 2026 09:00:00 +0000";
     Summaries.n_content := "Details of " +:+ title |}.

Definition news : list Summaries.NewsItem :=
  [story "Layer2 fees keep falling" "https://news.example/fees";
   story "Spot ETF inflows slow" "https://news.example/etf"].

(** The feed entry that gives the story, with [clean_html] doing
    nothing and every time stamp recent. *)
Definition entry_of (article : Summaries.NewsItem) : Summaries.FeedEntry :=
  {| Summaries.e_published := Some (Summaries.n_published article);
     Summaries.e_updated := None;
     Summaries.e_title := Some (Summaries.n_title article);
     Summaries.e_link := Some (Summaries.n_link article);
     Summaries.e_content := None;
     Summaries.e_summary := Some (Summaries.n_content article) |}.

Definition entries : list Summaries.FeedEntry := map entry_of news.

Definition plain (raw_html : string) : string := raw_html.

Definition always_recent (i : nat) (published : string) : bool := true.

Definition summariser (i : nat) (article : Summaries.NewsItem)
    : option string :=
  Some ("Summary: " +:+ Summaries.n_title article).

Definition silent (i : nat) (article : Summaries.NewsItem) : option string :=
  None.

Definition first_archive : Summaries.SummariesArchive :=
  {| Summaries.processed_urls := []; Summaries.items := [] |}.

Definition first_disk : Summaries.SummariesDisk :=
  {| Summaries.summaries_json := Some first_archive;
     Summaries.summaries_writable := true |}.

End Feed.

(** The item [item] is made from entry number [i] of [entries]: the
    entry has a time stamp, the recency test accepted it, and the item
    carries the cleaned title, the link and the time stamp. *)
Definition made_from (clean_html : string → string)
    (is_within_last_24_hours : nat → string → bool)
    (entries : list Summaries.FeedEntry) (i : nat)
    (item : Summaries.NewsItem) : Prop :=
  ∃ entry raw_title,
    entries !! i = Some entry
    ∧ Summaries.published_time entry = Some (Summaries.n_published item)
    ∧ PyStr.truthy (Summaries.n_published item) = true
    ∧ is_within_last_24_hours i (Summaries.n_published item) = true
    ∧ Summaries.e_title entry = Some raw_title
    ∧ Summaries.n_title item = clean_html raw_title
    ∧ Summaries.e_link entry = Some (Summaries.n_link item).

(** An entry with the two attributes that the loop reads unguarded. *)
Definition complete_entry (entry : Summaries.FeedEntry) : Prop :=
  is_Some (Summaries.e_title entry) ∧ is_Some (Summaries.e_link entry).

(** Newest first: no post is newer than one before it, by the order of
    [str] on ['created_at']. *)
Fixpoint newest_first (l : list TweetCache.CachedTweet) : Prop :=
  match l with
  | [] => True
  | x :: l' =>
      Forall (λ y, String.leb (TweetCache.ct_created_at y)
                     (TweetCache.ct_created_at x) = true) l'
      ∧ newest_first l'
  end.

(** A post that [update_user_tweets] may keep for a user whose cached
    posts are [current]: one of these, or one of [new_tweets] whose id
    none of these has. *)
Definition candidate (current new_tweets : list TweetCache.CachedTweet)
    (tweet : TweetCache.CachedTweet) : Prop :=
  tweet ∈ current
  ∨ (tweet ∈ new_tweets
     ∧ TweetCache.ct_id tweet ∉ map TweetCache.ct_id current).

(* ===================================================================== *)
(** * Properties *)
(* ===================================================================== *)

(** ** Strings *)

Lemma app_empty (s : string) : EmptyString +:+ s = s.
Proof. reflexivity. Qed.

Lemma app_String (c : ascii) (s t : string) :
  String c s +:+ t = String c (s +:+ t).
Proof. reflexivity. Qed.

Lemma startswith_app (p s : string) : startswith (p +:+ s) p = true.
Proof.
  induction p as [|a p IH]; [done|].
  rewrite app_String. simpl. by rewrite Ascii.eqb_refl.
Qed.

Lemma startswith_inv (s p : string) :
  startswith s p = true → ∃ post, s = p +:+ post.
Proof.
  revert s. induction p as [|a p IH]; intros s H; simpl in *.
  - by exists s.
  - destruct s as [|b s]; [done|].
    destruct (Ascii.eqb a b) eqn:E; [|done].
    apply Ascii.eqb_eq in E as ->.
    destruct (IH _ H) as [post ->]. by exists post.
Qed.

Lemma str_in_here (p s : string) :
  startswith s p = true → str_in p s = true.
Proof. destruct s; simpl; by intros ->. Qed.

(** [p in s] holds exactly when [s] reads [pre ++ p ++ post]. *)
Lemma str_in_spec (p s : string) :
  str_in p s = true ↔ ∃ pre post, s = pre +:+ p +:+ post.
Proof.
  split.
  - induction s as [|c s IH]; simpl; intros H.
    + apply orb_true_iff in H as [H|H]; [|done].
      apply startswith_inv in H as [post ->]. by exists EmptyString, post.
    + apply orb_true_iff in H as [H|H].
      * apply startswith_inv in H as [post ->]. by exists EmptyString, post.
      * destruct (IH H) as (pre & post & ->). by exists (String c pre), post.
  - intros (pre & post & ->).
    induction pre as [|c pre IH].
    + rewrite app_empty. apply str_in_here, startswith_app.
    + rewrite app_String. simpl. rewrite IH. apply orb_true_r.
Qed.

Lemma lower_app (s t : string) : lower (s +:+ t) = lower s +:+ lower t.
Proof.
  induction s as [|c s IH]; [done|].
  rewrite app_String. simpl. by rewrite IH.
Qed.

(** A case-sensitive occurrence is also a case-insensitive one. *)
Lemma str_in_lower (p s : string) :
  str_in p s = true → str_in (lower p) (lower s) = true.
Proof.
  rewrite !str_in_spec. intros (pre & post & ->).
  exists (lower pre), (lower post). by rewrite !lower_app.
Qed.

(** ** Dictionaries: reading after writing *)

Lemma dict_lookup_setitem_eq {V} (k : string) (v : V) (d : Dict.t V) :
  Dict.lookup k (Dict.setitem k v d) = Some v.
Proof.
  induction d as [|[k' v'] d IH]; simpl.
  - by rewrite String.eqb_refl.
  - destruct (String.eqb k k') eqn:E; simpl; rewrite ?String.eqb_refl, ?E; done.
Qed.

(** ** Dictionaries *)

Lemma lookup_Some_elem {V} (k : string) (v : V) (d : Dict.t V) :
  Dict.lookup k d = Some v → (k, v) ∈ d.
Proof.
  induction d as [|[k' v'] d IH]; simpl; [done|].
  destruct (String.eqb k k') eqn:E.
  - apply String.eqb_eq in E as ->. intros [= ->]. left.
  - intros H. right. by apply IH.
Qed.

Lemma elem_lookup_Some {V} (k : string) (v : V) (d : Dict.t V) :
  NoDup (Dict.keys d) → (k, v) ∈ d → Dict.lookup k d = Some v.
Proof.
  induction d as [|[k' v'] d IH]; simpl; intros Hnd Hin.
  - by apply elem_of_nil in Hin.
  - apply NoDup_cons in Hnd as [Hk Hnd].
    apply elem_of_cons in Hin as [[= <- <-]|Hin].
    + by rewrite String.eqb_refl.
    + destruct (String.eqb k k') eqn:E; [|by apply IH].
      apply String.eqb_eq in E as <-. exfalso. apply Hk.
      apply list_elem_of_fmap. by exists (k, v).
Qed.

Lemma CATEGORIES_keys_NoDup : NoDup (Dict.keys CATEGORIES).
Proof. apply (bool_decide_unpack _). by vm_compute. Qed.

(** ** Category Classifier *)

Lemma any_keyword_in_spec (keywords : list string) (text_lower : string) :
  any_keyword_in keywords text_lower = true
  ↔ ∃ keyword, keyword ∈ keywords ∧ str_in keyword text_lower = true.
Proof.
  unfold any_keyword_in. rewrite existsb_exists.
  split; intros (kw & H1 & H2); exists kw; split; try done;
    by apply list_elem_of_In.
Qed.

Lemma categorize_fold (table : Dict.t (list string)) (text_lower : string)
    (acc : gset string) (c : string) :
  c ∈ fold_left
        (λ (categories : gset string) (item : string * list string),
           let '(category, keywords) := item in
           if any_keyword_in keywords text_lower
           then categories ∪ {[ category ]}
           else categories)
        table acc
  ↔ c ∈ acc ∨ ∃ keywords, (c, keywords) ∈ table
                          ∧ any_keyword_in keywords text_lower = true.
Proof.
  revert acc. induction table as [|[category keywords] table IH]; intros acc; simpl.
  - split; [by left|]. intros [H|(kws & H & _)]; [done|].
    by apply elem_of_nil in H.
  - rewrite IH. destruct (any_keyword_in keywords text_lower) eqn:E.
    + split.
      * intros [H|(kws & H1 & H2)].
        -- apply elem_of_union in H as [H|H]; [by left|].
           apply elem_of_singleton in H as ->. right. exists keywords.
           split; [left|done].
        -- right. exists kws. split; [by right|done].
      * intros [H|(kws & H1 & H2)].
        -- left. apply elem_of_union. by left.
        -- apply elem_of_cons in H1 as [[= -> ->]|H1].
           ++ left. apply elem_of_union. right. by apply elem_of_singleton.
           ++ right. by exists kws.
    + split.
      * intros [H|(kws & H1 & H2)]; [by left|].
        right. exists kws. split; [by right|done].
      * intros [H|(kws & H1 & H2)]; [by left|].
        apply elem_of_cons in H1 as [[= -> ->]|H1]; [congruence|].
        right. by exists kws.
Qed.

Lemma categorize_elem (text c : string) :
  c ∈ _categorize_content text
  ↔ ∃ keywords, (c, keywords) ∈ CATEGORIES
                ∧ any_keyword_in keywords (lower text) = true.
Proof.
  unfold _categorize_content. rewrite categorize_fold.
  split; [intros [H|H]; [set_solver|done] | by right].
Qed.

(** Every keyword of the table is written in lower case. *)
Lemma CATEGORIES_lower_case (c : string) (keywords : list string) (keyword : string) :
  (c, keywords) ∈ CATEGORIES → keyword ∈ keywords → lower keyword = keyword.
Proof.
  intros Hc Hk. unfold CATEGORIES in Hc.
  repeat (apply elem_of_cons in Hc as [[= -> ->]|Hc];
          [repeat (apply elem_of_cons in Hk as [->|Hk]; [reflexivity|]);
           by apply elem_of_nil in Hk|]).
  by apply elem_of_nil in Hc.
Qed.

(** C4.  [_categorize_content] is a function of the text alone; what it
    returns is a subset of the eight keys of [CATEGORIES]; a category is
    in it exactly when one of its keywords occurs in the text, case
    ignored; and the empty text has no category. *)
Theorem categorize_content_spec (text : string) :
  length (Dict.keys CATEGORIES) = 8%nat
  ∧ _categorize_content text ⊆ list_to_set (Dict.keys CATEGORIES)
  ∧ (∀ category keywords,
       Dict.lookup category CATEGORIES = Some keywords →
       (category ∈ _categorize_content text
        ↔ ∃ keyword, keyword ∈ keywords ∧ occurs_ci keyword text))
  ∧ _categorize_content EmptyString = ∅.
Proof.
  split; [reflexivity|]. split; [|split].
  - intros c Hc. apply categorize_elem in Hc as (kws & Hin & _).
    apply elem_of_list_to_set, list_elem_of_fmap. by exists (c, kws).
  - intros category keywords Hlook. rewrite categorize_elem. split.
    + intros (kws & Hin & Hany).
      apply (elem_lookup_Some _ _ _ CATEGORIES_keys_NoDup) in Hin as Hl.
      rewrite Hlook in Hl. injection Hl as <-.
      apply any_keyword_in_spec in Hany as (kw & Hkw & Hstr).
      exists kw. split; [done|]. unfold occurs_ci.
      rewrite (CATEGORIES_lower_case _ _ _ Hin Hkw).
      by apply str_in_spec.
    + intros (kw & Hkw & Hocc). exists keywords.
      apply lookup_Some_elem in Hlook as Hin. split; [done|].
      apply any_keyword_in_spec. exists kw. split; [done|].
      unfold occurs_ci in Hocc.
      rewrite (CATEGORIES_lower_case _ _ _ Hin Hkw) in Hocc.
      by apply str_in_spec.
  - by vm_compute.
Qed.

(** ** Freshness Tracker: fresh categories *)

Lemma used_categories_fold (recent_cutoff : Z) (tweets : list TweetRecord)
    (acc : gset string) (c : string) :
  c ∈ fold_left
        (λ (used : gset string) tweet,
           if recent_cutoff <? tr_timestamp tweet
           then used ∪ _categorize_content (tr_text tweet)
           else used)
        tweets acc
  ↔ c ∈ acc ∨ ∃ tweet, tweet ∈ tweets
                       ∧ recent_cutoff < tr_timestamp tweet
                       ∧ c ∈ _categorize_content (tr_text tweet).
Proof.
  revert acc. induction tweets as [|tweet tweets IH]; intros acc; simpl.
  - split; [by left|]. intros [H|(tw & H & _)]; [done|].
    by apply elem_of_nil in H.
  - rewrite IH. destruct (Z.ltb_spec recent_cutoff (tr_timestamp tweet)) as [Hlt|Hge].
    + split.
      * intros [H|(tw & H1 & H2)].
        -- apply elem_of_union in H as [H|H]; [by left|].
           right. exists tweet. split; [left|done].
        -- right. exists tw. split; [by right|done].
      * intros [H|(tw & H1 & H2 & H3)].
        -- left. apply elem_of_union. by left.
        -- apply elem_of_cons in H1 as [->|H1].
           ++ left. apply elem_of_union. by right.
           ++ right. by exists tw.
    + split.
      * intros [H|(tw & H1 & H2)]; [by left|].
        right. exists tw. split; [by right|done].
      * intros [H|(tw & H1 & H2 & H3)]; [by left|].
        apply elem_of_cons in H1 as [->|H1]; [lia|].
        right. by exists tw.
Qed.

Lemma used_categories_spec (recent_cutoff : Z) (tweets : list TweetRecord)
    (c : string) :
  c ∈ used_categories recent_cutoff tweets
  ↔ ∃ tweet, tweet ∈ tweets
             ∧ recent_cutoff < tr_timestamp tweet
             ∧ c ∈ _categorize_content (tr_text tweet).
Proof.
  unfold used_categories. rewrite used_categories_fold.
  split; [intros [H|H]; [by apply not_elem_of_empty in H|done] | by right].
Qed.

Lemma get_fresh_categories_run (rt : Runtime) (s : TrackerSt) :
  ∃ s', get_fresh_categories rt s
        = (Ok (list_to_set (Dict.keys CATEGORIES)
               ∖ used_categories (clock rt (ticks (world s)) - hours 24)
                   (Dict.values (generated_tweets (tracking_data s)))), s')
        ∧ store s' = store s.
Proof.
  destruct s as [td [d p t]].
  unfold get_fresh_categories, bind, datetime_now, gets, ret. simpl.
  eexists. split; reflexivity.
Qed.

(** C5.  At the time [now] read from the clock, [get_fresh_categories]
    returns the keys of [CATEGORIES] less the categories of the stored
    posts whose timestamp is later than [now] minus 24 hours: all the keys
    when there is no such post, and no category of such a post. *)
Theorem get_fresh_categories_spec (rt : Runtime) (s : TrackerSt) :
  let now := clock rt (ticks (world s)) in
  let tweets := Dict.values (generated_tweets (tracking_data s)) in
  let in_window (tweet : TweetRecord) := now - hours 24 < tr_timestamp tweet in
  ∃ fresh : gset string,
    fst (get_fresh_categories rt s) = Ok fresh
    ∧ (∀ c, c ∈ fresh
            ↔ c ∈ Dict.keys CATEGORIES
              ∧ ¬ ∃ tweet, tweet ∈ tweets ∧ in_window tweet
                           ∧ c ∈ _categorize_content (tr_text tweet))
    ∧ ((∀ tweet, tweet ∈ tweets → ¬ in_window tweet)
       → fresh = list_to_set (Dict.keys CATEGORIES))
    ∧ (∀ tweet c, tweet ∈ tweets → in_window tweet →
                  c ∈ _categorize_content (tr_text tweet) → c ∉ fresh).
Proof.
  intros now tweets in_window.
  destruct (get_fresh_categories_run rt s) as (s' & Hrun & _).
  eexists. split; [by rewrite Hrun|].
  fold now tweets.
  assert (Hiff : ∀ c,
    c ∈ (list_to_set (Dict.keys CATEGORIES) ∖ used_categories (now - hours 24) tweets
         : gset string)
    ↔ c ∈ Dict.keys CATEGORIES
      ∧ ¬ ∃ tweet, tweet ∈ tweets ∧ in_window tweet
                   ∧ c ∈ _categorize_content (tr_text tweet)).
  { intros c. rewrite elem_of_difference, elem_of_list_to_set.
    by rewrite used_categories_spec. }
  split; [exact Hiff|]. split.
  - intros Hnone. apply set_eq. intros c. rewrite Hiff.
    rewrite elem_of_list_to_set. split; [by intros [? _]|].
    intros Hc. split; [done|]. intros (tw & Hin & Hw & _).
    by apply (Hnone tw).
  - intros tweet c Hin Hw Hc Hfresh. apply Hiff in Hfresh as [_ Hno].
    apply Hno. by exists tweet.
Qed.

(** ** Freshness Tracker: the queries change nothing *)

Ltac run_tracker :=
  unfold bind, gets, ret, raise, lift_result, modify, try_except, datetime_now;
  simpl.

Lemma is_article_processed_frame (rt : Runtime) (article : Article) (s : TrackerSt) :
  store (snd (is_article_processed rt article s)) = store s.
Proof.
  destruct s as [td [d p t]]. unfold is_article_processed. run_tracker.
  destruct (Dict.lookup _ _); [|reflexivity]. simpl.
  by destruct (_ <? _).
Qed.

Lemma get_fresh_categories_frame (rt : Runtime) (s : TrackerSt) :
  store (snd (get_fresh_categories rt s)) = store s.
Proof.
  destruct (get_fresh_categories_run rt s) as (s' & -> & Hs). exact Hs.
Qed.

Lemma is_topic_overused_frame (rt : Runtime) (article : Article) (s : TrackerSt) :
  store (snd (is_topic_overused rt article s)) = store s.
Proof. destruct s as [td [d p t]]. reflexivity. Qed.

Lemma is_token_recently_mentioned_frame (rt : Runtime) (token : string)
    (hours_ : Z) (s : TrackerSt) :
  store (snd (is_token_recently_mentioned rt token hours_ s)) = store s.
Proof.
  destruct s as [td [d p t]]. unfold is_token_recently_mentioned. run_tracker.
  by destruct (Dict.lookup _ _).
Qed.

Lemma is_tweet_similar_run (rt : Runtime) (tweet_text : string)
    (similarity_threshold : Q) (s : TrackerSt) :
  ∃ s', is_tweet_similar rt tweet_text similarity_threshold s
        = (similar_to_any (token_set tweet_text)
             (clock rt (ticks (world s)) - hours 48) similarity_threshold
             (Dict.values (generated_tweets (tracking_data s))), s')
        ∧ store s' = store s.
Proof.
  destruct s as [td [d p t]]. unfold is_tweet_similar. run_tracker.
  eexists. split; reflexivity.
Qed.

Lemma is_tweet_similar_frame (rt : Runtime) (tweet_text : string)
    (similarity_threshold : Q) (s : TrackerSt) :
  store (snd (is_tweet_similar rt tweet_text similarity_threshold s)) = store s.
Proof.
  destruct (is_tweet_similar_run rt tweet_text similarity_threshold s)
    as (s' & -> & Hs). exact Hs.
Qed.

(** C10.  Each query of the tracker ends, with a value or an exception,
    in a state whose store is the store it started from: the tracker's
    data, the files and the published posts are the same. *)
Theorem queries_leave_store_unchanged (rt : Runtime) (s : TrackerSt) :
  (∀ article, store (snd (is_article_processed rt article s)) = store s)
  ∧ store (snd (get_fresh_categories rt s)) = store s
  ∧ (∀ article, store (snd (is_topic_overused rt article s)) = store s)
  ∧ (∀ token hours_,
       store (snd (is_token_recently_mentioned rt token hours_ s)) = store s)
  ∧ (∀ tweet_text similarity_threshold,
       store (snd (is_tweet_similar rt tweet_text similarity_threshold s)) = store s).
Proof.
  split; [|split; [|split; [|split]]]; intros.
  - apply is_article_processed_frame.
  - apply get_fresh_categories_frame.
  - apply is_topic_overused_frame.
  - apply is_token_recently_mentioned_frame.
  - apply is_tweet_similar_frame.
Qed.

(** ** Freshness Tracker: processed content *)

Lemma track_article_run (rt : Runtime) (article : Article) (s : TrackerSt) :
  ∃ s', track_article rt article s = (Ok (), s')
        ∧ article_hashes (tracking_data s')
          = Dict.setitem
              (_generate_content_hash rt (a_title article +:+ a_summary article))
              {| ar_title := a_title article;
                 ar_url := a_link article;
                 ar_summary := a_summary article;
                 ar_timestamp := clock rt (ticks (world s)) |}
              (article_hashes (tracking_data s)).
Proof.
  destruct s as [td [d p t]].
  unfold track_article, _save_tracking_data, save_archive_tracking. run_tracker.
  destruct (writable d); simpl; eexists; split; reflexivity.
Qed.

(** C6.  Two texts with the same lower-cased form have the same hash.
    After [track_article] has recorded [article] at time [tracked_at],
    and as long as the tracker's data is what that call left,
    [is_article_processed] of an article with the same lower-cased
    title+summary, asked at time [now], is true while fewer than 48 hours
    separate [now] from [tracked_at], and false from 48 hours on. *)
Theorem tracked_article_is_processed (rt : Runtime) (article article' : Article)
    (s s2 : TrackerSt) :
  lower (a_title article' +:+ a_summary article')
  = lower (a_title article +:+ a_summary article) →
  tracking_data s2 = tracking_data (snd (track_article rt article s)) →
  let tracked_at := clock rt (ticks (world s)) in
  let now := clock rt (ticks (world s2)) in
  _generate_content_hash rt (a_title article' +:+ a_summary article')
  = _generate_content_hash rt (a_title article +:+ a_summary article)
  ∧ (now - tracked_at < hours 48 →
     fst (is_article_processed rt article' s2) = Ok true)
  ∧ (hours 48 <= now - tracked_at →
     fst (is_article_processed rt article' s2) = Ok false).
Proof.
  intros Hlower Hdata tracked_at now.
  assert (Hhash : _generate_content_hash rt (a_title article' +:+ a_summary article')
                  = _generate_content_hash rt (a_title article +:+ a_summary article)).
  { unfold _generate_content_hash. by rewrite Hlower. }
  split; [exact Hhash|].
  destruct (track_article_run rt article s) as (s1 & Hrun & Hhashes).
  rewrite Hrun in Hdata. simpl in Hdata.
  assert (Hq : fst (is_article_processed rt article' s2)
               = Ok (now - tracked_at <? hours 48)).
  { unfold is_article_processed. rewrite Hhash.
    unfold bind at 1, gets at 1. rewrite Hdata, Hhashes.
    rewrite dict_lookup_setitem_eq. simpl.
    destruct s2 as [td2 [d2 p2 t2]]. run_tracker.
    subst now tracked_at. simpl.
    by destruct (_ <? _). }
  rewrite Hq. split; intros H.
  - by apply Z.ltb_lt in H as ->.
  - by apply Z.ltb_ge in H as ->.
Qed.

(** ** Similarity Guard: a candidate without words *)

Lemma jaccard_empty_l (b : gset string) :
  jaccard ∅ b = Raise ZeroDivisionError
  ∨ ∃ den, jaccard ∅ b = Ok (0 # den).
Proof.
  unfold jaccard.
  rewrite (left_id_L ∅ (∪) b), (left_absorb_L ∅ (∩) b), size_empty.
  destruct (size b); [by left|]. right. by eexists.
Qed.

Lemma Qle_bool_zero (den : positive) (q : Q) :
  Qle 0 q → Qle_bool (0 # den) q = true.
Proof.
  intros H. apply Qle_bool_iff. unfold Qle in *. simpl in *. lia.
Qed.

Lemma similar_to_any_wordless (recent_cutoff : Z) (similarity_threshold : Q)
    (stored : list TweetRecord) (tweet : TweetRecord) :
  Qle 0 similarity_threshold →
  tweet ∈ stored →
  recent_cutoff <= tr_timestamp tweet →
  token_set (tr_text tweet) = ∅ →
  similar_to_any ∅ recent_cutoff similarity_threshold stored
  = Raise ZeroDivisionError.
Proof.
  intros Hthr Hin Hts Htok.
  induction stored as [|tw stored IH]; [by apply elem_of_nil in Hin|].
  simpl. destruct (Z.ltb_spec (tr_timestamp tw) recent_cutoff) as [Hold|Hnew].
  - apply elem_of_cons in Hin as [->|Hin]; [lia|]. by apply IH.
  - destruct (jaccard_empty_l (token_set (tr_text tw))) as [->|[den Hj]]; [done|].
    rewrite Hj, (Qle_bool_zero _ _ Hthr). simpl.
    apply elem_of_cons in Hin as [->|Hin]; [|by apply IH].
    unfold jaccard in Hj. rewrite Htok in Hj.
    rewrite (left_id_L ∅ (∪)), size_empty in Hj. discriminate.
Qed.

(** C2.  What the code does on two empty token sets: when the candidate
    has no word and some stored post of the last 48 hours has none
    either, [is_tweet_similar] ends with [ZeroDivisionError], for every
    threshold that is not negative. *)
Theorem is_tweet_similar_divides_by_zero (rt : Runtime) (tweet_text : string)
    (similarity_threshold : Q) (s : TrackerSt) (stored : TweetRecord) :
  token_set tweet_text = ∅ →
  Qle 0 similarity_threshold →
  stored ∈ Dict.values (generated_tweets (tracking_data s)) →
  clock rt (ticks (world s)) - hours 48 <= tr_timestamp stored →
  token_set (tr_text stored) = ∅ →
  fst (is_tweet_similar rt tweet_text similarity_threshold s)
  = Raise ZeroDivisionError.
Proof.
  intros Hcand Hthr Hin Hts Htok.
  destruct (is_tweet_similar_run rt tweet_text similarity_threshold s)
    as (s' & -> & _).
  simpl. rewrite Hcand.
  by apply (similar_to_any_wordless _ _ _ stored).
Qed.

(** ** Selection loop: recent patterns and the article filter *)

Lemma add_tokens_fold (text : string) (tracked : list string)
    (acc : gset string) (token : string) :
  token ∈ fold_left
            (λ (acc : gset string) token,
               if str_in (lower token) (lower text) then acc ∪ {[ token ]} else acc)
            tracked acc
  ↔ token ∈ acc
    ∨ (token ∈ tracked ∧ str_in (lower token) (lower text) = true).
Proof.
  revert acc. induction tracked as [|tk tracked IH]; intros acc; simpl.
  - split; [by left|]. intros [H|[H _]]; [done|]. by apply elem_of_nil in H.
  - rewrite IH. destruct (str_in (lower tk) (lower text)) eqn:E.
    + split.
      * intros [H|[H1 H2]].
        -- apply elem_of_union in H as [H|H]; [by left|].
           apply elem_of_singleton in H as ->. right. split; [left|done].
        -- right. split; [by right|done].
      * intros [H|[H1 H2]].
        -- left. apply elem_of_union. by left.
        -- apply elem_of_cons in H1 as [->|H1].
           ++ left. apply elem_of_union. right. by apply elem_of_singleton.
           ++ by right.
    + split.
      * intros [H|[H1 H2]]; [by left|]. right. split; [by right|done].
      * intros [H|[H1 H2]]; [by left|].
        apply elem_of_cons in H1 as [->|H1]; [congruence|]. by right.
Qed.

Lemma add_tokens_spec (text : string) (acc : gset string) (token : string) :
  token ∈ add_tokens text acc
  ↔ token ∈ acc
    ∨ (token ∈ TRACKED_TOKENS ∧ str_in (lower token) (lower text) = true).
Proof. apply add_tokens_fold. Qed.

Lemma patterns_from_Raise (e : exn) (tweets : list TweetData) :
  patterns_from (Raise e) tweets = Raise e.
Proof. induction tweets as [|tw tweets IH]; [done|]. exact IH. Qed.

Lemma add_patterns_Ok (rp rp' : RecentPatterns) (tweet : TweetData) :
  add_patterns rp tweet = Ok rp' →
  rp_tokens rp' = add_tokens (td_tweet tweet) (rp_tokens rp)
  ∧ ∃ first_word rest, split (td_tweet tweet) = first_word :: rest
                       ∧ rp_phrases rp' = rp_phrases rp ∪ {[ lower first_word ]}.
Proof.
  unfold add_patterns. destruct (split (td_tweet tweet)) as [|w ws]; [done|].
  intros [= <-]. simpl. split; [done|]. by exists w, ws.
Qed.

Lemma patterns_from_Ok (rp0 rp : RecentPatterns) (tweets : list TweetData) :
  patterns_from (Ok rp0) tweets = Ok rp →
  rp_tokens rp0 ⊆ rp_tokens rp
  ∧ rp_phrases rp0 ⊆ rp_phrases rp
  ∧ ∀ tweet, tweet ∈ tweets →
      (∀ token, token ∈ TRACKED_TOKENS →
                str_in (lower token) (lower (td_tweet tweet)) = true →
                token ∈ rp_tokens rp)
      ∧ ∃ first_word rest, split (td_tweet tweet) = first_word :: rest
                           ∧ lower first_word ∈ rp_phrases rp.
Proof.
  revert rp0. induction tweets as [|tw tweets IH]; intros rp0; simpl.
  - intros [= ->]. split; [done|]. split; [done|].
    intros tweet H. by apply elem_of_nil in H.
  - destruct (add_patterns rp0 tw) as [rp1|e] eqn:E.
    2:{ fold (patterns_from (Raise e) tweets). by rewrite patterns_from_Raise. }
    intros Hrest. fold (patterns_from (Ok rp1) tweets) in Hrest.
    destruct (IH _ Hrest) as (Htok & Hphr & Hall).
    destruct (add_patterns_Ok _ _ _ E) as (Htok1 & w & ws & Hsplit & Hphr1).
    split; [|split].
    + intros token Hin. apply Htok. rewrite Htok1. apply add_tokens_spec. by left.
    + intros phrase Hin. apply Hphr. rewrite Hphr1. apply elem_of_union. by left.
    + intros tweet Hin. apply elem_of_cons in Hin as [->|Hin]; [|by apply Hall].
      split.
      * intros token Htr Hstr. apply Htok. rewrite Htok1.
        apply add_tokens_spec. by right.
      * exists w, ws. split; [done|]. apply Hphr. rewrite Hphr1.
        apply elem_of_union. right. by apply elem_of_singleton.
Qed.

Lemma mentions_recent_token_true (rp : RecentPatterns) (text : string) :
  mentions_recent_token rp text = true
  ↔ ∃ token, token ∈ rp_tokens rp ∧ str_in (lower token) (lower text) = true.
Proof.
  unfold mentions_recent_token. rewrite existsb_exists.
  split; intros (token & H1 & H2); exists token; split; try done.
  - by apply elem_of_elements, list_elem_of_In.
  - by apply list_elem_of_In, elem_of_elements.
Qed.

(** C7.  With the patterns [rp] of the last five archived posts, an
    article is kept for a focus category exactly when it is a candidate,
    the focus category is among the categories of its title and summary,
    and its title mentions no token of [rp]; and a tracked token that a
    post among the last five mentions is mentioned by the title of no
    kept article, whether "mentions" ignores case (as the code does) or
    asks for the token as it is written. *)
Theorem filter_articles_spec (previous_tweets : list TweetData)
    (rp : RecentPatterns) (focus_category : string) (articles : list Article) :
  recent_patterns previous_tweets = Ok rp →
  (∀ article,
     article ∈ filter_articles focus_category rp articles
     ↔ article ∈ articles
       ∧ focus_category
         ∈ _categorize_content (a_title article +:+ " " +:+ a_summary article)
       ∧ ∀ token, token ∈ rp_tokens rp →
                  str_in (lower token) (lower (a_title article)) = false)
  ∧ (∀ tweet token article,
       tweet ∈ last_n 5 previous_tweets →
       token ∈ TRACKED_TOKENS →
       str_in (lower token) (lower (td_tweet tweet)) = true →
       str_in (lower token) (lower (a_title article)) = true →
       article ∉ filter_articles focus_category rp articles)
  ∧ (∀ tweet token article,
       tweet ∈ last_n 5 previous_tweets →
       token ∈ TRACKED_TOKENS →
       str_in token (td_tweet tweet) = true →
       str_in token (a_title article) = true →
       article ∉ filter_articles focus_category rp articles).
Proof.
  intros Hrp.
  assert (Hiff : ∀ article,
     article ∈ filter_articles focus_category rp articles
     ↔ article ∈ articles
       ∧ focus_category
         ∈ _categorize_content (a_title article +:+ " " +:+ a_summary article)
       ∧ ∀ token, token ∈ rp_tokens rp →
                  str_in (lower token) (lower (a_title article)) = false).
  { intros article. unfold filter_articles.
    rewrite !list_elem_of_In, filter_In, andb_true_iff, negb_true_iff.
    rewrite bool_decide_eq_true. split.
    - intros (Hin & Hcat & Hno). repeat split; try done.
      intros token Htok. destruct (str_in _ _) eqn:E; [|done].
      assert (mentions_recent_token rp (a_title article) = true) as Hm
        by (apply mentions_recent_token_true; by exists token).
      congruence.
    - intros (Hin & Hcat & Hno). repeat split; try done.
      destruct (mentions_recent_token rp (a_title article)) eqn:E; [|done].
      apply mentions_recent_token_true in E as (token & Htok & Hstr).
      rewrite (Hno _ Htok) in Hstr. discriminate. }
  split; [exact Hiff|].
  assert (Hout : ∀ tweet token article,
       tweet ∈ last_n 5 previous_tweets →
       token ∈ TRACKED_TOKENS →
       str_in (lower token) (lower (td_tweet tweet)) = true →
       str_in (lower token) (lower (a_title article)) = true →
       article ∉ filter_articles focus_category rp articles).
  { intros tweet token article Hin Htr Hpost Htitle Hkept.
    apply Hiff in Hkept as (_ & _ & Hno).
    apply patterns_from_Ok in Hrp as (_ & _ & Hall).
    destruct (Hall _ Hin) as [Htok _].
    rewrite (Hno token (Htok _ Htr Hpost)) in Htitle. discriminate. }
  split; [exact Hout|].
  intros tweet token article Hin Htr Hpost Htitle.
  apply (Hout tweet token article Hin Htr); by apply str_in_lower.
Qed.

(** ** Selection loop: validation of a draft *)

Lemma startswith_refl (p : string) : startswith p p = true.
Proof. induction p as [|a p IH]; simpl; [done|]. by rewrite Ascii.eqb_refl. Qed.

Lemma str_in_refl (p : string) : str_in p p = true.
Proof. apply str_in_here, startswith_refl. Qed.

Lemma truthy_true (s : string) : truthy s = true → s ≠ EmptyString.
Proof. by destruct s. Qed.

Lemma any_result_Ok {A} (g : A → bool) (f : A → result bool) (l : list A) :
  (∀ x, f x = Ok (g x)) → any_result f l = Ok (existsb g l).
Proof.
  intros Hf. induction l as [|x l IH]; simpl; [done|].
  rewrite Hf. destruct (g x); [done|]. exact IH.
Qed.

Lemma uses_recent_phrase_Ok (rp : RecentPatterns) (tweet_text first_word : string)
    (rest : list string) :
  split (lower tweet_text) = first_word :: rest →
  uses_recent_phrase rp tweet_text
  = Ok (existsb (λ phrase, str_in phrase first_word) (elements (rp_phrases rp))).
Proof.
  intros Hsplit. unfold uses_recent_phrase. rewrite Hsplit.
  by apply any_result_Ok.
Qed.

Lemma uses_recent_phrase_match (rp : RecentPatterns) (tweet_text first_word : string)
    (rest : list string) :
  split (lower tweet_text) = first_word :: rest →
  first_word ∈ rp_phrases rp →
  uses_recent_phrase rp tweet_text = Ok true.
Proof.
  intros Hsplit Hin. rewrite (uses_recent_phrase_Ok _ _ _ _ Hsplit). f_equal.
  apply existsb_exists. exists first_word. split; [|apply str_in_refl].
  by apply list_elem_of_In, elem_of_elements.
Qed.

Lemma generate_and_validate_run (rt : Runtime) (attempt : nat) (focus : string)
    (filtered : list Article) (rp : RecentPatterns) (tried : gset string)
    (s : TrackerSt) :
  ∃ outcome,
    generate_and_validate rt attempt focus filtered rp tried s = (Ok outcome, s)
    ∧ (outcome = Continue tried
       ∨ ∃ response reasoning_line tweet_line,
           claude rt attempt focus (take 3 filtered) = Ok response
           ∧ parse_response response = (reasoning_line, tweet_line)
           ∧ tweet_line ≠ EmptyString
           ∧ uses_recent_phrase rp tweet_line = Ok false
           ∧ mentions_recent_token rp tweet_line = false
           ∧ outcome = Return (Some (strip tweet_line, strip reasoning_line))).
Proof.
  unfold generate_and_validate. run_tracker.
  destruct (claude rt attempt focus (take 3 filtered)) as [response|e] eqn:Hc;
    [|eexists; split; [reflexivity|by left]].
  destruct (parse_response response) as [reasoning_line tweet_line] eqn:Hp.
  destruct (truthy tweet_line) eqn:Ht;
    [|eexists; split; [reflexivity|by left]].
  destruct (uses_recent_phrase rp tweet_line) as [[|]|e] eqn:Hu;
    try (eexists; split; [reflexivity|by left]).
  destruct (mentions_recent_token rp tweet_line) eqn:Hm;
    [eexists; split; [reflexivity|by left]|].
  eexists. split; [reflexivity|]. right.
  exists response, reasoning_line, tweet_line.
  repeat split; try done. by apply truthy_true.
Qed.

Lemma attempt_body_run (rt : Runtime) (articles : list Article)
    (previous_tweets : list TweetData) (fresh : list string) (rp : RecentPatterns)
    (attempt : nat) (tried : gset string) (s : TrackerSt) :
  recent_patterns previous_tweets = Ok rp →
  ∃ outcome,
    attempt_body rt articles previous_tweets fresh attempt tried s = (Ok outcome, s)
    ∧ match outcome with
      | Continue _ => True
      | Return None =>
          List.filter (λ cat, negb (bool_decide (cat ∈ tried))) fresh = []
      | Return (Some (tweet, reasoning)) =>
          accepted rt articles rp fresh attempt tried tweet reasoning
      end.
Proof.
  intros Hrp. unfold attempt_body. rewrite Hrp.
  unfold bind at 1, lift_result at 1.
  destruct (List.filter _ fresh) as [|focus rest] eqn:Hav;
    [by eexists|].
  destruct (filter_articles focus rp articles) as [|a filtered] eqn:Hf;
    [by eexists|].
  destruct (generate_and_validate_run rt attempt focus (a :: filtered) rp
              (tried ∪ {[focus]}) s) as (outcome & Hrun & Hout).
  exists outcome. split; [exact Hrun|].
  destruct Hout as [->|(response & rl & tl & Hc & Hp & Hne & Hu & Hm & ->)];
    [done|].
  exists focus, rest, response, rl, tl. rewrite Hf. by repeat split.
Qed.

Lemma attempt_body_raises (rt : Runtime) (articles : list Article)
    (previous_tweets : list TweetData) (fresh : list string) (e : exn)
    (attempt : nat) (tried : gset string) (s : TrackerSt) :
  recent_patterns previous_tweets = Raise e →
  attempt_body rt articles previous_tweets fresh attempt tried s = (Raise e, s).
Proof. intros Hrp. unfold attempt_body. by rewrite Hrp. Qed.

(** What the retry loop leaves behind, and what it can return, when the
    patterns of the archive can be computed. *)
Lemma retry_loop_run (rt : Runtime) (articles : list Article)
    (previous_tweets : list TweetData) (fresh : list string) (rp : RecentPatterns)
    (n attempt : nat) (tried : gset string) (s : TrackerSt) :
  recent_patterns previous_tweets = Ok rp →
  ∃ value,
    retry_loop rt articles previous_tweets fresh n attempt tried s = (Ok value, s)
    ∧ match value with
      | None => True
      | Some (tweet, reasoning) =>
          ∃ k tried', (attempt <= k < attempt + n)%nat
                      ∧ accepted rt articles rp fresh k tried' tweet reasoning
      end.
Proof.
  intros Hrp. revert attempt tried.
  induction n as [|n IH]; intros attempt tried; simpl.
  - by exists None.
  - destruct (attempt_body_run rt articles previous_tweets fresh rp attempt tried s Hrp)
      as (outcome & Hrun & Hout).
    unfold bind. rewrite Hrun.
    destruct outcome as [tried'|[[tweet reasoning]|]].
    + destruct (IH (S attempt) tried') as (value & Hloop & Hval).
      exists value. split; [exact Hloop|].
      destruct value as [[tweet reasoning]|]; [|done].
      destruct Hval as (k & tried'' & Hk & Hacc).
      exists k, tried''. split; [lia|done].
    + exists (Some (tweet, reasoning)). split; [done|].
      exists attempt, tried. split; [lia|done].
    + by exists None.
Qed.

Lemma retry_loop_raises (rt : Runtime) (articles : list Article)
    (previous_tweets : list TweetData) (fresh : list string) (e : exn)
    (n attempt : nat) (tried : gset string) (s : TrackerSt) :
  recent_patterns previous_tweets = Raise e →
  retry_loop rt articles previous_tweets fresh (S n) attempt tried s = (Raise e, s).
Proof.
  intros Hrp. simpl. unfold bind.
  by rewrite (attempt_body_raises _ _ _ _ _ _ _ _ Hrp).
Qed.

(** The whole of [generate_tweet] on a tracker state: the clock is read
    once, then the loop runs. *)
Lemma generate_tweet_run_unfold (rt : Runtime) (articles : list Article)
    (tweets : list SocialTweet) (pools : list Pool) (s : TrackerSt) :
  ∃ s1 fresh,
    store s1 = store s
    ∧ generate_tweet_run rt articles tweets pools s
      = retry_loop rt articles (default [] (generated_tweets_json (disk (world s))))
          fresh max_retries 0 ∅ s1.
Proof.
  destruct (get_fresh_categories_run rt s) as (s1 & Hrun & Hs).
  exists s1. eexists. split; [exact Hs|].
  unfold generate_tweet_run. unfold bind at 1, gets at 1.
  unfold bind at 1. rewrite Hrun. reflexivity.
Qed.

Lemma retry_loop_frame (rt : Runtime) (articles : list Article)
    (previous_tweets : list TweetData) (fresh : list string)
    (n attempt : nat) (tried : gset string) (s : TrackerSt) :
  snd (retry_loop rt articles previous_tweets fresh n attempt tried s) = s.
Proof.
  destruct (recent_patterns previous_tweets) as [rp|e] eqn:Hrp.
  - destruct (retry_loop_run rt articles previous_tweets fresh rp n attempt tried s Hrp)
      as (value & -> & _). done.
  - destruct n as [|n]; [done|].
    by rewrite (retry_loop_raises _ _ _ _ _ _ _ _ _ Hrp).
Qed.

(** C8.  In a turn of the loop that reaches a draft with a non-empty
    post-text line: if the first word of the lower-cased draft is one of
    the recent opening phrases, or the draft mentions one of the recent
    tokens, the turn ends with [continue]; the loop goes on with the next
    turn, the focus category now among the tried ones, so that a later
    turn never takes it again. *)
Theorem repeated_pattern_is_rejected (rt : Runtime) (articles : list Article)
    (previous_tweets : list TweetData) (fresh : list string) (rp : RecentPatterns)
    (attempt : nat) (tried : gset string) (focus : string) (rest : list string)
    (response reasoning_line tweet_line : string) (s : TrackerSt) :
  recent_patterns previous_tweets = Ok rp →
  List.filter (λ cat, negb (bool_decide (cat ∈ tried))) fresh = focus :: rest →
  filter_articles focus rp articles ≠ [] →
  claude rt attempt focus (take 3 (filter_articles focus rp articles)) = Ok response →
  parse_response response = (reasoning_line, tweet_line) →
  tweet_line ≠ EmptyString →
  (∃ first_word words,
     split (lower tweet_line) = first_word :: words ∧ first_word ∈ rp_phrases rp)
  ∨ (∃ token, token ∈ rp_tokens rp
              ∧ str_in (lower token) (lower tweet_line) = true) →
  attempt_body rt articles previous_tweets fresh attempt tried s
  = (Ok (Continue (tried ∪ {[ focus ]})), s)
  ∧ (∀ n, retry_loop rt articles previous_tweets fresh (S n) attempt tried s
          = retry_loop rt articles previous_tweets fresh n (S attempt)
              (tried ∪ {[ focus ]}) s)
  ∧ (∀ tried' focus' rest',
       tried ∪ {[ focus ]} ⊆ tried' →
       List.filter (λ cat, negb (bool_decide (cat ∈ tried'))) fresh = focus' :: rest' →
       focus' ≠ focus).
Proof.
  intros Hrp Hav Hne Hc Hp Htl Hpat.
  assert (Hbody : attempt_body rt articles previous_tweets fresh attempt tried s
                  = (Ok (Continue (tried ∪ {[ focus ]})), s)).
  { unfold attempt_body. rewrite Hrp. unfold bind at 1, lift_result at 1.
    rewrite Hav.
    destruct (filter_articles focus rp articles) as [|a filtered] eqn:Hf; [done|].
    unfold generate_and_validate, try_except.
    unfold bind at 1, lift_result at 1. rewrite Hc, Hp.
    destruct tweet_line as [|c tl]; [done|]. run_tracker.
    destruct Hpat as [(w & ws & Hsplit & Hin)|Htok].
    - by rewrite (uses_recent_phrase_match _ _ _ _ Hsplit Hin).
    - apply mentions_recent_token_true in Htok.
      destruct (uses_recent_phrase rp (String c tl)) as [[|]|e]; try done.
      by rewrite Htok. }
  split; [exact Hbody|]. split.
  - intros n. simpl. unfold bind at 1. by rewrite Hbody.
  - intros tried' focus' rest' Hsub Hav' ->.
    assert (Hin : In focus (List.filter (λ cat, negb (bool_decide (cat ∈ tried'))) fresh))
      by (rewrite Hav'; by left).
    apply filter_In in Hin as [_ Hnot].
    apply negb_true_iff, bool_decide_eq_false in Hnot. apply Hnot, Hsub.
    apply elem_of_union. right. by apply elem_of_singleton.
Qed.

(** ** Selection loop: runs that accept nothing *)

Lemma generate_tweet_run_frame (rt : Runtime) (articles : list Article)
    (tweets : list SocialTweet) (pools : list Pool) (s : TrackerSt) :
  store (snd (generate_tweet_run rt articles tweets pools s)) = store s.
Proof.
  destruct (generate_tweet_run_unfold rt articles tweets pools s)
    as (s1 & fresh & Hs1 & ->).
  by rewrite retry_loop_frame.
Qed.

Lemma generate_tweet_frame (rt : Runtime) (articles : list Article)
    (tweets : list SocialTweet) (pools : list Pool) (w : World) :
  disk (snd (generate_tweet rt articles tweets pools w)) = disk w
  ∧ posted (snd (generate_tweet rt articles tweets pools w)) = posted w.
Proof.
  unfold generate_tweet.
  set (s0 := {| tracking_data := __init__ (disk w); world := w |}).
  pose proof (generate_tweet_run_frame rt articles tweets pools s0) as Hs0.
  destruct (generate_tweet_run rt articles tweets pools s0) as [r0 s2].
  unfold store in Hs0. simpl in *. by injection Hs0 as _ -> ->.
Qed.

(** C3.  [generate_tweet] writes nothing: the files and the published
    posts are after the run what they were before, and so is the data of
    its tracker.  When the patterns of the archived posts can be
    computed, a run that does not return an accepted draft returns
    [None]: the result is [None], or a draft that a turn within the
    budget of [max_retries] accepted.  The two ways out without a draft
    are spelled out: a loop whose budget is spent returns [None], and so
    does a turn that finds no fresh category left untried; neither
    changes the state. *)
Theorem generate_tweet_exhaustion (rt : Runtime) (articles : list Article)
    (tweets : list SocialTweet) (pools : list Pool) (w w' : World)
    (r : result (option (string * string))) :
  generate_tweet rt articles tweets pools w = (r, w') →
  disk w' = disk w
  ∧ posted w' = posted w
  ∧ (∀ s, store (snd (generate_tweet_run rt articles tweets pools s)) = store s)
  ∧ (∀ rp, recent_patterns (default [] (generated_tweets_json (disk w))) = Ok rp →
       r = Ok None
       ∨ ∃ tweet reasoning fresh k tried,
           r = Ok (Some (tweet, reasoning))
           ∧ (k < max_retries)%nat
           ∧ accepted rt articles rp fresh k tried tweet reasoning)
  ∧ (∀ previous_tweets fresh attempt tried s,
       retry_loop rt articles previous_tweets fresh 0 attempt tried s = (Ok None, s))
  ∧ (∀ previous_tweets fresh rp n attempt tried s,
       recent_patterns previous_tweets = Ok rp →
       List.filter (λ cat, negb (bool_decide (cat ∈ tried))) fresh = [] →
       retry_loop rt articles previous_tweets fresh (S n) attempt tried s
       = (Ok None, s)).
Proof.
  intros Hrun.
  assert (Hbudget : ∀ previous_tweets fresh attempt tried s,
            retry_loop rt articles previous_tweets fresh 0 attempt tried s
            = (Ok None, s)) by reflexivity.
  assert (Hnone : ∀ previous_tweets fresh rp n attempt tried s,
            recent_patterns previous_tweets = Ok rp →
            List.filter (λ cat, negb (bool_decide (cat ∈ tried))) fresh = [] →
            retry_loop rt articles previous_tweets fresh (S n) attempt tried s
            = (Ok None, s)).
  { intros previous_tweets fresh rp n attempt tried s Hrp Hav.
    simpl. unfold bind at 1, attempt_body. rewrite Hrp.
    unfold bind at 1, lift_result at 1. by rewrite Hav. }
  destruct (generate_tweet_frame rt articles tweets pools w) as [Hdisk Hposted].
  rewrite Hrun in Hdisk, Hposted. simpl in Hdisk, Hposted.
  unfold generate_tweet in Hrun.
  set (s0 := {| tracking_data := __init__ (disk w); world := w |}) in Hrun.
  destruct (generate_tweet_run rt articles tweets pools s0) as [r0 s2] eqn:Hgen.
  injection Hrun as <- <-.
  split; [done|]. split; [done|].
  split; [intros s; apply generate_tweet_run_frame|].
  split; [|split; [exact Hbudget|exact Hnone]].
  intros rp Hrp.
  destruct (generate_tweet_run_unfold rt articles tweets pools s0)
    as (s1 & fresh & Hs1 & Hunf).
  rewrite Hgen in Hunf. change (disk (world s0)) with (disk w) in Hunf.
  destruct (retry_loop_run rt articles _ fresh rp max_retries 0 ∅ s1 Hrp)
    as (value & Hloop & Hval).
  rewrite Hloop in Hunf. injection Hunf as -> _.
  destruct value as [[tweet reasoning]|]; [|by left].
  right. destruct Hval as (k & tried & Hk & Hacc).
  exists tweet, reasoning, fresh, k, tried.
  split; [done|]. split; [lia|done].
Qed.

(** ** Selection loop: an archived post without words *)

Lemma patterns_from_wordless (rp0 : RecentPatterns) (tweets : list TweetData)
    (tweet : TweetData) :
  tweet ∈ tweets →
  split (td_tweet tweet) = [] →
  patterns_from (Ok rp0) tweets = Raise IndexError.
Proof.
  revert rp0. induction tweets as [|tw tweets IH]; intros rp0 Hin Hsplit.
  - by apply elem_of_nil in Hin.
  - simpl. fold (patterns_from (add_patterns rp0 tw) tweets).
    unfold add_patterns at 1.
    destruct (split (td_tweet tw)) as [|w ws] eqn:E.
    + apply patterns_from_Raise.
    + apply elem_of_cons in Hin as [->|Hin]; [congruence|].
      by apply IH.
Qed.

(** Such an archive is within reach of the pipeline itself.  On a first
    run the archive is empty and so are the patterns; a post-text line
    that holds one blank is not empty, passes both pattern checks and is
    returned stripped; the caller archives it whether or not it was
    published; and the run after that one raises. *)
Lemma blank_draft_reaches_archive :
  ∃ w' entry,
    snd (generate_and_post_tweet Scenario.blank_reply_runtime Scenario.first_run_world)
    = w'
    ∧ generated_tweets_json (disk w') = Some [entry]
    ∧ td_tweet entry = EmptyString
    ∧ fst (generate_tweet Scenario.blank_reply_runtime [Scenario.broad_article] [] [] w')
      = Raise IndexError.
Proof.
  eexists. eexists. split; [reflexivity|].
  split; [by vm_compute|]. split; by vm_compute.
Qed.

(** C9.  What the code does when one of the last five archived posts has
    no word (an empty or blank text): the first turn of the loop reads
    the first word of every such post, outside any [try], and
    [generate_tweet] ends with [IndexError] whatever the articles, the
    social posts and the generation collaborator are. *)
Theorem generate_tweet_raises_on_wordless_post (rt : Runtime)
    (articles : list Article) (tweets : list SocialTweet) (pools : list Pool)
    (w : World) (previous_tweets : list TweetData) (tweet : TweetData) :
  generated_tweets_json (disk w) = Some previous_tweets →
  tweet ∈ last_n 5 previous_tweets →
  split (td_tweet tweet) = [] →
  fst (generate_tweet rt articles tweets pools w) = Raise IndexError.
Proof.
  intros Hfile Hin Hsplit.
  assert (Hrp : recent_patterns previous_tweets = Raise IndexError)
    by (by apply (patterns_from_wordless _ _ tweet)).
  unfold generate_tweet.
  set (s0 := {| tracking_data := __init__ (disk w); world := w |}).
  destruct (generate_tweet_run_unfold rt articles tweets pools s0)
    as (s1 & fresh & _ & Hunf).
  change (disk (world s0)) with (disk w) in Hunf. rewrite Hfile in Hunf.
  change (default [] (Some previous_tweets)) with previous_tweets in Hunf.
  unfold max_retries in Hunf.
  rewrite (retry_loop_raises _ _ _ _ _ _ _ _ _ Hrp) in Hunf.
  by rewrite Hunf.
Qed.

(** ** Similarity Guard and the selection loop *)

Import Scenario.

(** C1, as stated, fails.  A post was tracked 30 hours ago; the
    collaborator answers with the same text.  No pattern check fires
    (the archive is empty), so [generate_tweet] returns the text as
    accepted, and [is_tweet_similar] of that text, asked on the state the
    run leaves, is true. *)
Lemma loop_returns_too_similar_post :
  ∃ tweet reasoning w',
    generate_tweet echo_runtime [broad_article] [] [] echo_world
    = (Ok (Some (tweet, reasoning)), w')
    ∧ fst (is_tweet_similar echo_runtime tweet default_threshold
             {| tracking_data := __init__ (disk w'); world := w' |})
      = Ok true.
Proof.
  exists pumped, "momentum"%string.
  eexists. split; [by vm_compute|]. by vm_compute.
Qed.

(** C1, amended.  The Similarity Guard is the caller's: once
    [generate_tweet] has returned a post, [generate_and_post_tweet] asks
    [is_tweet_similar], and when the answer is true the run ends there
    with [None], the store being what it was: nothing is posted, tracked
    or archived, and no other category is tried. *)
Theorem similar_post_is_skipped_by_caller (rt : Runtime) (articles : list Article)
    (pools : list Pool) (tweet_text reasoning : string) (s : TrackerSt) :
  fst (is_tweet_similar rt tweet_text default_threshold s) = Ok true →
  ∃ s', check_and_publish rt articles pools tweet_text reasoning s = (Ok None, s')
        ∧ store s' = store s.
Proof.
  intros Hsim.
  destruct (is_tweet_similar_run rt tweet_text default_threshold s)
    as (s' & Hrun & Hs).
  rewrite Hrun in Hsim. simpl in Hsim.
  exists s'. split; [|exact Hs].
  unfold check_and_publish. unfold bind at 1. by rewrite Hrun, Hsim.
Qed.

(** On the run above, the caller drops the post. *)
Lemma similar_post_is_skipped_by_caller_witness :
  ∃ s', check_and_publish echo_runtime [broad_article] [] pumped "momentum"
          {| tracking_data := thirty_hours_ago; world := echo_world |}
        = (Ok None, s')
        ∧ store s' = store {| tracking_data := thirty_hours_ago; world := echo_world |}.
Proof.
  apply (similar_post_is_skipped_by_caller echo_runtime [broad_article] [] pumped
           "momentum" {| tracking_data := thirty_hours_ago; world := echo_world |}).
  vm_compute. reflexivity.
Defined.

(** *** The pipeline publishes only what the guard let through *)

Lemma keeps_store_bind {A B} (m : M TrackerSt A) (k : A → M TrackerSt B) :
  keeps_store m → (∀ a, keeps_store (k a)) → keeps_store (bind m k).
Proof.
  intros Hm Hk s. unfold bind. specialize (Hm s).
  destruct (m s) as [[a|e] s1]; simpl in Hm; [|done].
  by rewrite Hk.
Qed.

Lemma keeps_store_ret {A} (a : A) : keeps_store (ret a).
Proof. done. Qed.

Lemma keeps_store_filter_m {A} (keep : A → M TrackerSt bool) (l : list A) :
  (∀ x, keeps_store (keep x)) → keeps_store (filter_m keep l).
Proof.
  intros Hkeep. induction l as [|x l IH]; simpl; [done|].
  apply keeps_store_bind; [done|]. intros b.
  apply keeps_store_bind; [done|]. intros rest. apply keeps_store_ret.
Qed.

Lemma available_articles_frame (rt : Runtime) : keeps_store (available_articles rt).
Proof.
  unfold available_articles. apply keeps_store_bind; [done|].
  intros [items|]; [|done]. apply keeps_store_filter_m. intros article.
  apply keeps_store_bind; [|intros; apply keeps_store_ret].
  intros s. apply is_article_processed_frame.
Qed.

Lemma filtered_pools_frame (rt : Runtime) (pools : list Pool) :
  keeps_store (filtered_pools rt pools).
Proof.
  unfold filtered_pools. apply keeps_store_filter_m. intros pool.
  apply keeps_store_bind; [intros s; apply is_token_recently_mentioned_frame|].
  intros [|]; [apply keeps_store_ret|].
  apply keeps_store_bind; [intros s; apply is_token_recently_mentioned_frame|].
  intros; apply keeps_store_ret.
Qed.

Lemma in_world_generate_tweet_frame (rt : Runtime) (articles : list Article)
    (tweets : list SocialTweet) (pools : list Pool) :
  keeps_store (in_world (generate_tweet rt articles tweets pools)).
Proof.
  intros s. unfold in_world.
  destruct (generate_tweet_frame rt articles tweets pools (world s)) as [Hd Hp].
  destruct (generate_tweet rt articles tweets pools (world s)) as [r w'].
  simpl in *. unfold store. simpl. by rewrite Hd, Hp.
Qed.

Lemma keeps_posted_bind {A B} (m : M TrackerSt A) (k : A → M TrackerSt B) :
  keeps_posted m → (∀ a, keeps_posted (k a)) → keeps_posted (bind m k).
Proof.
  intros Hm Hk s. unfold bind. specialize (Hm s).
  destruct (m s) as [[a|e] s1]; simpl in Hm; [|done].
  by rewrite Hk.
Qed.

Lemma keeps_posted_for_each {A} (l : list A) (body : A → M TrackerSt ()) :
  (∀ x, keeps_posted (body x)) → keeps_posted (for_each l body).
Proof.
  intros Hbody. induction l as [|x l IH]; simpl; [done|].
  apply keeps_posted_bind; [done|]. by intros _.
Qed.

Lemma _save_tracking_data_posted : keeps_posted _save_tracking_data.
Proof.
  intros [td [d p t]]. unfold _save_tracking_data, save_archive_tracking.
  run_tracker. by destruct (writable d).
Qed.

Lemma track_article_posted (rt : Runtime) (article : Article) :
  keeps_posted (track_article rt article).
Proof.
  unfold track_article. apply keeps_posted_bind; [by intros [td [d p t]]|].
  intros now. apply keeps_posted_bind; [by intros [td [d p t]]|].
  intros _. apply _save_tracking_data_posted.
Qed.

Lemma track_token_mention_posted (rt : Runtime) (token : string) :
  keeps_posted (track_token_mention rt token).
Proof.
  unfold track_token_mention. apply keeps_posted_bind; [by intros [td [d p t]]|].
  intros now. apply keeps_posted_bind; [by intros [td [d p t]]|].
  intros _. apply _save_tracking_data_posted.
Qed.

Lemma track_generated_tweet_posted (rt : Runtime) (tweet_text : string)
    (sources : list Article) :
  keeps_posted (track_generated_tweet rt tweet_text sources).
Proof.
  unfold track_generated_tweet. apply keeps_posted_bind; [by intros [td [d p t]]|].
  intros now. apply keeps_posted_bind; [by intros [td [d p t]]|].
  intros _. apply _save_tracking_data_posted.
Qed.

Lemma track_content_posted (rt : Runtime) (tweet_text : string)
    (articles : list Article) (pools : list Pool) :
  keeps_posted (track_content rt tweet_text articles pools).
Proof.
  unfold track_content.
  apply keeps_posted_bind;
    [apply keeps_posted_for_each; intros; apply track_article_posted|].
  intros _. apply keeps_posted_bind; [|intros _; apply track_generated_tweet_posted].
  apply keeps_posted_for_each. intros pool.
  apply keeps_posted_bind; [apply track_token_mention_posted|].
  intros _. apply track_token_mention_posted.
Qed.

Lemma append_to_archive_posted (rt : Runtime) (tweet_data : TweetData) :
  keeps_posted (append_to_archive tweet_data).
Proof.
  intros [td [d p t]]. unfold append_to_archive. simpl.
  destruct (generated_tweets_json d); [|done]. by destruct (writable d).
Qed.

(** What [check_and_publish] can do to the published posts. *)
Lemma check_and_publish_posted (rt : Runtime) (articles : list Article)
    (pools : list Pool) (tweet_text reasoning : string) (s : TrackerSt) :
  let s' := snd (check_and_publish rt articles pools tweet_text reasoning s) in
  posted (world s') = posted (world s)
  ∨ (posted (world s') = posted (world s) ++ [tweet_text]
     ∧ similar_to_any (token_set tweet_text)
         (clock rt (ticks (world s)) - hours 48) default_threshold
         (Dict.values (generated_tweets (tracking_data s)))
       = Ok false).
Proof.
  intros s'. assert (Hs' : s' = snd (check_and_publish rt articles pools
                                       tweet_text reasoning s)) by reflexivity.
  clearbody s'.
  destruct (is_tweet_similar_run rt tweet_text default_threshold s)
    as (s1 & Hrun & Hs1).
  assert (Hp1 : posted (world s1) = posted (world s))
    by (unfold store in Hs1; by injection Hs1).
  unfold check_and_publish in Hs'. unfold bind at 1 in Hs'. rewrite Hrun in Hs'.
  destruct (similar_to_any _ _ _ _) as [[|]|e] eqn:Hsim; simpl in Hs';
    try (left; by rewrite Hs').
  set (rest := λ (now : Z) (success : bool),
    bind (if success then track_content rt tweet_text articles pools else ret ())
      (λ _, bind (append_to_archive
                    {| td_timestamp := now; td_tweet := tweet_text;
                       td_reasoning := reasoning; td_posted_to_twitter := success;
                       td_source_articles := articles; td_market_context := pools |})
              (λ _, ret (Some
                    {| td_timestamp := now; td_tweet := tweet_text;
                       td_reasoning := reasoning; td_posted_to_twitter := success;
                       td_source_articles := articles;
                       td_market_context := pools |})))).
  assert (Hrest : ∀ now success, keeps_posted (rest now success)).
  { intros now success. unfold rest. apply keeps_posted_bind.
    - destruct success; [apply track_content_posted|done].
    - intros _. apply keeps_posted_bind; [by apply append_to_archive_posted|done]. }
  destruct s1 as [td1 [d1 p1 t1]]. simpl in Hp1. subst p1.
  unfold bind at 1, datetime_now at 1 in Hs'. simpl in Hs'.
  unfold bind at 1, twitter_post at 1 in Hs'. simpl in Hs'.
  destruct (post_tweet rt tweet_text).
  - right. split; [|done]. fold (rest (clock rt t1) true) in Hs'.
    by rewrite Hs', Hrest.
  - left. fold (rest (clock rt t1) false) in Hs'. by rewrite Hs', Hrest.
Qed.

(** A run of [generate_and_post_tweet] publishes nothing, or one post
    that the Similarity Guard let through. *)
Lemma published_post_was_let_through (rt : Runtime) (w : World) :
  let w' := snd (generate_and_post_tweet rt w) in
  posted w' = posted w
  ∨ ∃ tweet_text, posted w' = posted w ++ [tweet_text]
                  ∧ let_through rt w tweet_text.
Proof.
  simpl. unfold generate_and_post_tweet.
  set (s0 := {| tracking_data := __init__ (disk w); world := w |}).
  set (Q := λ s' : TrackerSt,
    posted (world s') = posted w
    ∨ ∃ tweet_text, posted (world s') = posted w ++ [tweet_text]
                    ∧ let_through rt w tweet_text).
  assert (Hbase : ∀ s, store s = store s0 → Q s).
  { intros s Hs. left. unfold store in Hs. by injection Hs. }
  assert (Hstep : ∀ A B (m : M TrackerSt A) (k : A → M TrackerSt B) s,
            keeps_store m → store s = store s0 →
            (∀ a s1, store s1 = store s0 → Q (snd (k a s1))) →
            Q (snd (bind m k s))).
  { intros A B m k s Hm Hs Hk. unfold bind. specialize (Hm s).
    destruct (m s) as [[a|e] s1]; simpl in Hm.
    - apply Hk. by rewrite Hm.
    - apply Hbase. simpl. by rewrite Hm. }
  assert (Hbody : Q (snd (generate_and_post_tweet_body rt s0))).
  { unfold generate_and_post_tweet_body.
    apply Hstep; [apply available_articles_frame|done|].
    intros [|a available] s1 Hs1; [by apply Hbase|].
    apply Hstep; [apply filtered_pools_frame|done|].
    intros pools s2 Hs2.
    apply Hstep; [done|done|]. intros tweets s3 Hs3.
    apply Hstep; [apply in_world_generate_tweet_frame|done|].
    intros [[tweet_text reasoning]|] s4 Hs4; [|by apply Hbase].
    pose proof (check_and_publish_posted rt (take 5 (a :: available)) (take 5 pools)
                  tweet_text reasoning s4) as Hpub.
    simpl in Hpub. unfold store in Hs4. injection Hs4 as Htd _ Hp.
    unfold Q. rewrite Hp, Htd in Hpub.
    destruct Hpub as [Hsame|[Hnew Hsim]]; [by left|].
    right. exists tweet_text. split; [done|]. by exists (ticks (world s4)). }
  unfold try_except.
  destruct (generate_and_post_tweet_body rt s0) as [[r|e] s'] eqn:Hrun; exact Hbody.
Qed.

(** ** Witnesses *)

(** C2: the empty candidate against a stored empty post. *)
Lemma is_tweet_similar_divides_by_zero_witness :
  fst (is_tweet_similar (runtime 0 (Raise APIError)) EmptyString default_threshold
         blank_tracker)
  = Raise ZeroDivisionError.
Proof.
  apply (is_tweet_similar_divides_by_zero (runtime 0 (Raise APIError)) EmptyString
           default_threshold blank_tracker blank_post).
  - reflexivity.
  - unfold Qle, default_threshold. simpl. lia.
  - left.
  - vm_compute. discriminate.
  - reflexivity.
Defined.

(** C3: no candidate article at all; the three turns pass and the run
    ends with [None]. *)
Lemma generate_tweet_exhaustion_witness :
  fst (generate_tweet echo_runtime [] [] [] echo_world) = Ok None
  ∧ disk (snd (generate_tweet echo_runtime [] [] [] echo_world)) = disk echo_world
  ∧ posted (snd (generate_tweet echo_runtime [] [] [] echo_world)) = posted echo_world.
Proof.
  split; [by vm_compute|].
  destruct (generate_tweet_exhaustion echo_runtime [] [] [] echo_world _ _
              (surjective_pairing _)) as (Hdisk & Hposted & _).
  split; [exact Hdisk|exact Hposted].
Defined.

(** C6: an article asked about at the very time it was tracked. *)
Lemma tracked_article_is_processed_witness :
  fst (is_article_processed (runtime 0 (Raise APIError)) broad_article
         (snd (track_article (runtime 0 (Raise APIError)) broad_article blank_tracker)))
  = Ok true.
Proof.
  apply (tracked_article_is_processed (runtime 0 (Raise APIError)) broad_article
           broad_article blank_tracker _ eq_refl eq_refl).
  vm_compute. reflexivity.
Defined.

(** C7: "ETH" in the last archived post keeps the article on ETH out,
    and the other article of the category in. *)
Lemma filter_articles_spec_witness :
  ∃ rp, recent_patterns eth_archive = Ok rp
        ∧ (eth_article ∉ filter_articles "innovation" rp [eth_article; broad_article])
        ∧ (broad_article ∈ filter_articles "innovation" rp [eth_article; broad_article]).
Proof.
  exists eth_patterns. split; [by vm_compute|].
  destruct (filter_articles_spec eth_archive eth_patterns "innovation"
              [eth_article; broad_article]) as (Hkept & Hout & _).
  { by vm_compute. }
  split.
  - apply (Hout (archived "Staking on ETH keeps growing") "ETH"%string).
    + left.
    + right. right. left.
    + reflexivity.
    + reflexivity.
  - apply Hkept. split; [right; left|]. split; [by vm_compute|].
    intros token Htoken. simpl in Htoken.
    apply elem_of_singleton in Htoken as ->. reflexivity.
Defined.

(** C8: two archived posts open with "Bitcoin", and so does the draft. *)
Lemma repeated_pattern_is_rejected_witness :
  attempt_body bitcoin_runtime [broad_article] bitcoin_archive
    (Dict.keys CATEGORIES) 0 ∅ bitcoin_state
  = (Ok (Continue (∅ ∪ {[ "price"%string ]})), bitcoin_state).
Proof.
  apply (repeated_pattern_is_rejected bitcoin_runtime [broad_article]
           bitcoin_archive (Dict.keys CATEGORIES) bitcoin_patterns 0 ∅
           "price" (tail (Dict.keys CATEGORIES))
           (response_of "again" "Bitcoin wallets reach a new record")
           "again" "Bitcoin wallets reach a new record" bitcoin_state).
  - by vm_compute.
  - by vm_compute.
  - vm_compute. discriminate.
  - reflexivity.
  - by vm_compute.
  - discriminate.
  - left. exists "bitcoin"%string, ["wallets"; "reach"; "a"; "new"; "record"]%string.
    split; by vm_compute.
Defined.

(** C9: the last archived post is empty. *)
Lemma generate_tweet_raises_on_wordless_post_witness :
  fst (generate_tweet bitcoin_runtime [broad_article] [] [] blank_archive_world)
  = Raise IndexError.
Proof.
  apply (generate_tweet_raises_on_wordless_post bitcoin_runtime [broad_article] [] []
           blank_archive_world
           [archived "Layer2 fees fall again"; archived EmptyString]
           (archived EmptyString)).
  - reflexivity.
  - right. left.
  - reflexivity.
Defined.

(* ===================================================================== *)
(** * Further properties *)
(* ===================================================================== *)

(** ** Freshness Tracker: what the tracking calls leave *)

Lemma track_token_mention_run (rt : Runtime) (token : string) (s : TrackerSt) :
  ∃ s', track_token_mention rt token s = (Ok (), s')
        ∧ tracking_data s'
          = with_mention token (clock rt (ticks (world s))) (tracking_data s)
        ∧ disk (world s') = saved (tracking_data s') (disk (world s))
        ∧ posted (world s') = posted (world s)
        ∧ ticks (world s') = S (ticks (world s)).
Proof.
  destruct s as [td [d p t]].
  unfold track_token_mention, _save_tracking_data, save_archive_tracking, saved.
  run_tracker.
  destruct (writable d) eqn:Hw; simpl; eexists; rewrite ?Hw; by repeat split.
Qed.

Lemma track_generated_tweet_run (rt : Runtime) (tweet_text : string)
    (sources : list Article) (s : TrackerSt) :
  ∃ s', track_generated_tweet rt tweet_text sources s = (Ok (), s')
        ∧ tracking_data s'
          = with_tweet (_generate_content_hash rt tweet_text) tweet_text sources
              (clock rt (ticks (world s))) (tracking_data s)
        ∧ disk (world s') = saved (tracking_data s') (disk (world s))
        ∧ posted (world s') = posted (world s)
        ∧ ticks (world s') = S (ticks (world s)).
Proof.
  destruct s as [td [d p t]].
  unfold track_generated_tweet, _save_tracking_data, save_archive_tracking, saved.
  run_tracker.
  destruct (writable d) eqn:Hw; simpl; eexists; rewrite ?Hw; by repeat split.
Qed.

Lemma cleanup_old_data_run (rt : Runtime) (days_ : Z) (s : TrackerSt) :
  ∃ s', cleanup_old_data rt days_ s = (Ok (), s')
        ∧ tracking_data s'
          = cleaned (clock rt (ticks (world s)) - days days_) (tracking_data s)
        ∧ disk (world s') = saved (tracking_data s') (disk (world s))
        ∧ posted (world s') = posted (world s)
        ∧ ticks (world s') = S (ticks (world s)).
Proof.
  destruct s as [td [d p t]].
  unfold cleanup_old_data, _save_tracking_data, save_archive_tracking, saved.
  run_tracker.
  destruct (writable d) eqn:Hw; simpl; eexists; rewrite ?Hw; by repeat split.
Qed.

Lemma track_article_saved (rt : Runtime) (article : Article) (s : TrackerSt) :
  ∃ s', track_article rt article s = (Ok (), s')
        ∧ disk (world s') = saved (tracking_data s') (disk (world s)).
Proof.
  destruct s as [td [d p t]].
  unfold track_article, _save_tracking_data, save_archive_tracking, saved.
  run_tracker.
  destruct (writable d) eqn:Hw; simpl; eexists; rewrite ?Hw; by repeat split.
Qed.

Lemma saved_loads_back (td : TrackingData) (d : Disk) :
  writable d = true → __init__ (saved td d) = td.
Proof. intros Hw. unfold saved. by rewrite Hw. Qed.

Lemma saved_read_only (td : TrackingData) (d : Disk) :
  writable d = false → saved td d = d.
Proof. intros Hw. unfold saved. by rewrite Hw. Qed.

(** X1.  Write-through.  Each of the four calls that change the
    tracker ends without an exception.  On a disk that can be written, a
    tracker built from the files right after the call holds the very
    data the calling tracker holds; on a disk that cannot, the failure
    is swallowed and the files are what they were. *)
Theorem tracking_calls_write_through (rt : Runtime) (s : TrackerSt) :
  let wrote (m : M TrackerSt ()) :=
    fst (m s) = Ok ()
    ∧ (writable (disk (world s)) = true →
       __init__ (disk (world (snd (m s)))) = tracking_data (snd (m s)))
    ∧ (writable (disk (world s)) = false →
       disk (world (snd (m s))) = disk (world s)) in
  (∀ article, wrote (track_article rt article))
  ∧ (∀ token, wrote (track_token_mention rt token))
  ∧ (∀ tweet_text sources, wrote (track_generated_tweet rt tweet_text sources))
  ∧ (∀ days_, wrote (cleanup_old_data rt days_)).
Proof.
  intros wrote. unfold wrote.
  split; [|split; [|split]]; intros.
  - destruct (track_article_saved rt article s) as (s' & -> & Hd). simpl.
    rewrite Hd. split; [done|].
    split; [apply saved_loads_back|apply saved_read_only].
  - destruct (track_token_mention_run rt token s) as (s' & -> & _ & Hd & _). simpl.
    rewrite Hd. split; [done|].
    split; [apply saved_loads_back|apply saved_read_only].
  - destruct (track_generated_tweet_run rt tweet_text sources s)
      as (s' & -> & _ & Hd & _). simpl.
    rewrite Hd. split; [done|].
    split; [apply saved_loads_back|apply saved_read_only].
  - destruct (cleanup_old_data_run rt days_ s) as (s' & -> & _ & Hd & _). simpl.
    rewrite Hd. split; [done|].
    split; [apply saved_loads_back|apply saved_read_only].
Qed.

(** ** Freshness Tracker: token mentions *)

Lemma is_token_recently_mentioned_run (rt : Runtime) (token : string)
    (hours_ : Z) (s : TrackerSt) :
  fst (is_token_recently_mentioned rt token hours_ s)
  = Ok match Dict.lookup token (token_mentions (tracking_data s)) with
       | Some mention =>
           clock rt (ticks (world s)) - tm_last_mention mention <? hours hours_
       | None => false
       end.
Proof.
  destruct s as [td [d p t]]. unfold is_token_recently_mentioned. run_tracker.
  by destruct (Dict.lookup token (token_mentions td)).
Qed.

(** X2.  After [track_token_mention(token)] at time [mentioned_at], and
    as long as the tracker's data is what that call left,
    [is_token_recently_mentioned(token, hours)] asked at time [now]
    answers whether fewer than [hours] hours separate the two: true
    before the window closes, false from its end on. *)
Theorem mentioned_token_is_recent (rt : Runtime) (token : string) (hours_ : Z)
    (s s2 : TrackerSt) :
  tracking_data s2 = tracking_data (snd (track_token_mention rt token s)) →
  let mentioned_at := clock rt (ticks (world s)) in
  let now := clock rt (ticks (world s2)) in
  fst (is_token_recently_mentioned rt token hours_ s2)
  = Ok (now - mentioned_at <? hours hours_).
Proof.
  intros Hdata mentioned_at now.
  destruct (track_token_mention_run rt token s) as (s1 & Hrun & Htd & _).
  rewrite Hrun in Hdata. simpl in Hdata.
  rewrite is_token_recently_mentioned_run, Hdata, Htd. simpl.
  by rewrite dict_lookup_setitem_eq.
Qed.

Lemma mentioned_token_is_recent_witness :
  fst (is_token_recently_mentioned (Scenario.runtime 0 (Raise APIError)) "WETH" 24
         (snd (track_token_mention (Scenario.runtime 0 (Raise APIError)) "WETH"
                 Scenario.blank_tracker)))
  = Ok true.
Proof.
  apply (mentioned_token_is_recent (Scenario.runtime 0 (Raise APIError)) "WETH" 24
           Scenario.blank_tracker _ eq_refl).
Defined.

Lemma dict_lookup_setitem_ne {V} (k k0 : string) (v : V) (d : Dict.t V) :
  k0 ≠ k → Dict.lookup k0 (Dict.setitem k v d) = Dict.lookup k0 d.
Proof.
  intros Hne. induction d as [|[k' v'] d IH]; simpl.
  - destruct (String.eqb k0 k) eqn:E; [|done].
    by apply String.eqb_eq in E.
  - destruct (String.eqb k k') eqn:E; simpl.
    + apply String.eqb_eq in E as <-.
      destruct (String.eqb k0 k) eqn:E'; [|done].
      by apply String.eqb_eq in E'.
    + by rewrite IH.
Qed.

Lemma mention_count_with_mention (token other : string) (now : Z)
    (td : TrackingData) :
  mention_count other (with_mention token now td)
  = if decide (other = token) then mention_count token td + 1
    else mention_count other td.
Proof.
  unfold mention_count, with_mention. simpl. destruct (decide (other = token)) as [->|Hne].
  - by rewrite dict_lookup_setitem_eq.
  - by rewrite dict_lookup_setitem_ne.
Qed.

(** X3.  Mentions add up.  [n] calls of [track_token_mention(token)] in
    a row raise the count on record for the token by [n] (from 0 when
    there was no record), whatever the disk does, and leave the count
    of every other token alone. *)
Theorem mentions_add_up (rt : Runtime) (token : string) (n : nat) (s : TrackerSt) :
  let s' := snd (for_each (replicate n token) (track_token_mention rt) s) in
  fst (for_each (replicate n token) (track_token_mention rt) s) = Ok ()
  ∧ mention_count token (tracking_data s')
    = mention_count token (tracking_data s) + Z.of_nat n
  ∧ ∀ other, other ≠ token →
      mention_count other (tracking_data s') = mention_count other (tracking_data s).
Proof.
  revert s. induction n as [|n IH]; intros s; simpl.
  - split; [done|]. split; [lia|done].
  - destruct (track_token_mention_run rt token s) as (s1 & Hrun & Htd & _).
    unfold bind. rewrite Hrun.
    destruct (IH s1) as (Hok & Hcount & Hother). simpl in *.
    split; [exact Hok|]. split.
    + rewrite Hcount, Htd, mention_count_with_mention.
      destruct (decide (token = token)); [lia|done].
    + intros other Hne. rewrite (Hother other Hne), Htd, mention_count_with_mention.
      by destruct (decide (other = token)).
Qed.

(** ** Similarity Guard: a candidate with a word *)

Lemma jaccard_nonempty (a b : gset string) :
  a ≠ ∅ →
  ∃ n, size (a ∪ b) = S n
       ∧ jaccard a b = Ok (Z.of_nat (size (a ∩ b)) # Pos.of_succ_nat n).
Proof.
  intros Ha. unfold jaccard.
  destruct (size (a ∪ b)) as [|n] eqn:E; [|by exists n].
  apply size_empty_inv in E. exfalso. apply Ha.
  apply leibniz_equiv. intros x. split; [|by intros ?%not_elem_of_empty].
  intros Hx. apply (E x). apply elem_of_union. by left.
Qed.

Lemma over_threshold (inter : Z) (n : nat) (threshold : Q) :
  negb (Qle_bool (inter # Pos.of_succ_nat n) threshold) = true
  ↔ Qnum threshold * Z.of_nat (S n) < inter * Z.pos (Qden threshold).
Proof.
  rewrite negb_true_iff, <- not_true_iff_false, Qle_bool_iff.
  unfold Qle. simpl. rewrite Zpos_P_of_succ_nat, <- Nat2Z.inj_succ. lia.
Qed.

Lemma similar_to_any_words (tweet_tokens : gset string) (recent_cutoff : Z)
    (similarity_threshold : Q) (stored : list TweetRecord) :
  tweet_tokens ≠ ∅ →
  ∃ answer,
    similar_to_any tweet_tokens recent_cutoff similarity_threshold stored = Ok answer
    ∧ (answer = true
       ↔ ∃ tweet, tweet ∈ stored
                  ∧ recent_cutoff <= tr_timestamp tweet
                  ∧ closer_than similarity_threshold tweet_tokens
                      (token_set (tr_text tweet))).
Proof.
  intros Hne. induction stored as [|tw stored IH]; simpl.
  - exists false. split; [done|]. split; [done|].
    intros (tweet & Hin & _). by apply elem_of_nil in Hin.
  - destruct IH as (rest & Hrest & Hiff).
    destruct (Z.ltb_spec (tr_timestamp tw) recent_cutoff) as [Hold|Hnew].
    + exists rest. split; [done|]. rewrite Hiff. split.
      * intros (tweet & Hin & H). exists tweet. split; [by right|done].
      * intros (tweet & Hin & Hts & Hc).
        apply elem_of_cons in Hin as [->|Hin]; [lia|]. by exists tweet.
    + destruct (jaccard_nonempty tweet_tokens (token_set (tr_text tw)) Hne)
        as (n & Hsize & ->).
      destruct (negb (Qle_bool _ similarity_threshold)) eqn:Hover.
      * exists true. split; [done|]. split; [|done]. intros _.
        exists tw. split; [left|]. split; [done|].
        unfold closer_than. rewrite Hsize. by apply over_threshold.
      * exists rest. split; [done|]. rewrite Hiff. split.
        -- intros (tweet & Hin & H). exists tweet. split; [by right|done].
        -- intros (tweet & Hin & Hts & Hc).
           apply elem_of_cons in Hin as [->|Hin]; [|by exists tweet].
           unfold closer_than in Hc. rewrite Hsize in Hc.
           apply over_threshold in Hc. congruence.
Qed.



Lemma setitem_values_elem {V} (k : string) (v : V) (d : Dict.t V) :
  v ∈ Dict.values (Dict.setitem k v d).
Proof.
  induction d as [|[k' v'] d IH]; simpl; [left|].
  destruct (String.eqb k k'); simpl; [left|by right].
Qed.

Lemma closer_than_self (threshold : Q) (a : gset string) :
  a ≠ ∅ → Qnum threshold < Z.pos (Qden threshold) → closer_than threshold a a.
Proof.
  intros Ha Hthr. unfold closer_than.
  rewrite (idemp_L (∪) a), (idemp_L (∩) a).
  assert (size a ≠ 0%nat) by (by intros ?%size_empty_inv%leibniz_equiv).
  nia.
Qed.

(** X5.  After [track_generated_tweet(text)] at time [tracked_at], and
    as long as the tracker's data is what that call left,
    [is_tweet_similar] answers true for every candidate with the same
    set of lower-cased words as [text] (the text itself, or its words
    in another order or case), provided a word there is, the threshold
    is below 1 and not more than 48 hours have passed. *)
Theorem tracked_tweet_is_similar (rt : Runtime) (tweet_text candidate : string)
    (sources : list Article) (similarity_threshold : Q) (s s2 : TrackerSt) :
  tracking_data s2
  = tracking_data (snd (track_generated_tweet rt tweet_text sources s)) →
  token_set candidate = token_set tweet_text →
  token_set tweet_text ≠ ∅ →
  Qnum similarity_threshold < Z.pos (Qden similarity_threshold) →
  clock rt (ticks (world s2)) - clock rt (ticks (world s)) <= hours 48 →
  fst (is_tweet_similar rt candidate similarity_threshold s2) = Ok true.
Proof.
  intros Hdata Hsame Hne Hthr Hwin.
  destruct (track_generated_tweet_run rt tweet_text sources s)
    as (s1 & Hrun & Htd & _).
  rewrite Hrun in Hdata. simpl in Hdata.
  destruct (is_tweet_similar_run rt candidate similarity_threshold s2)
    as (s3 & -> & _). simpl.
  destruct (similar_to_any_words (token_set candidate)
              (clock rt (ticks (world s2)) - hours 48) similarity_threshold
              (Dict.values (generated_tweets (tracking_data s2))))
    as (answer & -> & Hiff).
  { by rewrite Hsame. }
  f_equal. apply Hiff.
  exists {| tr_text := tweet_text; tr_timestamp := clock rt (ticks (world s));
            tr_sources := sources |}.
  split; [|split].
  - rewrite Hdata, Htd. simpl. apply setitem_values_elem.
  - simpl. lia.
  - simpl. rewrite Hsame. by apply closer_than_self.
Qed.

Lemma tracked_tweet_is_similar_witness :
  fst (is_tweet_similar Scenario.echo_runtime "Fees FALL on layer2" default_threshold
         (snd (track_generated_tweet Scenario.echo_runtime "Layer2 fees fall on"
                 [] Scenario.blank_tracker)))
  = Ok true.
Proof.
  apply (tracked_tweet_is_similar Scenario.echo_runtime "Layer2 fees fall on"
           "Fees FALL on layer2" [] default_threshold Scenario.blank_tracker _ eq_refl).
  - by vm_compute.
  - vm_compute. discriminate.
  - reflexivity.
  - vm_compute. discriminate.
Defined.

(** ** Freshness Tracker: one record per content *)

Lemma dict_setitem_length {V} (k : string) (v : V) (d : Dict.t V) :
  length (Dict.setitem k v d)
  = match Dict.lookup k d with
    | Some _ => length d
    | None => S (length d)
    end.
Proof.
  induction d as [|[k' v'] d IH]; simpl; [done|].
  destruct (String.eqb k k'); simpl; [done|].
  rewrite IH. by destruct (Dict.lookup k d).
Qed.

(** X6.  One record per text, case ignored.  Tracking a generated post
    whose lower-cased text was tracked before adds no record: the
    record of the earlier call is replaced by one with the new text and
    the new time.  A text never tracked adds exactly one record. *)
Theorem retracked_tweet_replaces (rt : Runtime) (first second : string)
    (sources sources' : list Article) (s : TrackerSt) :
  lower second = lower first →
  let s1 := snd (track_generated_tweet rt first sources s) in
  let s2 := snd (track_generated_tweet rt second sources' s1) in
  length (generated_tweets (tracking_data s2))
  = length (generated_tweets (tracking_data s1))
  ∧ Dict.lookup (_generate_content_hash rt first) (generated_tweets (tracking_data s2))
    = Some {| tr_text := second;
              tr_timestamp := clock rt (ticks (world s1));
              tr_sources := sources' |}
  ∧ length (generated_tweets (tracking_data s1))
    = match Dict.lookup (_generate_content_hash rt first)
              (generated_tweets (tracking_data s)) with
      | Some _ => length (generated_tweets (tracking_data s))
      | None => S (length (generated_tweets (tracking_data s)))
      end.
Proof.
  intros Hlower s1 s2. subst s1 s2.
  assert (Hkey : _generate_content_hash rt second = _generate_content_hash rt first)
    by (unfold _generate_content_hash; by rewrite Hlower).
  destruct (track_generated_tweet_run rt first sources s) as (s1 & -> & Htd1 & _).
  simpl.
  destruct (track_generated_tweet_run rt second sources' s1) as (s2 & -> & Htd2 & _).
  simpl. rewrite Htd2, Htd1, Hkey. simpl.
  rewrite !dict_setitem_length, !dict_lookup_setitem_eq. by repeat split.
Qed.

Lemma retracked_tweet_replaces_witness :
  length (generated_tweets (tracking_data
     (snd (track_generated_tweet Scenario.echo_runtime "BTC breaks out" []
        (snd (track_generated_tweet Scenario.echo_runtime "btc BREAKS out" []
                Scenario.blank_tracker))))))
  = 2%nat.
Proof.
  destruct (retracked_tweet_replaces Scenario.echo_runtime "btc BREAKS out"
              "BTC breaks out" [] [] Scenario.blank_tracker eq_refl) as (-> & _ & ->).
  reflexivity.
Defined.

(** ** Freshness Tracker: cleanup and the queries *)

Lemma filter_values_values {V} (keep : V → bool) (d : Dict.t V) :
  Dict.values (Dict.filter_values keep d) = List.filter keep (Dict.values d).
Proof.
  induction d as [|[k v] d IH]; simpl; [done|].
  destruct (keep v); simpl; by rewrite IH.
Qed.

Lemma similar_to_any_filter (tweet_tokens : gset string) (recent_cutoff cutoff : Z)
    (similarity_threshold : Q) (stored : list TweetRecord) :
  cutoff < recent_cutoff →
  similar_to_any tweet_tokens recent_cutoff similarity_threshold
    (List.filter (λ v, cutoff <? tr_timestamp v) stored)
  = similar_to_any tweet_tokens recent_cutoff similarity_threshold stored.
Proof.
  intros Hlt. induction stored as [|tw stored IH]; simpl; [done|].
  destruct (Z.ltb_spec cutoff (tr_timestamp tw)) as [Hkeep|Hdrop]; simpl.
  - rewrite IH. reflexivity.
  - destruct (Z.ltb_spec (tr_timestamp tw) recent_cutoff); [exact IH|lia].
Qed.

Lemma used_categories_filter (recent_cutoff cutoff : Z) (stored : list TweetRecord) :
  cutoff <= recent_cutoff →
  used_categories recent_cutoff (List.filter (λ v, cutoff <? tr_timestamp v) stored)
  = used_categories recent_cutoff stored.
Proof.
  intros Hle. apply set_eq. intros c. rewrite !used_categories_spec.
  split; intros (tw & Hin & Hts & Hc); exists tw; (split; [|done]).
  - apply list_elem_of_In in Hin. apply filter_In in Hin as [Hin _].
    by apply list_elem_of_In.
  - apply list_elem_of_In, filter_In. split; [by apply list_elem_of_In|].
    apply Z.ltb_lt. lia.
Qed.

(** X7.  Cleanup with a retention longer than 48 hours changes no
    answer of the guards that read the stored posts: asked at a time
    not before the cleanup, [is_tweet_similar] and
    [get_fresh_categories] answer on the cleaned data what they would
    have answered on the data as it was. *)
Theorem cleanup_keeps_post_answers (rt : Runtime) (days_ : Z) (s s2 : TrackerSt) :
  hours 48 < days days_ →
  tracking_data s2 = tracking_data (snd (cleanup_old_data rt days_ s)) →
  clock rt (ticks (world s)) <= clock rt (ticks (world s2)) →
  let before := set_tracking_data (tracking_data s) s2 in
  (∀ tweet_text similarity_threshold,
     fst (is_tweet_similar rt tweet_text similarity_threshold s2)
     = fst (is_tweet_similar rt tweet_text similarity_threshold before))
  ∧ fst (get_fresh_categories rt s2) = fst (get_fresh_categories rt before).
Proof.
  intros Hret Hdata Hclock before.
  destruct (cleanup_old_data_run rt days_ s) as (s1 & Hrun & Htd & _).
  rewrite Hrun in Hdata. simpl in Hdata.
  assert (Hvalues : Dict.values (generated_tweets (tracking_data s2))
                    = List.filter
                        (λ v, clock rt (ticks (world s)) - days days_ <? tr_timestamp v)
                        (Dict.values (generated_tweets (tracking_data s)))).
  { rewrite Hdata, Htd. simpl. apply filter_values_values. }
  split.
  - intros tweet_text similarity_threshold.
    destruct (is_tweet_similar_run rt tweet_text similarity_threshold s2)
      as (s3 & -> & _).
    destruct (is_tweet_similar_run rt tweet_text similarity_threshold before)
      as (s4 & -> & _).
    simpl. rewrite Hvalues. apply similar_to_any_filter.
    unfold hours, days in *. lia.
  - destruct (get_fresh_categories_run rt s2) as (s3 & -> & _).
    destruct (get_fresh_categories_run rt before) as (s4 & -> & _).
    simpl. rewrite Hvalues. f_equal. f_equal. apply used_categories_filter.
    unfold hours, days in *. lia.
Qed.

Lemma cleanup_keeps_post_answers_witness :
  fst (get_fresh_categories Scenario.echo_runtime
         (snd (cleanup_old_data Scenario.echo_runtime 7
                 {| tracking_data := Scenario.thirty_hours_ago;
                    world := Scenario.echo_world |})))
  = fst (get_fresh_categories Scenario.echo_runtime
           (set_tracking_data Scenario.thirty_hours_ago
              (snd (cleanup_old_data Scenario.echo_runtime 7
                      {| tracking_data := Scenario.thirty_hours_ago;
                         world := Scenario.echo_world |})))).
Proof.
  apply (cleanup_keeps_post_answers Scenario.echo_runtime 7
           {| tracking_data := Scenario.thirty_hours_ago;
              world := Scenario.echo_world |} _).
  - reflexivity.
  - reflexivity.
  - vm_compute. discriminate.
Defined.

Lemma filter_values_lookup {V} (keep : V → bool) (k : string) (d : Dict.t V) :
  NoDup (Dict.keys d) →
  Dict.lookup k (Dict.filter_values keep d)
  = match Dict.lookup k d with
    | Some v => if keep v then Some v else None
    | None => None
    end.
Proof.
  induction d as [|[k' v'] d IH]; simpl; intros Hnd; [done|].
  apply NoDup_cons in Hnd as [Hk Hnd].
  destruct (String.eqb k k') eqn:E.
  - apply String.eqb_eq in E as <-.
    destruct (keep v') eqn:Hkeep; simpl; [by rewrite String.eqb_refl|].
    rewrite (IH Hnd).
    destruct (Dict.lookup k d) as [v|] eqn:Hl; [|done].
    exfalso. apply Hk. apply lookup_Some_elem in Hl.
    apply list_elem_of_fmap. by exists (k, v).
  - destruct (keep v'); simpl; rewrite ?E; by apply IH.
Qed.

Lemma is_article_processed_run (rt : Runtime) (article : Article) (s : TrackerSt) :
  fst (is_article_processed rt article s)
  = Ok match Dict.lookup
               (_generate_content_hash rt (a_title article +:+ a_summary article))
               (article_hashes (tracking_data s)) with
       | Some record => clock rt (ticks (world s)) - ar_timestamp record <? hours 48
       | None => false
       end.
Proof.
  destruct s as [td [d p t]]. unfold is_article_processed. run_tracker.
  destruct (Dict.lookup _ (article_hashes td)); [|done]. simpl.
  by destruct (_ <? _).
Qed.

(** X8.  Cleanup with a retention of at least 48 hours changes no
    answer of the keyed queries either: on a tracker whose dictionaries
    have one entry per key, and asked at a time not before the cleanup,
    [is_article_processed] answers the same on the cleaned data as on
    the data as it was, and so does [is_token_recently_mentioned] for
    every window not longer than the retention. *)
Theorem cleanup_keeps_keyed_answers (rt : Runtime) (days_ : Z) (s s2 : TrackerSt) :
  NoDup (Dict.keys (article_hashes (tracking_data s))) →
  NoDup (Dict.keys (token_mentions (tracking_data s))) →
  hours 48 <= days days_ →
  tracking_data s2 = tracking_data (snd (cleanup_old_data rt days_ s)) →
  clock rt (ticks (world s)) <= clock rt (ticks (world s2)) →
  let before := set_tracking_data (tracking_data s) s2 in
  (∀ article,
     fst (is_article_processed rt article s2)
     = fst (is_article_processed rt article before))
  ∧ (∀ token hours_,
       hours hours_ <= days days_ →
       fst (is_token_recently_mentioned rt token hours_ s2)
       = fst (is_token_recently_mentioned rt token hours_ before)).
Proof.
  intros Hnd1 Hnd2 Hret Hdata Hclock before.
  destruct (cleanup_old_data_run rt days_ s) as (s1 & Hrun & Htd & _).
  rewrite Hrun in Hdata. simpl in Hdata.
  split.
  - intros article. rewrite !is_article_processed_run. f_equal.
    rewrite Hdata, Htd. simpl. rewrite (filter_values_lookup _ _ _ Hnd1).
    destruct (Dict.lookup _ (article_hashes (tracking_data s))) as [record|]; [|done].
    destruct (Z.ltb_spec (clock rt (ticks (world s)) - days days_)
                (ar_timestamp record)); [done|].
    symmetry. apply Z.ltb_ge. lia.
  - intros token hours_ Hwin. rewrite !is_token_recently_mentioned_run. f_equal.
    rewrite Hdata, Htd. simpl. rewrite (filter_values_lookup _ _ _ Hnd2).
    destruct (Dict.lookup _ (token_mentions (tracking_data s))) as [mention|]; [|done].
    destruct (Z.ltb_spec (clock rt (ticks (world s)) - days days_)
                (tm_last_mention mention)); [done|].
    symmetry. apply Z.ltb_ge. lia.
Qed.

Lemma cleanup_keeps_keyed_answers_witness :
  fst (is_article_processed Scenario.echo_runtime Scenario.broad_article
         (snd (cleanup_old_data Scenario.echo_runtime 7 Scenario.blank_tracker)))
  = fst (is_article_processed Scenario.echo_runtime Scenario.broad_article
           (set_tracking_data (tracking_data Scenario.blank_tracker)
              (snd (cleanup_old_data Scenario.echo_runtime 7 Scenario.blank_tracker)))).
Proof.
  apply (cleanup_keeps_keyed_answers Scenario.echo_runtime 7 Scenario.blank_tracker _).
  - apply NoDup_nil_2.
  - apply NoDup_nil_2.
  - vm_compute. discriminate.
  - reflexivity.
  - vm_compute. discriminate.
Defined.

(** ** Freshness Tracker: overused topics *)

Lemma tally_setitem (cat other : string) (v : Z) (counts : Dict.t Z) :
  tally other (Dict.setitem cat v counts)
  = if decide (other = cat) then v else tally other counts.
Proof.
  unfold tally. destruct (decide (other = cat)) as [->|Hne].
  - by rewrite dict_lookup_setitem_eq.
  - by rewrite dict_lookup_setitem_ne.
Qed.

Lemma tally_one_tweet (cats : list string) (counts : Dict.t Z) (c : string) :
  NoDup cats →
  tally c
    (fold_left
       (λ counts cat,
          Dict.setitem cat (default 0 (Dict.lookup cat counts) + 1) counts)
       cats counts)
  = tally c counts + (if bool_decide (c ∈ cats) then 1 else 0).
Proof.
  revert counts. induction cats as [|x cats IH]; intros counts Hnd; cbn [fold_left].
  - rewrite bool_decide_eq_false_2; [lia|]. by intros ?%elem_of_nil.
  - apply NoDup_cons in Hnd as [Hx Hnd]. rewrite (IH _ Hnd), tally_setitem.
    fold (tally x counts).
    destruct (decide (c = x)) as [->|Hne].
    + rewrite (bool_decide_eq_false_2 (x ∈ cats)); [|done].
      rewrite bool_decide_eq_true_2; [lia|left].
    + destruct (bool_decide (c ∈ cats)) eqn:E.
      * apply bool_decide_eq_true in E.
        rewrite bool_decide_eq_true_2; [lia|by right].
      * apply bool_decide_eq_false in E.
        rewrite bool_decide_eq_false_2; [lia|].
        by intros [?|?]%elem_of_cons.
Qed.

Lemma tally_count_categories (recent_cutoff : Z) (tweets : list TweetRecord)
    (counts : Dict.t Z) (c : string) :
  tally c (count_categories recent_cutoff tweets counts)
  = tally c counts + Z.of_nat (recent_uses recent_cutoff tweets c).
Proof.
  unfold count_categories, recent_uses.
  revert counts. induction tweets as [|tw tweets IH]; intros counts; simpl; [lia|].
  rewrite IH. destruct (recent_cutoff <? tr_timestamp tw); simpl; [|done].
  rewrite tally_one_tweet by apply NoDup_elements.
  destruct (bool_decide (c ∈ _categorize_content (tr_text tw))) eqn:E.
  - apply bool_decide_eq_true in E.
    rewrite bool_decide_eq_true_2 by (by apply elem_of_elements).
    simpl. lia.
  - apply bool_decide_eq_false in E.
    rewrite bool_decide_eq_false_2 by (by rewrite elem_of_elements).
    lia.
Qed.

Lemma tally_initial (c : string) (keys : list string) :
  tally c (map (λ cat, (cat, 0)) keys) = 0.
Proof.
  unfold tally. induction keys as [|k keys IH]; simpl; [done|].
  by destruct (String.eqb c k).
Qed.

Lemma overused_count (c : string) (recent_cutoff : Z) (tweets : list TweetRecord)
    (counts : Dict.t Z) :
  tally c counts = 0 →
  (2 <=? default 0 (Dict.lookup c (count_categories recent_cutoff tweets counts)))
  = (2 <=? Z.of_nat (recent_uses recent_cutoff tweets c)).
Proof.
  intros Hzero.
  change (default 0 (Dict.lookup c (count_categories recent_cutoff tweets counts)))
    with (tally c (count_categories recent_cutoff tweets counts)).
  by rewrite tally_count_categories, Hzero.
Qed.

Lemma is_topic_overused_run (rt : Runtime) (article : Article) (s : TrackerSt) :
  fst (is_topic_overused rt article s)
  = Ok (existsb
          (λ cat,
             2 <=? default 0
                     (Dict.lookup cat
                        (count_categories (clock rt (ticks (world s)) - hours 24)
                           (Dict.values (generated_tweets (tracking_data s)))
                           (map (λ cat, (cat, 0)) (Dict.keys CATEGORIES)))))
          (elements
             (_categorize_content (a_title article +:+ " " +:+ a_summary article)))).
Proof. by destruct s as [td [d p t]]. Qed.

(** X9.  [is_topic_overused(article)] never raises, and answers true
    exactly when, for some category of the article's title and summary,
    at least two stored posts newer than 24 hours have that category
    too; a post with several categories counts for each of them. *)
Theorem is_topic_overused_spec (rt : Runtime) (article : Article) (s : TrackerSt) :
  let recent_cutoff := clock rt (ticks (world s)) - hours 24 in
  let tweets := Dict.values (generated_tweets (tracking_data s)) in
  ∃ answer,
    fst (is_topic_overused rt article s) = Ok answer
    ∧ (answer = true
       ↔ ∃ cat,
           cat ∈ _categorize_content (a_title article +:+ " " +:+ a_summary article)
           ∧ (2 <= recent_uses recent_cutoff tweets cat)%nat).
Proof.
  intros recent_cutoff tweets.
  rewrite is_topic_overused_run.
  eexists. split; [reflexivity|].
  rewrite existsb_exists. split.
  - intros (cat & Hin & Hcount). exists cat.
    split; [by apply elem_of_elements, list_elem_of_In|].
    rewrite overused_count in Hcount by apply tally_initial.
    apply Z.leb_le in Hcount. subst recent_cutoff tweets. lia.
  - intros (cat & Hin & Hcount). exists cat.
    split; [by apply list_elem_of_In, elem_of_elements|].
    rewrite overused_count by apply tally_initial. apply Z.leb_le.
    subst recent_cutoff tweets. lia.
Qed.



(** ** Selection loop: responses *)

Lemma parse_response_fold_no_label (lines : list string) (reasoning : string) :
  (∀ line, line ∈ lines → startswith line "TWEET: " = false) →
  snd (fold_left
         (λ (acc : string * string) line,
            let '(reasoning, tweet_text) := acc in
            if startswith line "REASONING: "
            then (remove_all "REASONING: " line, tweet_text)
            else if startswith line "TWEET: "
            then (reasoning, remove_all "TWEET: " line)
            else (reasoning, tweet_text))
         lines (reasoning, EmptyString))
  = EmptyString.
Proof.
  revert reasoning. induction lines as [|line lines IH]; intros reasoning Hno; [done|].
  cbn [fold_left].
  assert (Hline : startswith line "TWEET: " = false) by (apply Hno; left).
  assert (Hrest : ∀ l, l ∈ lines → startswith l "TWEET: " = false)
    by (intros l Hl; apply Hno; by right).
  destruct (startswith line "REASONING: "); [by apply IH|].
  rewrite Hline. by apply IH.
Qed.

(** X11.  A response without a post-text line is a failed attempt, not
    an error.  When the generation collaborator, whenever it answers,
    answers with a text none of whose lines starts with "TWEET: " (and
    whatever it raises when it does not answer), [generate_tweet] ends
    with [None], provided the patterns of the archive can be
    computed. *)
Theorem unlabelled_responses_give_none (rt : Runtime) (articles : list Article)
    (tweets : list SocialTweet) (pools : list Pool) (w : World)
    (rp : RecentPatterns) :
  (∀ attempt focus prompt_articles response,
     claude rt attempt focus prompt_articles = Ok response →
     ∀ line, line ∈ split_lines response → startswith line "TWEET: " = false) →
  recent_patterns (default [] (generated_tweets_json (disk w))) = Ok rp →
  fst (generate_tweet rt articles tweets pools w) = Ok None.
Proof.
  intros Hno Hrp. unfold generate_tweet.
  set (s0 := {| tracking_data := __init__ (disk w); world := w |}).
  destruct (generate_tweet_run_unfold rt articles tweets pools s0)
    as (s1 & fresh & _ & Hunf).
  change (disk (world s0)) with (disk w) in Hunf.
  destruct (retry_loop_run rt articles _ fresh rp max_retries 0 ∅ s1 Hrp)
    as (value & Hloop & Hval).
  rewrite Hloop in Hunf. rewrite Hunf. simpl.
  destruct value as [[tweet reasoning]|]; [|done].
  destruct Hval as (k & tried & _ & focus & rest & response & rl & tl
                    & _ & Hc & Hp & Hne & _).
  exfalso. apply Hne.
  pose proof (parse_response_fold_no_label (split_lines response) EmptyString
                (Hno _ _ _ _ Hc)) as Hsnd.
  unfold parse_response in Hp. rewrite Hp in Hsnd. exact Hsnd.
Qed.

Lemma unlabelled_responses_give_none_witness :
  fst (generate_tweet (Scenario.runtime 0 (Ok "I would rather not post today."))
         [Scenario.broad_article] [] [] Scenario.first_run_world)
  = Ok None.
Proof.
  apply (unlabelled_responses_give_none
           (Scenario.runtime 0 (Ok "I would rather not post today."))
           [Scenario.broad_article] [] [] Scenario.first_run_world no_patterns).
  - intros attempt focus prompt_articles response [= <-] line Hline.
    apply elem_of_cons in Hline as [->|Hline]; [reflexivity|].
    by apply elem_of_nil in Hline.
  - reflexivity.
Defined.

Lemma str_in_char_app (c : ascii) (a b : string) :
  str_in (String c EmptyString) (a +:+ b)
  = str_in (String c EmptyString) a || str_in (String c EmptyString) b.
Proof.
  induction a as [|x a IH].
  - by rewrite app_empty.
  - rewrite app_String. simpl. rewrite IH.
    by destruct (Ascii.eqb c x).
Qed.

Lemma split_lines_single (b : string) :
  str_in newline b = false → split_lines b = [b].
Proof.
  unfold newline. induction b as [|c b IH]; [done|].
  intros H. simpl in H. apply orb_false_iff in H as [Hc Hb]. simpl.
  destruct (Ascii.eqb c "010") eqn:E.
  - apply Ascii.eqb_eq in E as ->. simpl in Hc. discriminate.
  - by rewrite (IH Hb).
Qed.

Lemma split_lines_String (c : ascii) (s : string) :
  split_lines (String c s)
  = if Ascii.eqb c "010" then EmptyString :: split_lines s
    else match split_lines s with
         | l :: ls => String c l :: ls
         | [] => [String c EmptyString]
         end.
Proof. reflexivity. Qed.

Lemma split_lines_two (a b : string) :
  str_in newline a = false →
  str_in newline b = false →
  split_lines (a +:+ newline +:+ b) = [a; b].
Proof.
  intros Ha Hb. induction a as [|c a IH].
  - rewrite app_empty. unfold newline at 1. rewrite app_String, app_empty. simpl.
    by rewrite split_lines_single.
  - unfold newline in Ha. simpl in Ha. apply orb_false_iff in Ha as [Hc Ha].
    rewrite app_String, split_lines_String.
    destruct (Ascii.eqb c "010") eqn:E.
    + apply Ascii.eqb_eq in E as ->. simpl in Hc. discriminate.
    + by rewrite (IH Ha).
Qed.

Lemma remove_all_fuel_absent (fuel : nat) (old s : string) :
  str_in old s = false → remove_all_fuel fuel old s = s.
Proof.
  revert s. induction fuel as [|fuel IH]; intros s Hs; [done|].
  destruct s as [|c s]; [done|]. simpl in *.
  apply orb_false_iff in Hs as [Hhere Hrest].
  rewrite Hhere. by rewrite IH.
Qed.

Lemma drop_chars_app (old t : string) :
  drop_chars (String.length old) (old +:+ t) = t.
Proof.
  induction old as [|c old IH]; [by rewrite app_empty|].
  rewrite app_String. exact IH.
Qed.

Lemma remove_all_label (old t : string) :
  old ≠ EmptyString →
  str_in old t = false →
  remove_all old (old +:+ t) = t.
Proof.
  intros Hold Ht. unfold remove_all.
  destruct (old +:+ t) as [|c s'] eqn:E.
  - destruct old; [done|]. rewrite app_String in E. discriminate.
  - cbn [String.length remove_all_fuel]. rewrite <- E.
    rewrite startswith_app, drop_chars_app.
    by apply remove_all_fuel_absent.
Qed.

(** X12.  The response format reads back.  For a reasoning and a post
    that hold no line feed and do not themselves contain their label,
    [parse_response] of the two labelled lines returns the reasoning
    and the post as they were written. *)
Theorem parse_response_reads_back (reasoning tweet : string) :
  str_in newline reasoning = false →
  str_in newline tweet = false →
  str_in "REASONING: " reasoning = false →
  str_in "TWEET: " tweet = false →
  parse_response (labelled_response reasoning tweet) = (reasoning, tweet).
Proof.
  intros Hnl_r Hnl_t Hlab_r Hlab_t.
  unfold parse_response, labelled_response.
  assert (Hsplit : split_lines
                     (("REASONING: " +:+ reasoning) +:+ newline
                      +:+ ("TWEET: " +:+ tweet))
                   = ["REASONING: " +:+ reasoning; "TWEET: " +:+ tweet]).
  { apply split_lines_two; unfold newline in *.
    - by rewrite str_in_char_app, Hnl_r.
    - by rewrite str_in_char_app, Hnl_t. }
  rewrite Hsplit. cbn [fold_left].
  rewrite (startswith_app "REASONING: " reasoning).
  rewrite (remove_all_label "REASONING: " reasoning) by done.
  assert (Hnot : startswith ("TWEET: " +:+ tweet) "REASONING: " = false) by done.
  rewrite Hnot, (startswith_app "TWEET: " tweet).
  by rewrite (remove_all_label "TWEET: " tweet).
Qed.

Lemma parse_response_reads_back_witness :
  parse_response
    (labelled_response "Fees fell by half this week" "Layer2 fees keep falling")
  = ("Fees fell by half this week", "Layer2 fees keep falling")%string.
Proof.
  apply parse_response_reads_back; reflexivity.
Defined.

(** ** Selection loop: the order of the categories *)

Lemma insert_desc_perm {A} (key : A → Z) (x : A) (l : list A) :
  insert_desc key x l ≡ₚ x :: l.
Proof.
  induction l as [|y l IH]; simpl; [done|].
  destruct (key x <? key y); [|done].
  rewrite IH. apply Permutation_swap.
Qed.

Lemma sorted_desc_perm {A} (key : A → Z) (l : list A) :
  sorted_desc key l ≡ₚ l.
Proof.
  induction l as [|x l IH]; simpl; [done|].
  by rewrite insert_desc_perm, IH.
Qed.

Lemma insert_desc_descending {A} (key : A → Z) (x : A) (l : list A) :
  descending key l → descending key (insert_desc key x l).
Proof.
  induction l as [|y l IH]; simpl; intros Hl; [by split|].
  destruct Hl as [Hy Hl].
  destruct (Z.ltb_spec (key x) (key y)) as [Hlt|Hge]; simpl.
  - split; [|by apply IH].
    rewrite insert_desc_perm. apply Forall_cons. split; [lia|done].
  - split; [|by split]. apply Forall_cons. split; [done|].
    eapply Forall_impl; [exact Hy|]. intros z Hz. simpl in Hz. lia.
Qed.

Lemma sorted_desc_descending {A} (key : A → Z) (l : list A) :
  descending key (sorted_desc key l).
Proof.
  induction l as [|x l IH]; simpl; [done|]. by apply insert_desc_descending.
Qed.

(** X13.  Prioritising loses nothing.  The list of categories that the
    retry loop walks through holds exactly the fresh categories, each
    as often as the enumeration of the set gave it; without any social
    theme it is that enumeration itself, and with social themes it is
    in descending order of the number of top engaged posts on the
    theme. *)
Theorem prioritized_categories_spec (rt : Runtime) (tweets : list SocialTweet)
    (fresh : gset string) :
  prioritized_categories rt tweets fresh ≡ₚ set_iter rt fresh
  ∧ (social_themes tweets = [] →
     prioritized_categories rt tweets fresh = set_iter rt fresh)
  ∧ (social_themes tweets ≠ [] →
     descending (λ x, default 0 (Dict.lookup x (social_themes tweets)))
       (prioritized_categories rt tweets fresh)).
Proof.
  unfold prioritized_categories.
  destruct (social_themes tweets) as [|theme themes] eqn:E.
  - split; [done|]. split; [done|]. by intros [].
  - split; [apply sorted_desc_perm|]. split; [done|].
    intros _. apply sorted_desc_descending.
Qed.

(** ** Selection loop: what an accepted post avoids *)

Lemma string_app_assoc (a b c : string) : (a +:+ b) +:+ c = a +:+ (b +:+ c).
Proof.
  induction a as [|x a IH]; [done|]. by rewrite !app_String, IH.
Qed.

Lemma lstrip_suffix (s : string) : ∃ pre, s = pre +:+ lstrip s.
Proof.
  induction s as [|c s [pre IH]]; [by exists EmptyString|]. simpl.
  destruct (isspace c).
  - exists (String c pre). by rewrite app_String, <- IH.
  - by exists EmptyString.
Qed.

Lemma rstrip_prefix (s : string) : ∃ post, s = rstrip s +:+ post.
Proof.
  induction s as [|c s [post IH]]; [by exists EmptyString|]. simpl.
  destruct (rstrip s) as [|r rs] eqn:E.
  - destruct (isspace c).
    + by exists (String c s).
    + exists s. by rewrite app_String, app_empty.
  - exists post. by rewrite app_String, <- IH.
Qed.

Lemma strip_substring (s : string) : ∃ pre post, s = pre +:+ strip s +:+ post.
Proof.
  destruct (lstrip_suffix s) as [pre Hpre].
  destruct (rstrip_prefix (lstrip s)) as [post Hpost].
  exists pre, post. unfold strip. by rewrite <- Hpost.
Qed.

Lemma str_in_strip (p s : string) :
  str_in p (lower (strip s)) = true → str_in p (lower s) = true.
Proof.
  destruct (strip_substring s) as (pre & post & Hs).
  generalize dependent (strip s). intros t ->.
  rewrite !str_in_spec. intros (pre' & post' & Hin).
  rewrite !lower_app, Hin.
  exists (lower pre +:+ pre'), (post' +:+ lower post).
  by rewrite !string_app_assoc.
Qed.

(** X14.  A post that [generate_tweet] returns mentions none of the
    recent tokens: whatever tracked coin name one of the last five
    archived posts mentions, case ignored, does not occur in the
    returned text, case ignored. *)
Theorem returned_post_avoids_recent_tokens (rt : Runtime) (articles : list Article)
    (tweets : list SocialTweet) (pools : list Pool) (w : World)
    (tweet reasoning : string) :
  fst (generate_tweet rt articles tweets pools w) = Ok (Some (tweet, reasoning)) →
  ∀ archived token,
    archived ∈ last_n 5 (default [] (generated_tweets_json (disk w))) →
    token ∈ TRACKED_TOKENS →
    str_in (lower token) (lower (td_tweet archived)) = true →
    str_in (lower token) (lower tweet) = false.
Proof.
  intros Hrun archived token Hin Htracked Hmention.
  unfold generate_tweet in Hrun.
  set (s0 := {| tracking_data := __init__ (disk w); world := w |}) in Hrun.
  destruct (generate_tweet_run_unfold rt articles tweets pools s0)
    as (s1 & fresh & _ & Hunf).
  change (disk (world s0)) with (disk w) in Hunf. rewrite Hunf in Hrun.
  destruct (recent_patterns (default [] (generated_tweets_json (disk w))))
    as [rp|e] eqn:Hrp.
  2:{ unfold max_retries in Hrun.
      by rewrite (retry_loop_raises _ _ _ _ _ _ _ _ _ Hrp) in Hrun. }
  destruct (retry_loop_run rt articles _ fresh rp max_retries 0 ∅ s1 Hrp)
    as (value & Hloop & Hval).
  rewrite Hloop in Hrun. simpl in Hrun. injection Hrun as ->.
  destruct Hval as (k & tried & _ & focus & rest & response & rl & tl
                    & _ & _ & _ & _ & _ & Hno & -> & _).
  apply patterns_from_Ok in Hrp as (_ & _ & Hall).
  destruct (Hall _ Hin) as [Htok _].
  destruct (str_in (lower token) (lower (strip tl))) eqn:E; [|done].
  apply str_in_strip in E.
  assert (mentions_recent_token rp tl = true) as Hm
    by (apply mentions_recent_token_true; exists token; split; [by apply Htok|done]).
  congruence.
Qed.

Lemma returned_post_avoids_recent_tokens_witness :
  str_in "eth" (lower "Wallets reach a new record") = false.
Proof.
  apply (returned_post_avoids_recent_tokens
           (Scenario.runtime 0 (Ok (Scenario.response_of "x" "Wallets reach a new record")))
           [Scenario.broad_article] [] []
           (Scenario.world_of None (Some Scenario.eth_archive) None)
           "Wallets reach a new record" "x"
           eq_refl (Scenario.archived "Staking on ETH keeps growing") "ETH"%string).
  - left.
  - right. right. left.
  - reflexivity.
Defined.

(** ** Selection loop: the recent patterns, exactly *)

Lemma patterns_from_exact (rp0 rp : RecentPatterns) (tweets : list TweetData) :
  patterns_from (Ok rp0) tweets = Ok rp →
  (∀ token, token ∈ rp_tokens rp
            ↔ token ∈ rp_tokens rp0
              ∨ (token ∈ TRACKED_TOKENS
                 ∧ ∃ tweet, tweet ∈ tweets
                            ∧ str_in (lower token) (lower (td_tweet tweet)) = true))
  ∧ (∀ phrase, phrase ∈ rp_phrases rp
               ↔ phrase ∈ rp_phrases rp0
                 ∨ ∃ tweet first_word rest,
                     tweet ∈ tweets
                     ∧ split (td_tweet tweet) = first_word :: rest
                     ∧ phrase = lower first_word).
Proof.
  revert rp0. induction tweets as [|tw tweets IH]; intros rp0; simpl.
  - intros [= ->]. split.
    + intros token. split; [by left|]. intros [H|(_ & tweet & H & _)]; [done|].
      by apply elem_of_nil in H.
    + intros phrase. split; [by left|]. intros [H|(tweet & w & ws & H & _)]; [done|].
      by apply elem_of_nil in H.
  - destruct (add_patterns rp0 tw) as [rp1|e] eqn:E.
    2:{ fold (patterns_from (Raise e) tweets). by rewrite patterns_from_Raise. }
    intros Hrest. fold (patterns_from (Ok rp1) tweets) in Hrest.
    destruct (IH _ Hrest) as [Htok Hphr].
    destruct (add_patterns_Ok _ _ _ E) as (Htok1 & w & ws & Hsplit & Hphr1).
    split.
    + intros token. rewrite Htok, Htok1, add_tokens_spec. split.
      * intros [[H|[Htr Hm]]|(Htr & tweet & Hin & Hm)].
        -- by left.
        -- right. split; [done|]. exists tw. split; [left|done].
        -- right. split; [done|]. exists tweet. split; [by right|done].
      * intros [H|(Htr & tweet & Hin & Hm)]; [by left; left|].
        apply elem_of_cons in Hin as [->|Hin].
        -- left. by right.
        -- right. split; [done|]. by exists tweet.
    + intros phrase. rewrite Hphr, Hphr1, elem_of_union, elem_of_singleton. split.
      * intros [[H| ->]|(tweet & fw & rest & Hin & Hs & ->)].
        -- by left.
        -- right. exists tw, w, ws. split; [left|done].
        -- right. exists tweet, fw, rest. split; [by right|done].
      * intros [H|(tweet & fw & rest & Hin & Hs & ->)]; [by left; left|].
        apply elem_of_cons in Hin as [->|Hin].
        -- left. right. rewrite Hsplit in Hs. by injection Hs as -> _.
        -- right. by exists tweet, fw, rest.
Qed.

Lemma patterns_from_words (rp0 : RecentPatterns) (tweets : list TweetData) :
  (∀ tweet, tweet ∈ tweets → split (td_tweet tweet) ≠ []) →
  ∃ rp, patterns_from (Ok rp0) tweets = Ok rp.
Proof.
  revert rp0. induction tweets as [|tw tweets IH]; intros rp0 Hall; simpl.
  - by exists rp0.
  - fold (patterns_from (add_patterns rp0 tw) tweets). unfold add_patterns at 1.
    destruct (split (td_tweet tw)) as [|w ws] eqn:E.
    + exfalso. by apply (Hall tw); [left|].
    + apply IH. intros tweet Hin. apply Hall. by right.
Qed.

Lemma last_n_length {A} (n : nat) (l : list A) : (length (last_n n l) <= n)%nat.
Proof. unfold last_n. rewrite length_drop. lia. Qed.

(** X15.  The recent patterns, exactly.  They are computed from at
    most five posts, the last ones of the archive, and computing them
    succeeds when each of those has a word.  The tokens to avoid are
    then the tracked coin names that one of those posts mentions, case
    ignored, and no other; the opening phrases are the lower-cased
    first words of those posts, and no other. *)
Theorem recent_patterns_exact (previous_tweets : list TweetData) :
  (length (last_n 5 previous_tweets) <= 5)%nat
  ∧ ((∀ tweet, tweet ∈ last_n 5 previous_tweets → split (td_tweet tweet) ≠ []) →
     ∃ rp, recent_patterns previous_tweets = Ok rp)
  ∧ (∀ rp, recent_patterns previous_tweets = Ok rp →
       (∀ token, token ∈ rp_tokens rp
                 ↔ token ∈ TRACKED_TOKENS
                   ∧ ∃ tweet, tweet ∈ last_n 5 previous_tweets
                              ∧ str_in (lower token) (lower (td_tweet tweet)) = true)
       ∧ (∀ phrase, phrase ∈ rp_phrases rp
                    ↔ ∃ tweet first_word rest,
                        tweet ∈ last_n 5 previous_tweets
                        ∧ split (td_tweet tweet) = first_word :: rest
                        ∧ phrase = lower first_word)).
Proof.
  split; [apply last_n_length|]. split.
  - intros Hall. by apply patterns_from_words.
  - intros rp Hrp. apply patterns_from_exact in Hrp as [Htok Hphr]. split.
    + intros token. rewrite Htok. split; [|by right].
      intros [H|H]; [by apply not_elem_of_empty in H|done].
    + intros phrase. rewrite Hphr. split; [|by right].
      intros [H|H]; [by apply not_elem_of_empty in H|done].
Qed.

(** ** The pipeline: what a run archives *)

Lemma saved_keeps_archive (td : TrackingData) (d : Disk) :
  generated_tweets_json (saved td d) = generated_tweets_json d
  ∧ writable (saved td d) = writable d.
Proof. unfold saved. by destruct (writable d) eqn:E. Qed.

Lemma tracking_step_bind (m : M TrackerSt ()) (k : () → M TrackerSt ()) :
  tracking_step m → (∀ u, tracking_step (k u)) → tracking_step (bind m k).
Proof.
  intros Hm Hk s. unfold bind. destruct (Hm s) as (Hok & Ha & Hw & Hp).
  destruct (m s) as [[u|e] s1]; simpl in *; [|done].
  destruct (Hk u s1) as (Hok' & Ha' & Hw' & Hp').
  split; [done|]. split; [congruence|]. split; congruence.
Qed.

Lemma tracking_step_for_each {A} (l : list A) (body : A → M TrackerSt ()) :
  (∀ x, tracking_step (body x)) → tracking_step (for_each l body).
Proof.
  intros Hbody. induction l as [|x l IH]; simpl; [done|].
  apply tracking_step_bind; [done|]. by intros _.
Qed.

Lemma track_article_step (rt : Runtime) (article : Article) :
  tracking_step (track_article rt article).
Proof.
  intros s. pose proof (track_article_posted rt article s) as Hp.
  destruct (track_article_saved rt article s) as (s' & Hrun & Hd).
  rewrite Hrun in *. simpl in *. rewrite Hd.
  destruct (saved_keeps_archive (tracking_data s') (disk (world s))) as [-> ->].
  done.
Qed.

Lemma track_token_mention_step (rt : Runtime) (token : string) :
  tracking_step (track_token_mention rt token).
Proof.
  intros s.
  destruct (track_token_mention_run rt token s) as (s' & -> & _ & Hd & Hp & _).
  simpl. rewrite Hd.
  destruct (saved_keeps_archive (tracking_data s') (disk (world s))) as [-> ->].
  done.
Qed.





(** ** The pipeline: what a published run tracks *)

Lemma track_article_hashes (rt : Runtime) (article : Article) (s : TrackerSt) :
  ∃ s', track_article rt article s = (Ok (), s')
        ∧ article_hashes (tracking_data s')
          = Dict.setitem
              (_generate_content_hash rt (a_title article +:+ a_summary article))
              {| ar_title := a_title article;
                 ar_url := a_link article;
                 ar_summary := a_summary article;
                 ar_timestamp := clock rt (ticks (world s)) |}
              (article_hashes (tracking_data s))
        ∧ ticks (world s') = S (ticks (world s)).
Proof.
  destruct s as [td [d p t]].
  unfold track_article, _save_tracking_data, save_archive_tracking. run_tracker.
  destruct (writable d); simpl; eexists; by repeat split.
Qed.

(** The record of an article is in place, written at a reading of the
    clock from [k0] on and before the present one. *)
Definition recorded_since (rt : Runtime) (k0 : nat) (article : Article)
    (s : TrackerSt) : Prop :=
  ∃ record k,
    Dict.lookup (_generate_content_hash rt (a_title article +:+ a_summary article))
      (article_hashes (tracking_data s)) = Some record
    ∧ ar_timestamp record = clock rt k
    ∧ (k0 <= k < ticks (world s))%nat.

Lemma recorded_since_later (rt : Runtime) (k0 : nat) (article : Article)
    (s s' : TrackerSt) :
  article_hashes (tracking_data s') = article_hashes (tracking_data s) →
  (ticks (world s) <= ticks (world s'))%nat →
  recorded_since rt k0 article s → recorded_since rt k0 article s'.
Proof.
  intros Hh Ht (record & k & Hl & Hts & Hk).
  exists record, k. rewrite Hh. split; [done|]. split; [done|lia].
Qed.

Lemma track_articles_recorded (rt : Runtime) (k0 : nat) (articles : list Article)
    (s : TrackerSt) :
  (k0 <= ticks (world s))%nat →
  let s' := snd (for_each articles (track_article rt) s) in
  (ticks (world s) <= ticks (world s'))%nat
  ∧ (∀ article, recorded_since rt k0 article s → recorded_since rt k0 article s')
  ∧ (∀ article, article ∈ articles → recorded_since rt k0 article s').
Proof.
  revert s. induction articles as [|a articles IH]; intros s Hk0; simpl.
  - split; [done|]. split; [done|]. intros article H. by apply elem_of_nil in H.
  - destruct (track_article_hashes rt a s) as (s1 & Hrun & Hh & Ht).
    unfold bind. rewrite Hrun.
    destruct (IH s1) as (Hticks & Hkeep & Hall); [lia|]. simpl in *.
    assert (Hstep : ∀ article, recorded_since rt k0 article s →
                               recorded_since rt k0 article s1).
    { intros article (record & k & Hl & Hts & Hk). unfold recorded_since.
      rewrite Hh, Ht.
      destruct (decide (_generate_content_hash rt (a_title article +:+ a_summary article)
                        = _generate_content_hash rt (a_title a +:+ a_summary a)))
        as [Heq|Hne].
      - rewrite Heq, dict_lookup_setitem_eq. eexists _, (ticks (world s)).
        split; [done|]. split; [done|lia].
      - rewrite dict_lookup_setitem_ne by done. exists record, k.
        split; [done|]. split; [done|lia]. }
    split; [lia|]. split; [by intros article H; apply Hkeep, Hstep|].
    intros article Hin. apply elem_of_cons in Hin as [->|Hin]; [|by apply Hall].
    apply Hkeep. unfold recorded_since. rewrite Hh, Ht, dict_lookup_setitem_eq.
    eexists _, (ticks (world s)). split; [done|]. split; [done|lia].
Qed.

Lemma track_mentions_keep_articles (rt : Runtime) (pools : list Pool) (s : TrackerSt) :
  let s' := snd (for_each pools
                   (λ pool, track_token_mention rt (p_base_token pool) ;;;
                            track_token_mention rt (p_quote_token pool)) s) in
  article_hashes (tracking_data s') = article_hashes (tracking_data s)
  ∧ (ticks (world s) <= ticks (world s'))%nat.
Proof.
  revert s. induction pools as [|pool pools IH]; intros s; [done|].
  cbn [for_each].
  destruct (track_token_mention_run rt (p_base_token pool) s)
    as (s1 & Hrun1 & Htd1 & _ & _ & Ht1).
  destruct (track_token_mention_run rt (p_quote_token pool) s1)
    as (s2 & Hrun2 & Htd2 & _ & _ & Ht2).
  assert (Hrun : bind (bind (track_token_mention rt (p_base_token pool))
                         (λ _, track_token_mention rt (p_quote_token pool)))
                   (λ _, for_each pools
                           (λ pool, track_token_mention rt (p_base_token pool) ;;;
                                    track_token_mention rt (p_quote_token pool))) s
                 = for_each pools
                     (λ pool, track_token_mention rt (p_base_token pool) ;;;
                              track_token_mention rt (p_quote_token pool)) s2).
  { unfold bind at 1. unfold bind at 1. by rewrite Hrun1, Hrun2. }
  rewrite Hrun. destruct (IH s2) as [Hh Ht].
  rewrite Hh, Htd2, Htd1. split; [done|lia].
Qed.

(** X17.  What follows a successful post.  After the tracking that
    [generate_and_post_tweet] does once a post is out, every source
    article has its record, written during that tracking; so, as long
    as the tracker's data is what the tracking left,
    [is_article_processed] of a source article says whether fewer than
    48 hours have passed since a reading [k] of the clock made during
    the tracking. *)
Theorem published_sources_are_processed (rt : Runtime) (tweet_text : string)
    (articles : list Article) (pools : list Pool) (s s2 : TrackerSt)
    (article : Article) :
  article ∈ articles →
  tracking_data s2
  = tracking_data (snd (track_content rt tweet_text articles pools s)) →
  ∃ k, (ticks (world s) <= k
        < ticks (world (snd (track_content rt tweet_text articles pools s))))%nat
       ∧ fst (is_article_processed rt article s2)
         = Ok (clock rt (ticks (world s2)) - clock rt k <? hours 48).
Proof.
  intros Hin Hdata. unfold track_content in *.
  pose proof (track_articles_recorded rt (ticks (world s)) articles s (le_n _))
    as (Ht1 & _ & Hall). simpl in Ht1, Hall.
  pose proof (tracking_step_for_each articles (track_article rt)
                (track_article_step rt) s) as (Hok1 & _).
  unfold bind at 1 2 in Hdata. unfold bind at 1 2.
  destruct (for_each articles (track_article rt) s) as [[[]|e] s1]; [|done].
  simpl in Ht1, Hall.
  pose proof (track_mentions_keep_articles rt pools s1) as [Hh2 Ht2].
  pose proof (tracking_step_for_each pools
                (λ pool, track_token_mention rt (p_base_token pool) ;;;
                         track_token_mention rt (p_quote_token pool))
                (λ pool, tracking_step_bind _ _
                           (track_token_mention_step rt (p_base_token pool))
                           (λ _, track_token_mention_step rt (p_quote_token pool)))
                s1) as (Hok2 & _).
  unfold bind at 1 in Hdata. unfold bind at 1.
  destruct (for_each pools _ s1) as [[[]|e] s3]; [|done].
  simpl in Hh2, Ht2.
  destruct (track_generated_tweet_run rt tweet_text articles s3)
    as (s4 & Hrun4 & Htd4 & _ & _ & Ht4).
  rewrite Hrun4 in Hdata. rewrite Hrun4. simpl in Hdata. simpl.
  destruct (Hall article Hin) as (record & k & Hl & Hts & Hk).
  exists k. split; [lia|].
  rewrite is_article_processed_run, Hdata, Htd4. simpl.
  by rewrite Hh2, Hl, Hts.
Qed.

Lemma published_sources_are_processed_witness :
  ∃ k, fst (is_article_processed Scenario.echo_runtime Scenario.broad_article
              (snd (track_content Scenario.echo_runtime "Layer2 fees keep falling"
                      [Scenario.broad_article] [] Scenario.blank_tracker)))
       = Ok (clock Scenario.echo_runtime
               (ticks (world (snd (track_content Scenario.echo_runtime
                                     "Layer2 fees keep falling"
                                     [Scenario.broad_article] []
                                     Scenario.blank_tracker))))
             - clock Scenario.echo_runtime k <? hours 48).
Proof.
  destruct (published_sources_are_processed Scenario.echo_runtime
              "Layer2 fees keep falling" [Scenario.broad_article] []
              Scenario.blank_tracker _ Scenario.broad_article
              (list_elem_of_here _ _) eq_refl) as (k & _ & Hk).
  by exists k.
Defined.

(** ** Requests with retries, and [post_tweet] *)

Lemma request_loop_cases {V} (m : nat) (d : Z)
    (req : nat → TwitterAPI.attempt_outcome V) (r a : nat) (s : Z) :
  (a + r = m)%nat →
  match fst (TwitterAPI.request_loop m d req r a s) with
  | TwitterAPI.Value v =>
      ∃ k, (a <= k < m)%nat ∧ req k = TwitterAPI.Returns v
           ∧ ∀ j, (a <= j < k)%nat → retried (req j) = true
  | TwitterAPI.NoValue =>
      (∀ j, (a <= j < m)%nat → retried (req j) = true)
      ∧ ∀ j, (a <= j)%nat → S j = m → req j ≠ TwitterAPI.ConnectionError
  | TwitterAPI.RaisesConnectionError =>
      ∃ k, S k = m ∧ (a <= k)%nat ∧ req k = TwitterAPI.ConnectionError
           ∧ ∀ j, (a <= j < k)%nat → retried (req j) = true
  | TwitterAPI.RaisesOtherError =>
      ∃ k, (a <= k < m)%nat ∧ req k = TwitterAPI.OtherError
           ∧ ∀ j, (a <= j < k)%nat → retried (req j) = true
  end.
Proof.
  revert a s. induction r as [|r IH]; intros a s Ham; simpl.
  - split; intros; lia.
  - assert (Hnext : ∀ s',
      retried (req a) = true →
      (req a = TwitterAPI.ConnectionError → S a ≠ m) →
      match fst (TwitterAPI.request_loop m d req r (S a) s') with
      | TwitterAPI.Value v =>
          ∃ k, (a <= k < m)%nat ∧ req k = TwitterAPI.Returns v
               ∧ ∀ j, (a <= j < k)%nat → retried (req j) = true
      | TwitterAPI.NoValue =>
          (∀ j, (a <= j < m)%nat → retried (req j) = true)
          ∧ ∀ j, (a <= j)%nat → S j = m → req j ≠ TwitterAPI.ConnectionError
      | TwitterAPI.RaisesConnectionError =>
          ∃ k, S k = m ∧ (a <= k)%nat ∧ req k = TwitterAPI.ConnectionError
               ∧ ∀ j, (a <= j < k)%nat → retried (req j) = true
      | TwitterAPI.RaisesOtherError =>
          ∃ k, (a <= k < m)%nat ∧ req k = TwitterAPI.OtherError
               ∧ ∀ j, (a <= j < k)%nat → retried (req j) = true
      end).
    { intros s' Hre Hlast. specialize (IH (S a) s' ltac:(lia)).
      assert (Hpre : ∀ k, (∀ j, (S a <= j < k)%nat → retried (req j) = true) →
                ∀ j, (a <= j < k)%nat → retried (req j) = true).
      { intros k Hk j Hj. destruct (decide (j = a)) as [->|]; [done|].
        apply Hk. lia. }
      destruct (fst (TwitterAPI.request_loop m d req r (S a) s')).
      - destruct IH as (k & ? & ? & ?).
        exists k. split; [lia|]. split; [done|]. by apply Hpre.
      - destruct IH as [H1 H2]. split; [by apply Hpre|].
        intros j Hj Hm. destruct (decide (j = a)) as [->|]; [|apply H2; lia].
        intros Hc. by apply Hlast.
      - destruct IH as (k & ? & ? & ? & ?).
        exists k. split; [done|]. split; [lia|]. split; [done|]. by apply Hpre.
      - destruct IH as (k & ? & ? & ?).
        exists k. split; [lia|]. split; [done|]. by apply Hpre. }
    destruct (req a) eqn:Hreq; simpl.
    + exists a. split; [lia|]. split; [done|]. intros; lia.
    + destruct (Nat.eqb_spec a (m - 1)) as [Heq|Hne]; simpl.
      * exists a. split; [lia|]. split; [lia|]. split; [done|]. intros; lia.
      * apply Hnext; [done|]. intros _. lia.
    + by apply Hnext.
    + by apply Hnext.
    + exists a. split; [lia|]. split; [done|]. intros; lia.
Qed.

Lemma settles_once {V} (m : nat) (req : nat → TwitterAPI.attempt_outcome V)
    (k1 k2 : nat) (o1 o2 : TwitterAPI.attempt_outcome V) :
  settles m req k1 o1 → settles m req k2 o2 → o1 = o2.
Proof.
  intros (Hk1 & Hr1 & Ho1 & Hl1) (Hk2 & Hr2 & Ho2 & Hl2).
  destruct (lt_eq_lt_dec k1 k2) as [[Hlt| ->]|Hlt].
  - specialize (Hr2 k1 Hlt). rewrite Ho1 in Hr2. apply Hl1 in Hr2. lia.
  - congruence.
  - specialize (Hr1 k2 Hlt). rewrite Ho2 in Hr1. apply Hl2 in Hr1. lia.
Qed.

Lemma settles_not_exhausted {V} (m : nat)
    (req : nat → TwitterAPI.attempt_outcome V)
    (k : nat) (o : TwitterAPI.attempt_outcome V) :
  settles m req k o → reached req m →
  (∀ j, S j = m → req j ≠ TwitterAPI.ConnectionError) → False.
Proof.
  intros (Hk & _ & Ho & Hl) Hall Hlast.
  specialize (Hall k Hk). rewrite Ho in Hall.
  destruct (Hl Hall) as [Hm ->]. by apply (Hlast k).
Qed.

(** How a request ends, read from the loop. *)
Lemma make_twitter_request_cases {V} (m : nat) (d : Z)
    (req : nat → TwitterAPI.attempt_outcome V) :
  match fst (TwitterAPI._make_twitter_request m d req) with
  | TwitterAPI.Value v => ∃ k, settles m req k (TwitterAPI.Returns v)
  | TwitterAPI.NoValue =>
      reached req m ∧ ∀ j, S j = m → req j ≠ TwitterAPI.ConnectionError
  | TwitterAPI.RaisesConnectionError =>
      ∃ k, settles m req k TwitterAPI.ConnectionError
  | TwitterAPI.RaisesOtherError => ∃ k, settles m req k TwitterAPI.OtherError
  end.
Proof.
  unfold TwitterAPI._make_twitter_request.
  pose proof (request_loop_cases m d req m 0 0 eq_refl) as H.
  destruct (fst (TwitterAPI.request_loop m d req m 0 0)).
  - destruct H as (k & Hk & Hv & Hpre). exists k.
    split; [lia|]. split; [|split; [done|done]].
    intros j Hj. apply Hpre. lia.
  - destruct H as [H1 H2]. split.
    + intros j Hj. apply H1. lia.
    + intros j Hj. apply H2; [lia|done].
  - destruct H as (k & Hm & _ & Hv & Hpre). exists k.
    split; [lia|]. split; [|split; [done|done]].
    intros j Hj. apply Hpre. lia.
  - destruct H as (k & Hk & Hv & Hpre). exists k.
    split; [lia|]. split; [|split; [done|done]].
    intros j Hj. apply Hpre. lia.
Qed.

Lemma make_twitter_request_settled {V} (m : nat) (d : Z)
    (req : nat → TwitterAPI.attempt_outcome V)
    (k : nat) (o : TwitterAPI.attempt_outcome V) :
  settles m req k o →
  fst (TwitterAPI._make_twitter_request m d req)
  = match o with
    | TwitterAPI.Returns v => TwitterAPI.Value v
    | TwitterAPI.OtherError => TwitterAPI.RaisesOtherError
    | _ => TwitterAPI.RaisesConnectionError
    end.
Proof.
  intros Hs. pose proof (make_twitter_request_cases m d req) as H.
  destruct (fst (TwitterAPI._make_twitter_request m d req)).
  - destruct H as (k' & H). by rewrite <- (settles_once _ _ _ _ _ _ H Hs).
  - destruct H as [H1 H2]. by destruct (settles_not_exhausted _ _ _ _ Hs H1 H2).
  - destruct H as (k' & H). by rewrite <- (settles_once _ _ _ _ _ _ H Hs).
  - destruct H as (k' & H). by rewrite <- (settles_once _ _ _ _ _ _ H Hs).
Qed.

Lemma make_twitter_request_value {V} (m : nat) (d : Z)
    (req : nat → TwitterAPI.attempt_outcome V) (v : V) :
  fst (TwitterAPI._make_twitter_request m d req) = TwitterAPI.Value v
  ↔ ∃ k, (k < m)%nat ∧ reached req k ∧ req k = TwitterAPI.Returns v.
Proof.
  split.
  - intros Hv. pose proof (make_twitter_request_cases m d req) as H.
    rewrite Hv in H. destruct H as (k & Hk & Hr & Ho & _). by exists k.
  - intros (k & Hk & Hr & Ho).
    by rewrite (make_twitter_request_settled m d req k (TwitterAPI.Returns v)).
Qed.

(** X18.  How a request with retries ends.  The calls are made in turn,
    at most [max_retries] of them; a call is tried again after a
    connection error, a rate limit or a server error.  The request
    returns [v] exactly when the first call that is not tried again
    returns [v]; it returns [None], without an exception, exactly when
    every call was tried again and the last one did not fail on the
    connection; it raises the connection error exactly when the last
    call is made and fails on the connection, and another exception
    exactly when the first call that is not tried again raises it. *)
Theorem make_twitter_request_spec {V} (m : nat) (d : Z)
    (req : nat → TwitterAPI.attempt_outcome V) :
  (∀ v, fst (TwitterAPI._make_twitter_request m d req) = TwitterAPI.Value v
        ↔ ∃ k, (k < m)%nat ∧ reached req k ∧ req k = TwitterAPI.Returns v)
  ∧ (fst (TwitterAPI._make_twitter_request m d req) = TwitterAPI.NoValue
     ↔ reached req m ∧ ∀ k, S k = m → req k ≠ TwitterAPI.ConnectionError)
  ∧ (fst (TwitterAPI._make_twitter_request m d req)
     = TwitterAPI.RaisesConnectionError
     ↔ ∃ k, S k = m ∧ reached req k ∧ req k = TwitterAPI.ConnectionError)
  ∧ (fst (TwitterAPI._make_twitter_request m d req)
     = TwitterAPI.RaisesOtherError
     ↔ ∃ k, (k < m)%nat ∧ reached req k ∧ req k = TwitterAPI.OtherError).
Proof.
  split; [apply make_twitter_request_value|].
  pose proof (make_twitter_request_cases m d req) as H.
  split; [|split].
  - split.
    + intros Hv. by rewrite Hv in H.
    + intros [H1 H2].
      destruct (fst (TwitterAPI._make_twitter_request m d req)); [| done | |];
        destruct H as (k & H);
        destruct (settles_not_exhausted _ _ _ _ H H1 H2).
  - split.
    + intros Hv. rewrite Hv in H. destruct H as (k & Hk & Hr & Ho & Hl).
      exists k. split; [|done]. by destruct (Hl eq_refl).
    + intros (k & Hk & Hr & Ho).
      apply (make_twitter_request_settled m d req k TwitterAPI.ConnectionError).
      split; [lia|]. by split; [|split].
  - split.
    + intros Hv. rewrite Hv in H. destruct H as (k & Hk & Hr & Ho & _).
      by exists k.
    + intros (k & Hk & Hr & Ho).
      by apply (make_twitter_request_settled m d req k TwitterAPI.OtherError).
Qed.

Lemma request_loop_slept {V} (m : nat) (d : Z)
    (req : nat → TwitterAPI.attempt_outcome V) (r a : nat) (s : Z) :
  0 <= d → d * Z.of_nat m <= 60 → (a + r = m)%nat →
  s <= snd (TwitterAPI.request_loop m d req r a s) <= s + 60 * Z.of_nat r.
Proof.
  intros Hd Hm. revert a s. induction r as [|r IH]; intros a s Ham; simpl.
  - lia.
  - destruct (req a); simpl; try lia.
    + destruct (Nat.eqb a (m - 1)); simpl; [lia|].
      specialize (IH (S a) (s + d * (Z.of_nat a + 1)) ltac:(lia)). nia.
    + specialize (IH (S a) (s + 60) ltac:(lia)). lia.
    + specialize (IH (S a) (s + 30) ltac:(lia)). lia.
Qed.

(** X19.  A request sleeps for a bounded time.  With the delays of the
    class (three attempts, five seconds) the seconds slept during one
    request are between 0 and 180, whatever the calls do. *)
Theorem make_twitter_request_sleeps_at_most {V}
    (req : nat → TwitterAPI.attempt_outcome V) :
  0 <= snd (TwitterAPI._make_twitter_request TwitterAPI.max_retries
              TwitterAPI.retry_delay req) <= 180.
Proof.
  pose proof (request_loop_slept TwitterAPI.max_retries TwitterAPI.retry_delay
                req TwitterAPI.max_retries 0 0) as H.
  unfold TwitterAPI._make_twitter_request.
  unfold TwitterAPI.max_retries, TwitterAPI.retry_delay in *.
  specialize (H ltac:(lia) ltac:(lia) eq_refl). lia.
Qed.

(** X20.  When [post_tweet] says yes.  It returns [True] exactly when
    the client is configured, the request that creates the post returns
    a response with an id, and the request for the account returns a
    user.  So it answers [False] for a post that was created whenever
    the account request fails or returns nothing. *)
Theorem post_tweet_spec (is_configured : bool)
    (create_tweet : nat → TwitterAPI.attempt_outcome bool)
    (get_me : nat → TwitterAPI.attempt_outcome (option string)) :
  TwitterAPI.post_tweet is_configured create_tweet get_me = true
  ↔ is_configured = true
    ∧ (∃ k, (k < 3)%nat ∧ reached create_tweet k
            ∧ create_tweet k = TwitterAPI.Returns true)
    ∧ (∃ k username, (k < 3)%nat ∧ reached get_me k
            ∧ get_me k = TwitterAPI.Returns (Some username)).
Proof.
  unfold TwitterAPI.post_tweet.
  pose proof (make_twitter_request_value TwitterAPI.max_retries
                TwitterAPI.retry_delay create_tweet true) as Hc.
  pose proof (λ u, make_twitter_request_value TwitterAPI.max_retries
                TwitterAPI.retry_delay get_me (Some u)) as Hg.
  split.
  - destruct is_configured; simpl; [|done].
    destruct (fst (TwitterAPI._make_twitter_request _ _ create_tweet))
      as [[|]| | |]; try done.
    destruct (fst (TwitterAPI._make_twitter_request _ _ get_me))
      as [[u|]| | |]; try done.
    intros _. split; [done|]. split; [by apply Hc|].
    destruct (proj1 (Hg u) eq_refl) as (k & H). by exists k, u.
  - intros (-> & Hcreate & (k & u & Hme)). simpl.
    rewrite (proj2 Hc Hcreate).
    by rewrite (proj2 (Hg u) (ex_intro _ k Hme)).
Qed.

(** ** The news feed *)

Lemma collect_news_spec (clean_html : string → string)
    (recent : nat → string → bool) (entries : list Summaries.FeedEntry) :
  ∀ (i : nat) (items : list Summaries.NewsItem) (seen : gset string)
    (out : list Summaries.NewsItem),
    Summaries.collect_news clean_html recent i entries items seen = Some out →
    ∃ added,
      out = items ++ added
      ∧ NoDup (map Summaries.n_title added)
      ∧ (∀ item, item ∈ added →
           (Summaries.n_title item ∉ seen)
           ∧ ∃ j, made_from clean_html (λ k, recent (i + k)%nat) entries j item)
      ∧ (∀ j entry p raw_title,
           entries !! j = Some entry →
           Summaries.published_time entry = Some p →
           PyStr.truthy p = true →
           recent (i + j)%nat p = true →
           Summaries.e_title entry = Some raw_title →
           clean_html raw_title ∈ seen
           ∨ clean_html raw_title ∈ map Summaries.n_title added).
Proof.
  induction entries as [|entry rest IH]; intros i items seen out Hout.
  - simpl in Hout. inversion Hout; subst. exists [].
    split; [by rewrite app_nil_r|]. split; [constructor|]. split.
    + intros item Hin. by apply elem_of_nil in Hin.
    + intros j entry p raw Hj. by rewrite lookup_nil in Hj.
  - assert (Hskip :
      (∀ p raw_title,
         Summaries.published_time entry = Some p →
         PyStr.truthy p = true → recent i p = true →
         Summaries.e_title entry = Some raw_title →
         clean_html raw_title ∈ seen) →
      Summaries.collect_news clean_html recent (S i) rest items seen
      = Some out →
      ∃ added,
        out = items ++ added
        ∧ NoDup (map Summaries.n_title added)
        ∧ (∀ item, item ∈ added →
             (Summaries.n_title item ∉ seen)
             ∧ ∃ j, made_from clean_html (λ k, recent (i + k)%nat)
                      (entry :: rest) j item)
        ∧ (∀ j entry0 p raw_title,
             (entry :: rest) !! j = Some entry0 →
             Summaries.published_time entry0 = Some p →
             PyStr.truthy p = true →
             recent (i + j)%nat p = true →
             Summaries.e_title entry0 = Some raw_title →
             clean_html raw_title ∈ seen
             ∨ clean_html raw_title ∈ map Summaries.n_title added)).
    { intros Hhead Hrest.
      destruct (IH (S i) items seen out Hrest)
        as (added & Happ & Hnodup & Hfrom & Hall).
      exists added. split; [done|]. split; [done|]. split.
      - intros item Hin. destruct (Hfrom item Hin) as [Hns (j & Hj)].
        split; [done|]. exists (S j).
        destruct Hj as (e & raw & He & Hp & Ht & Hr & Htitle & Hn & Hl).
        exists e, raw. simpl. replace (i + S j)%nat with (S i + j)%nat by lia.
        by repeat (split; [done|]).
      - intros [|j] e p raw He Hp Ht Hr Htitle.
        + simpl in He. inversion He; subst e. left.
          replace (i + 0)%nat with i in Hr by lia. by eapply Hhead.
        + simpl in He. replace (i + S j)%nat with (S i + j)%nat in Hr by lia.
          by eapply Hall. }
    simpl in Hout.
    destruct (Summaries.published_time entry) as [published|] eqn:Hpub.
    2: { apply Hskip; [|done]. intros p raw Hp. done. }
    destruct (PyStr.truthy published) eqn:Htruthy; simpl in Hout.
    2: { apply Hskip; [|done]. intros p raw Hp Ht.
         inversion Hp; subst. by rewrite Htruthy in Ht. }
    destruct (recent i published) eqn:Hrecent; simpl in Hout.
    2: { apply Hskip; [|done]. intros p raw Hp Ht Hr.
         inversion Hp; subst. by rewrite Hrecent in Hr. }
    destruct (Summaries.e_title entry) as [raw_title|] eqn:Htitle; [|done].
    destruct (bool_decide (clean_html raw_title ∈ seen)) eqn:Hseen.
    { apply bool_decide_eq_true in Hseen. apply Hskip; [|done].
      intros p raw _ _ _ Hraw. by inversion Hraw; subst. }
    apply bool_decide_eq_false in Hseen.
    destruct (Summaries.e_link entry) as [link|] eqn:Hlink; [|done].
    destruct (IH _ _ _ _ Hout) as (added & Happ & Hnodup & Hfrom & Hall).
    eexists (_ :: added). rewrite <- app_assoc in Happ.
    split; [exact Happ|]. split; [|split].
    + simpl. constructor; [|done].
      intros Hin. apply list_elem_of_fmap in Hin.
      destruct Hin as (item & Heq & Hin).
      destruct (Hfrom item Hin) as [Hns _]. apply Hns.
      rewrite <- Heq. apply elem_of_union. left. by apply elem_of_singleton.
    + intros item Hin. apply elem_of_cons in Hin. destruct Hin as [->|Hin].
      * simpl. split; [done|]. exists 0%nat, entry, raw_title. simpl.
        replace (i + 0)%nat with i by lia.
        by repeat (split; [done|]).
      * destruct (Hfrom item Hin) as [Hns (j & Hj)]. split.
        { intros Hs. apply Hns. apply elem_of_union. by right. }
        exists (S j).
        destruct Hj as (e & raw & He & Hp & Ht & Hr & Hti & Hn & Hl).
        exists e, raw. simpl. replace (i + S j)%nat with (S i + j)%nat by lia.
        by repeat (split; [done|]).
    + intros [|j] e p raw He Hp Ht Hr Hti.
      * simpl in He. inversion He; subst e. right. simpl.
        rewrite Htitle in Hti. inversion Hti; subst. by left.
      * simpl in He. replace (i + S j)%nat with (S i + j)%nat in Hr by lia.
        destruct (Hall j e p raw He Hp Ht Hr Hti) as [Hs|Ha].
        { apply elem_of_union in Hs. destruct Hs as [Hs|Hs]; [|by left].
          apply elem_of_singleton in Hs. right. simpl. rewrite Hs. by left. }
        right. simpl. by right.
Qed.

Lemma collect_news_returns (clean_html : string → string)
    (recent : nat → string → bool) (entries : list Summaries.FeedEntry) :
  Forall complete_entry entries →
  ∀ (i : nat) (items : list Summaries.NewsItem) (seen : gset string),
    is_Some (Summaries.collect_news clean_html recent i entries items seen).
Proof.
  induction 1 as [|entry rest [[raw Htitle] [link Hlink]] _ IH];
    intros i items seen; simpl; [done|].
  destruct (Summaries.published_time entry) as [published|]; [|apply IH].
  destruct (negb (PyStr.truthy published)); [apply IH|].
  destruct (negb (recent i published)); [apply IH|].
  rewrite Htitle, Hlink. destruct (bool_decide _); apply IH.
Qed.

(** X21.  What [fetch_crypto_news] returns.  No two of the returned
    items have the same title, and each is made from an entry of the
    feed that has a time stamp accepted by the recency test: it carries
    the cleaned title, the link and the time stamp of that entry. *)
Theorem fetch_crypto_news_spec (clean_html : string → string)
    (is_within_last_24_hours : nat → string → bool)
    (feed : option (list Summaries.FeedEntry)) :
  NoDup (map Summaries.n_title
           (Summaries.fetch_crypto_news clean_html is_within_last_24_hours feed))
  ∧ ∀ item,
      item ∈ Summaries.fetch_crypto_news clean_html is_within_last_24_hours feed →
      ∃ entries i,
        feed = Some entries
        ∧ made_from clean_html is_within_last_24_hours entries i item.
Proof.
  unfold Summaries.fetch_crypto_news.
  assert (Hnone : NoDup (map Summaries.n_title [])
                  ∧ ∀ item, item ∈ @nil Summaries.NewsItem →
                      ∃ entries i,
                        feed = Some entries
                        ∧ made_from clean_html is_within_last_24_hours
                            entries i item).
  { split; [constructor|]. intros item Hin. by apply elem_of_nil in Hin. }
  destruct feed as [[|entry rest]|]; [done| |done].
  destruct (Summaries.collect_news _ _ 0 (entry :: rest) [] ∅) as [out|] eqn:Hout.
  2: { destruct Hnone as [H1 H2]. split; [done|]. intros item Hin.
       by apply elem_of_nil in Hin. }
  destruct (collect_news_spec _ _ _ _ _ _ _ Hout)
    as (added & Happ & Hnodup & Hfrom & _).
  simpl in Happ. subst out. split; [done|].
  intros item Hin. destruct (Hfrom item Hin) as [_ (j & Hj)].
  by exists (entry :: rest), j.
Qed.

(** X22.  No recent story is lost.  When every entry of the feed has a
    title and a link, the cleaned title of every entry that has a time
    stamp accepted by the recency test is the title of a returned
    item. *)
Theorem fetch_crypto_news_keeps_recent (clean_html : string → string)
    (is_within_last_24_hours : nat → string → bool)
    (entries : list Summaries.FeedEntry) (i : nat)
    (entry : Summaries.FeedEntry) (published raw_title : string) :
  Forall complete_entry entries →
  entries !! i = Some entry →
  Summaries.published_time entry = Some published →
  PyStr.truthy published = true →
  is_within_last_24_hours i published = true →
  Summaries.e_title entry = Some raw_title →
  clean_html raw_title
  ∈ map Summaries.n_title
      (Summaries.fetch_crypto_news clean_html is_within_last_24_hours
         (Some entries)).
Proof.
  intros Hcomplete Hi Hpub Htruthy Hrecent Htitle.
  unfold Summaries.fetch_crypto_news.
  destruct entries as [|e rest]; [by rewrite lookup_nil in Hi|].
  destruct (collect_news_returns clean_html is_within_last_24_hours _ Hcomplete
              0%nat [] ∅) as [out Hout].
  rewrite Hout.
  destruct (collect_news_spec _ _ _ _ _ _ _ Hout)
    as (added & Happ & _ & _ & Hall).
  simpl in Happ. subst out.
  destruct (Hall i entry published raw_title Hi Hpub Htruthy Hrecent Htitle)
    as [Hs|Ha]; [|done].
  by apply elem_of_empty in Hs.
Qed.

Lemma fetch_crypto_news_keeps_recent_witness :
  "Layer2 fees keep falling"
  ∈ map Summaries.n_title
      (Summaries.fetch_crypto_news Feed.plain Feed.always_recent
         (Some Feed.entries)).
Proof.
  apply (fetch_crypto_news_keeps_recent Feed.plain Feed.always_recent
           Feed.entries 0 (Feed.entry_of (Feed.story "Layer2 fees keep falling"
                                            "https://news.example/fees"))
           "Tue, 03 Nov 2026 09:00:00 +0000" "Layer2 fees keep falling").
  - repeat constructor; by eexists.
  - reflexivity.
  - reflexivity.
  - reflexivity.
  - reflexivity.
  - reflexivity.
Defined.

(** ** The summaries archive *)

Lemma url_in_spec (link : string) (urls : list string) :
  Summaries.url_in link urls = true ↔ link ∈ urls.
Proof.
  unfold Summaries.url_in. rewrite existsb_exists. split.
  - intros (u & Hin & Heq). apply String.eqb_eq in Heq. subst.
    by apply list_elem_of_In.
  - intros Hin. exists link. split; [by apply list_elem_of_In|].
    apply String.eqb_refl.
Qed.

Lemma summarise_from_grows (gs : nat → Summaries.NewsItem → option string)
    (all_news : list Summaries.NewsItem) (a0 : Summaries.SummariesArchive)
    (news : list Summaries.NewsItem) (i : nat) (a : Summaries.SummariesArchive) :
  (∀ article, article ∈ news →
     article ∈ all_news
     ∧ Summaries.url_in (Summaries.n_link article)
         (Summaries.processed_urls a0) = false) →
  ∃ new,
    Summaries.items (Summaries.summarise_from gs i news a)
    = Summaries.items a ++ new
    ∧ Summaries.processed_urls (Summaries.summarise_from gs i news a)
      = Summaries.processed_urls a ++ map Summaries.s_link new
    ∧ Forall (fresh_item all_news a0) new.
Proof.
  revert i a. induction news as [|article news IH]; intros i a Hnews; simpl.
  - exists []. by rewrite !app_nil_r.
  - destruct (IH (S i)
                (Summaries.summarise_one (gs i article) a article))
      as (new & Hitems & Hurls & Hnew).
    { intros x Hx. apply Hnews. by right. }
    rewrite Hitems, Hurls. unfold Summaries.summarise_one.
    destruct (gs i article) as [summary|]; [|by exists new].
    destruct (PyStr.truthy summary) eqn:Htruthy; [|by exists new].
    simpl. exists (summary_item article summary :: new).
    rewrite <- !app_assoc. split; [done|]. split; [done|].
    constructor; [|done].
    destruct (Hnews article (list_elem_of_here _ _)) as [Hin Hurl].
    by exists article, summary.
Qed.

Lemma summarise_from_all (gs : nat → Summaries.NewsItem → option string)
    (news : list Summaries.NewsItem) (i : nat) (a : Summaries.SummariesArchive) :
  (∀ j article, article ∈ news →
     ∃ summary, gs j article = Some summary ∧ PyStr.truthy summary = true) →
  Summaries.processed_urls (Summaries.summarise_from gs i news a)
  = Summaries.processed_urls a ++ map Summaries.n_link news.
Proof.
  revert i a. induction news as [|article news IH]; intros i a Hgs; simpl.
  - by rewrite app_nil_r.
  - rewrite IH by (intros j x Hx; apply Hgs; by right).
    destruct (Hgs i article (list_elem_of_here _ _)) as (summary & -> & Ht).
    unfold Summaries.summarise_one. rewrite Ht. simpl.
    by rewrite <- app_assoc.
Qed.

Lemma filter_none {A} (f : A → bool) (l : list A) :
  (∀ x, x ∈ l → f x = false) → List.filter f l = [].
Proof.
  induction l as [|x l IH]; intros Hl; simpl; [done|].
  rewrite (Hl x (list_elem_of_here _ _)). apply IH.
  intros y Hy. apply Hl. by right.
Qed.

(** What a run does to the archive, whatever it returns. *)
Lemma fetch_and_generate_summaries_run (all_news : list Summaries.NewsItem)
    (gs : nat → Summaries.NewsItem → option string)
    (d : Summaries.SummariesDisk) (a : Summaries.SummariesArchive) :
  Summaries.summaries_json d = Some a →
  let unprocessed :=
    List.filter (λ article,
                   negb (Summaries.url_in (Summaries.n_link article)
                           (Summaries.processed_urls a))) all_news in
  Summaries.fetch_and_generate_summaries all_news gs d
  = match unprocessed with
    | [] => (Ok false, d)
    | _ :: _ =>
        if Summaries.summaries_writable d then
          (Ok true,
           {| Summaries.summaries_json :=
                Some (Summaries.summarise_from gs 0 unprocessed a);
              Summaries.summaries_writable := Summaries.summaries_writable d |})
        else (Raise OSError, d)
    end.
Proof.
  intros Ha. cbv zeta. unfold Summaries.fetch_and_generate_summaries.
  unfold bind at 1. unfold gets at 1. rewrite Ha.
  destruct all_news as [|article all_news]; [done|].
  destruct (List.filter _ (article :: all_news)) as [|x rest]; [done|].
  unfold bind, gets, modify, ret, raise.
  destruct d as [json writable]. simpl. by destruct writable.
Qed.

(** X23.  The summaries archive only grows, and in step.  Whatever a
    run of [fetch_and_generate_summaries] returns, the archive on disk
    afterwards is the one before with entries added at the end, and
    their links added at the end of the processed links; each added
    entry is made from an article of the feed whose link was not
    processed, with a summary that is not empty.  So an archive whose
    processed links are the links of its items stays so. *)
Theorem summaries_archive_grows_in_step (all_news : list Summaries.NewsItem)
    (gs : nat → Summaries.NewsItem → option string)
    (d : Summaries.SummariesDisk) (a : Summaries.SummariesArchive) :
  Summaries.summaries_json d = Some a →
  ∃ a' new,
    Summaries.summaries_json
      (snd (Summaries.fetch_and_generate_summaries all_news gs d)) = Some a'
    ∧ Summaries.items a' = Summaries.items a ++ new
    ∧ Summaries.processed_urls a'
      = Summaries.processed_urls a ++ map Summaries.s_link new
    ∧ Forall (fresh_item all_news a) new
    ∧ (in_step a → in_step a').
Proof.
  intros Ha. rewrite (fetch_and_generate_summaries_run _ _ _ _ Ha).
  set (unprocessed := List.filter _ all_news).
  assert (Hsame : ∃ a' new,
            Some a = Some a'
            ∧ Summaries.items a' = Summaries.items a ++ new
            ∧ Summaries.processed_urls a'
              = Summaries.processed_urls a ++ map Summaries.s_link new
            ∧ Forall (fresh_item all_news a) new
            ∧ (in_step a → in_step a')).
  { exists a, []. by rewrite !app_nil_r. }
  destruct unprocessed as [|x rest] eqn:Hun; simpl; [by rewrite Ha|].
  destruct (Summaries.summaries_writable d); simpl; [|by rewrite Ha].
  destruct (summarise_from_grows gs all_news a (x :: rest) 0 a)
    as (new & Hitems & Hurls & Hnew).
  { intros article Hin. rewrite <- Hun in Hin. unfold unprocessed in Hin.
    apply list_elem_of_In, filter_In in Hin. destruct Hin as [Hin Hurl].
    split; [by apply list_elem_of_In|]. by apply negb_true_iff. }
  exists (Summaries.summarise_from gs 0 (x :: rest) a), new.
  split; [done|]. split; [done|]. split; [done|]. split; [done|].
  unfold in_step. intros Hstep. rewrite Hitems, Hurls, map_app. by rewrite Hstep.
Qed.

Lemma summaries_archive_grows_in_step_witness :
  ∃ a' new,
    Summaries.summaries_json
      (snd (Summaries.fetch_and_generate_summaries Feed.news Feed.summariser
              Feed.first_disk)) = Some a'
    ∧ Summaries.items a' = Summaries.items Feed.first_archive ++ new
    ∧ Summaries.processed_urls a'
      = Summaries.processed_urls Feed.first_archive
        ++ map Summaries.s_link new
    ∧ Forall (fresh_item Feed.news Feed.first_archive) new
    ∧ (in_step Feed.first_archive → in_step a').
Proof.
  exact (summaries_archive_grows_in_step Feed.news Feed.summariser
           Feed.first_disk Feed.first_archive eq_refl).
Defined.

(** X24.  A run whose summaries all succeed leaves nothing to do.  If
    every call of [generate_summary] answers with a text that is not
    empty and the run returns [True], then a second run on the same
    feed returns [False] and leaves the disk as it is, whatever the
    summary calls would answer. *)
Theorem second_run_finds_nothing (all_news : list Summaries.NewsItem)
    (gs gs2 : nat → Summaries.NewsItem → option string)
    (d : Summaries.SummariesDisk) :
  (∀ i article, article ∈ all_news →
     ∃ summary, gs i article = Some summary ∧ PyStr.truthy summary = true) →
  fst (Summaries.fetch_and_generate_summaries all_news gs d) = Ok true →
  Summaries.fetch_and_generate_summaries all_news gs2
    (snd (Summaries.fetch_and_generate_summaries all_news gs d))
  = (Ok false, snd (Summaries.fetch_and_generate_summaries all_news gs d)).
Proof.
  intros Hgs Hrun.
  destruct (Summaries.summaries_json d) as [a|] eqn:Ha.
  2: { unfold Summaries.fetch_and_generate_summaries, bind, gets in Hrun.
       by rewrite Ha in Hrun. }
  rewrite (fetch_and_generate_summaries_run _ _ _ _ Ha) in Hrun |- *.
  set (unprocessed := List.filter _ all_news) in *.
  destruct unprocessed as [|x rest] eqn:Hun; [done|].
  destruct (Summaries.summaries_writable d) eqn:Hw; [|done]. cbn [snd].
  erewrite fetch_and_generate_summaries_run by reflexivity.
  rewrite summarise_from_all.
  2: { intros j article Hin. apply Hgs. rewrite <- Hun in Hin.
       apply list_elem_of_In, filter_In in Hin. destruct Hin as [Hin _].
       by apply list_elem_of_In. }
  rewrite filter_none; [done|]. intros article Hin.
  apply negb_false_iff, url_in_spec.
  destruct (Summaries.url_in (Summaries.n_link article)
              (Summaries.processed_urls a)) eqn:Hurl.
  - apply elem_of_app. left. by apply url_in_spec.
  - apply elem_of_app. right. apply list_elem_of_fmap.
    exists article. split; [done|]. rewrite <- Hun. unfold unprocessed.
    apply list_elem_of_In, filter_In.
    split; [by apply list_elem_of_In|]. by rewrite Hurl.
Qed.

Lemma second_run_finds_nothing_witness :
  Summaries.fetch_and_generate_summaries Feed.news Feed.silent
    (snd (Summaries.fetch_and_generate_summaries Feed.news Feed.summariser
            Feed.first_disk))
  = (Ok false,
     snd (Summaries.fetch_and_generate_summaries Feed.news Feed.summariser
            Feed.first_disk)).
Proof.
  apply (second_run_finds_nothing Feed.news Feed.summariser Feed.silent
           Feed.first_disk).
  - intros i article _. by exists ("Summary: " +:+ Summaries.n_title article).
  - reflexivity.
Defined.

Lemma filter_links_NoDup (f : Summaries.NewsItem → bool)
    (news : list Summaries.NewsItem) :
  NoDup (map Summaries.n_link news) →
  NoDup (map Summaries.n_link (List.filter f news)).
Proof.
  induction news as [|x news IH]; simpl; intros Hnd; [done|].
  apply NoDup_cons in Hnd. destruct Hnd as [Hx Hnd].
  destruct (f x); simpl; [|by apply IH].
  apply NoDup_cons. split; [|by apply IH].
  intros Hin. apply Hx. apply list_elem_of_fmap in Hin.
  destruct Hin as (y & Hy & Hin). apply list_elem_of_fmap.
  exists y. split; [done|].
  apply list_elem_of_In, filter_In in Hin. destruct Hin as [Hin _].
  by apply list_elem_of_In.
Qed.

Lemma summarise_from_links (gs : nat → Summaries.NewsItem → option string)
    (news : list Summaries.NewsItem) (i : nat) (a : Summaries.SummariesArchive) :
  ∃ links,
    Summaries.processed_urls (Summaries.summarise_from gs i news a)
    = Summaries.processed_urls a ++ links
    ∧ links `sublist_of` map Summaries.n_link news.
Proof.
  revert i a. induction news as [|article news IH]; intros i a; simpl.
  - exists []. by rewrite app_nil_r.
  - destruct (IH (S i) (Summaries.summarise_one (gs i article) a article))
      as (links & -> & Hsub).
    unfold Summaries.summarise_one.
    destruct (gs i article) as [summary|];
      [|exists links; split; [done|by apply sublist_cons]].
    destruct (PyStr.truthy summary);
      [|exists links; split; [done|by apply sublist_cons]].
    simpl. exists (Summaries.n_link article :: links).
    rewrite <- app_assoc. split; [done|]. by apply sublist_skip.
Qed.

(** X25.  Links are processed once.  A run on a feed whose links are
    all different keeps the processed links of the archive free of
    repetitions.  (The feed itself is only known to have different
    titles.) *)
Theorem processed_links_stay_distinct (all_news : list Summaries.NewsItem)
    (gs : nat → Summaries.NewsItem → option string)
    (d : Summaries.SummariesDisk) (a : Summaries.SummariesArchive) :
  Summaries.summaries_json d = Some a →
  NoDup (map Summaries.n_link all_news) →
  NoDup (Summaries.processed_urls a) →
  ∃ a',
    Summaries.summaries_json
      (snd (Summaries.fetch_and_generate_summaries all_news gs d)) = Some a'
    ∧ NoDup (Summaries.processed_urls a').
Proof.
  intros Ha Hfeed Hold. rewrite (fetch_and_generate_summaries_run _ _ _ _ Ha).
  set (unprocessed := List.filter _ all_news).
  assert (Hun : ∀ link, link ∈ map Summaries.n_link unprocessed →
                  link ∉ Summaries.processed_urls a).
  { intros link Hin Hp. apply list_elem_of_fmap in Hin.
    destruct Hin as (article & -> & Hin).
    apply list_elem_of_In, filter_In in Hin. destruct Hin as [_ Hurl].
    apply negb_true_iff in Hurl. apply url_in_spec in Hp.
    by rewrite Hp in Hurl. }
  assert (Hnd : NoDup (map Summaries.n_link unprocessed))
    by by apply filter_links_NoDup.
  clearbody unprocessed.
  destruct unprocessed as [|x rest]; simpl; [by exists a|].
  destruct (Summaries.summaries_writable d); simpl; [|by exists a].
  eexists. split; [reflexivity|].
  destruct (summarise_from_links gs (x :: rest) 0 a) as (links & Hl & Hsub).
  simpl in Hl. rewrite Hl. apply NoDup_app. split; [done|]. split.
  - intros link Hp Hin. apply (Hun link); [|done].
    by apply (elem_of_sublist _ _ _ Hin Hsub).
  - by eapply sublist_NoDup.
Qed.

Lemma processed_links_stay_distinct_witness :
  ∃ a',
    Summaries.summaries_json
      (snd (Summaries.fetch_and_generate_summaries Feed.news Feed.summariser
              Feed.first_disk)) = Some a'
    ∧ NoDup (Summaries.processed_urls a').
Proof.
  apply (processed_links_stay_distinct Feed.news Feed.summariser
           Feed.first_disk Feed.first_archive eq_refl).
  - apply NoDup_cons. split.
    + intros Hin. apply elem_of_cons in Hin. destruct Hin as [Heq|Hin].
      * discriminate Heq.
      * by apply elem_of_nil in Hin.
    + apply NoDup_singleton.
  - constructor.
Defined.

(** ** The cache of fetched posts *)

Lemma string_compare_trans (s1 s2 s3 : string) :
  String.compare s1 s2 ≠ Gt → String.compare s2 s3 ≠ Gt →
  String.compare s1 s3 ≠ Gt.
Proof.
  revert s2 s3. induction s1 as [|a1 s1 IH]; intros [|a2 s2] [|a3 s3];
    simpl; try done.
  unfold Ascii.compare.
  destruct (N.compare_spec (N_of_ascii a1) (N_of_ascii a2)) as [H12|H12|H12];
    destruct (N.compare_spec (N_of_ascii a2) (N_of_ascii a3)) as [H23|H23|H23];
    destruct (N.compare_spec (N_of_ascii a1) (N_of_ascii a3)) as [H13|H13|H13];
    try done; try lia.
  apply IH.
Qed.

Lemma string_leb_trans (s1 s2 s3 : string) :
  String.leb s1 s2 = true → String.leb s2 s3 = true → String.leb s1 s3 = true.
Proof.
  unfold String.leb. intros H12 H23.
  pose proof (string_compare_trans s1 s2 s3) as H.
  destruct (String.compare s1 s2); destruct (String.compare s2 s3);
    destruct (String.compare s1 s3); try done; by destruct H.
Qed.

Lemma string_ltb_leb (s1 s2 : string) :
  String.ltb s1 s2 = true → String.leb s1 s2 = true.
Proof. unfold String.ltb, String.leb. by destruct (String.compare s1 s2). Qed.

Lemma string_not_ltb_leb (s1 s2 : string) :
  String.ltb s1 s2 = false → String.leb s2 s1 = true.
Proof.
  unfold String.ltb, String.leb. rewrite (String.compare_antisym s2 s1).
  by destruct (String.compare s1 s2).
Qed.

Lemma insert_newest_perm (x : TweetCache.CachedTweet)
    (l : list TweetCache.CachedTweet) :
  TweetCache.insert_newest x l ≡ₚ x :: l.
Proof.
  induction l as [|y l IH]; simpl; [done|].
  destruct (String.ltb _ _); [|done].
  rewrite IH. apply Permutation_swap.
Qed.

Lemma sorted_newest_perm (l : list TweetCache.CachedTweet) :
  TweetCache.sorted_newest l ≡ₚ l.
Proof.
  induction l as [|x l IH]; simpl; [done|].
  by rewrite insert_newest_perm, IH.
Qed.

Lemma insert_newest_first (x : TweetCache.CachedTweet)
    (l : list TweetCache.CachedTweet) :
  newest_first l → newest_first (TweetCache.insert_newest x l).
Proof.
  induction l as [|y l IH]; simpl; intros Hl; [by split|].
  destruct Hl as [Hy Hl].
  destruct (String.ltb _ _) eqn:Hlt; simpl.
  - split; [|by apply IH].
    rewrite insert_newest_perm. constructor; [|done].
    by apply string_ltb_leb.
  - apply string_not_ltb_leb in Hlt. split; [|by split].
    constructor; [done|].
    eapply Forall_impl; [exact Hy|]. simpl. intros z Hz.
    by eapply string_leb_trans.
Qed.

Lemma sorted_newest_first (l : list TweetCache.CachedTweet) :
  newest_first (TweetCache.sorted_newest l).
Proof.
  induction l as [|x l IH]; simpl; [done|]. by apply insert_newest_first.
Qed.

Lemma newest_first_app (l1 l2 : list TweetCache.CachedTweet) :
  newest_first (l1 ++ l2) →
  newest_first l1
  ∧ ∀ k x, k ∈ l1 → x ∈ l2 →
      String.leb (TweetCache.ct_created_at x) (TweetCache.ct_created_at k)
      = true.
Proof.
  induction l1 as [|y l1 IH]; simpl.
  - intros _. split; [done|]. intros k x Hk. by apply elem_of_nil in Hk.
  - intros [Hy Hl]. destruct (IH Hl) as [H1 H2].
    apply Forall_app in Hy. destruct Hy as [Hy1 Hy2].
    split; [by split|].
    intros k x Hk Hx. apply elem_of_cons in Hk. destruct Hk as [->|Hk].
    + rewrite Forall_forall in Hy2. by apply Hy2.
    + by apply H2.
Qed.

Lemma id_in_spec (i : Z) (ids : list Z) :
  TweetCache.id_in i ids = true ↔ i ∈ ids.
Proof.
  unfold TweetCache.id_in. rewrite existsb_exists. split.
  - intros (j & Hin & Heq). apply Z.eqb_eq in Heq. subst.
    by apply list_elem_of_In.
  - intros Hin. exists i. split; [by apply list_elem_of_In|].
    apply Z.eqb_refl.
Qed.

Lemma candidate_spec (current new_tweets : list TweetCache.CachedTweet)
    (tweet : TweetCache.CachedTweet) :
  tweet ∈ current
         ++ List.filter
              (λ tweet, negb (TweetCache.id_in (TweetCache.ct_id tweet)
                                (map TweetCache.ct_id current))) new_tweets
  ↔ candidate current new_tweets tweet.
Proof.
  unfold candidate. rewrite elem_of_app. split; intros [H|H].
  - by left.
  - right. apply list_elem_of_In, filter_In in H. destruct H as [H1 H2].
    split; [by apply list_elem_of_In|].
    intros Hid. apply id_in_spec in Hid. by rewrite Hid in H2.
  - by left.
  - right. destruct H as [H1 H2]. apply list_elem_of_In, filter_In.
    split; [by apply list_elem_of_In|].
    apply negb_true_iff, not_true_iff_false. by rewrite id_in_spec.
Qed.

(** What [update_user_tweets] leaves in memory and on disk. *)
Lemma update_user_tweets_run (username : string)
    (new_tweets : list TweetCache.CachedTweet) (st : TweetCache.CacheSt) :
  let current := TweetCache.cached username (TweetCache.cache st) in
  let kept :=
    take 10 (TweetCache.sorted_newest
               (current
                ++ List.filter
                     (λ tweet, negb (TweetCache.id_in (TweetCache.ct_id tweet)
                                       (map TweetCache.ct_id current)))
                     new_tweets)) in
  ∃ c, TweetCache.update_user_tweets username new_tweets st
       = (if TweetCache.cache_writable st then Ok () else Raise OSError,
          {| TweetCache.cache := c;
             TweetCache.cache_file :=
               if TweetCache.cache_writable st then Some c
               else TweetCache.cache_file st;
             TweetCache.cache_writable := TweetCache.cache_writable st |})
       ∧ Dict.lookup username c = Some kept
       ∧ ∀ other, other ≠ username →
           Dict.lookup other c = Dict.lookup other (TweetCache.cache st).
Proof.
  destruct st as [c file writable]. cbv zeta.
  unfold TweetCache.update_user_tweets, TweetCache._save_cache,
    TweetCache.cached, TweetCache.set_cache.
  unfold bind, gets, modify, ret, raise. cbn [TweetCache.cache
    TweetCache.cache_file TweetCache.cache_writable fst snd].
  destruct (Dict.lookup username c) as [l|] eqn:Hl;
    cbn [TweetCache.cache TweetCache.cache_file TweetCache.cache_writable].
  - rewrite Hl. eexists. split; [by destruct writable|].
    split; [apply dict_lookup_setitem_eq|].
    intros other Hne. by apply dict_lookup_setitem_ne.
  - rewrite (dict_lookup_setitem_eq username [] c). eexists.
    split; [by destruct writable|].
    split; [apply dict_lookup_setitem_eq|].
    intros other Hne. cbn [TweetCache.cache].
    rewrite dict_lookup_setitem_ne by done.
    by apply dict_lookup_setitem_ne.
Qed.

(** X26.  The cache keeps a user's ten newest posts.  After
    [update_user_tweets(username, new_tweets)], whether or not the file
    could be written, the user's cached posts are at most ten, newest
    first; each of them was cached before or is one of [new_tweets]
    with an id that no cached post of the user had; and such a post is
    missing only when the ten kept ones are all at least as new. *)
Theorem update_user_tweets_keeps_newest (username : string)
    (new_tweets : list TweetCache.CachedTweet) (st : TweetCache.CacheSt) :
  let current := TweetCache.cached username (TweetCache.cache st) in
  let kept :=
    TweetCache.cached username
      (TweetCache.cache
         (snd (TweetCache.update_user_tweets username new_tweets st))) in
  (length kept <= 10)%nat
  ∧ newest_first kept
  ∧ (∀ tweet, tweet ∈ kept → candidate current new_tweets tweet)
  ∧ (∀ tweet, candidate current new_tweets tweet →
       tweet ∈ kept
       ∨ (length kept = 10%nat
          ∧ ∀ k, k ∈ kept →
              String.leb (TweetCache.ct_created_at tweet)
                (TweetCache.ct_created_at k) = true)).
Proof.
  cbv zeta.
  destruct (update_user_tweets_run username new_tweets st)
    as (c & -> & Hkept & _).
  cbn [snd TweetCache.cache].
  set (current := TweetCache.cached username (TweetCache.cache st)) in *.
  assert (Hc : TweetCache.cached username c
               = take 10 (TweetCache.sorted_newest
                            (current
                             ++ List.filter
                                  (λ tweet,
                                     negb (TweetCache.id_in
                                             (TweetCache.ct_id tweet)
                                             (map TweetCache.ct_id current)))
                                  new_tweets))).
  { unfold TweetCache.cached at 1. by rewrite Hkept. }
  rewrite Hc. clear Hc Hkept.
  set (all := current ++ List.filter _ new_tweets).
  pose proof (sorted_newest_first all) as Hsorted.
  pose proof (sorted_newest_perm all) as Hperm.
  rewrite <- (take_drop 10 (TweetCache.sorted_newest all)) in Hsorted.
  apply newest_first_app in Hsorted. destruct Hsorted as [Hfirst Hcross].
  split; [rewrite length_take; lia|]. split; [done|]. split.
  - intros tweet Hin. apply candidate_spec. fold current. fold all.
    rewrite <- Hperm. rewrite <- (take_drop 10 (TweetCache.sorted_newest all)).
    apply elem_of_app. by left.
  - intros tweet Hc. apply candidate_spec in Hc. fold current in Hc.
    fold all in Hc. rewrite <- Hperm in Hc.
    rewrite <- (take_drop 10 (TweetCache.sorted_newest all)) in Hc.
    apply elem_of_app in Hc. destruct Hc as [Hc|Hc]; [by left|]. right.
    split.
    + rewrite length_take.
      assert (length (drop 10 (TweetCache.sorted_newest all)) ≠ 0%nat) as Hd.
      { intros H0. apply nil_length_inv in H0. rewrite H0 in Hc.
        by apply elem_of_nil in Hc. }
      rewrite length_drop in Hd. lia.
    + intros k Hk. by apply Hcross.
Qed.

(** X27.  An update touches one user and is written through.
    [update_user_tweets] changes the cached posts of no other user.
    When the cache file can be written the call returns and a cache
    loaded from the file is the cache in memory; when it cannot, the
    call raises and the file is as before. *)
Theorem update_user_tweets_writes_through (username : string)
    (new_tweets : list TweetCache.CachedTweet) (st : TweetCache.CacheSt) :
  let run := TweetCache.update_user_tweets username new_tweets st in
  (∀ other, other ≠ username →
     Dict.lookup other (TweetCache.cache (snd run))
     = Dict.lookup other (TweetCache.cache st))
  ∧ (if TweetCache.cache_writable st
     then fst run = Ok ()
          ∧ TweetCache.cache (snd (TweetCache._load_cache (snd run)))
            = TweetCache.cache (snd run)
     else fst run = Raise OSError
          ∧ TweetCache.cache_file (snd run) = TweetCache.cache_file st).
Proof.
  cbv zeta.
  destruct (update_user_tweets_run username new_tweets st)
    as (c & Hrun & Hkept & Hother).
  rewrite Hrun. cbn [fst snd TweetCache.cache TweetCache.cache_file].
  split; [done|].
  by destruct (TweetCache.cache_writable st).
Qed.
